(** * OsuPone: the chart parser, the curve geometry and the judgement engine

    A shallow embedding of the parts of [delete-beatmap.js] (the [OsuParser]
    object) and [osu-data.js] (the [OsuGame] class) that decide the
    properties of the specification, followed by the properties themselves.

    Conventions of the embedding.
    - A JavaScript number that is always an integer (a counter, a parsed
      integer field, a bit mask) is a [Z]; any other number is an exact
      rational [Q].  Rounding of IEEE doubles, infinities and NaN are not
      part of the model; a value that may be NaN (the result of [parseInt])
      is an [option], [None] standing for NaN.  A quotient by zero, which
      is infinite or NaN in the source, is 0 in [Q]; the comment of a
      definition says where its divisor can be zero.
    - The functions of the host whose values are not rational
      ([Math.hypot], [Math.atan2], [Math.cos], [Math.sin]) or whose
      argument is any string ([parseFloat], [Number]) are parameters.
    - A string is a [string] whose characters are code units below 256.
    - A JavaScript object used as a dictionary is a [gmap string _].
    - The objects of [activeObjects] are the very objects of [hitObjects];
      the model keeps the objects in one store (the list [hitObjects]) and
      [activeObjects] holds positions in that store. *)

From Stdlib Require Import ZArith QArith Qround Qabs Qminmax Lia Lqa.
From Stdlib Require Import String Ascii Sorted.
From stdpp Require Import base option list gmap strings relations sorting.

Local Open Scope Z_scope.

(** ** Host functions on strings and numbers *)

Module JS.

(** [WhiteSpace] and [LineTerminator] code units below 256. *)
Definition isWhiteSpace (c : ascii) : bool :=
  let n := N_of_ascii c in
  ((9 <=? n) && (n <=? 13) || (n =? 32) || (n =? 160))%N.

(** [s.trimStart()] *)
Fixpoint trimStart (s : string) : string :=
  match s with
  | EmptyString => EmptyString
  | String c s' => if isWhiteSpace c then trimStart s' else s
  end.

(** [s.trimEnd()] *)
Fixpoint trimEnd (s : string) : string :=
  match s with
  | EmptyString => EmptyString
  | String c s' =>
      match trimEnd s' with
      | EmptyString => if isWhiteSpace c then EmptyString else String c EmptyString
      | r => String c r
      end
  end.

(** [s.trim()] *)
Definition trim (s : string) : string := trimEnd (trimStart s).

(** [s.split(sep)] for a separator of one character: the pieces between
    the separators, at least one piece. *)
Fixpoint split (sep : ascii) (s : string) : list string :=
  match s with
  | EmptyString => [EmptyString]
  | String c s' =>
      if Ascii.eqb c sep then EmptyString :: split sep s'
      else match split sep s' with
           | [] => [String c EmptyString]
           | piece :: pieces => String c piece :: pieces
           end
  end.

(** [s.indexOf(c)]: the position of the first [c], or -1. *)
Fixpoint indexOf (c : ascii) (s : string) : Z :=
  match s with
  | EmptyString => -1
  | String d s' =>
      if Ascii.eqb d c then 0
      else let i := indexOf c s' in if i <? 0 then -1 else i + 1
  end.

(** [s.includes(c)] *)
Definition includes (c : ascii) (s : string) : bool := 0 <=? indexOf c s.

(** [s.slice(0, n)] and [s.slice(n)] for [0 <= n]. *)
Definition sliceTo (n : Z) (s : string) : string :=
  substring 0 (Z.to_nat n) s.

Fixpoint dropChars (n : nat) (s : string) : string :=
  match n, s with
  | O, _ => s
  | S n', String _ s' => dropChars n' s'
  | S _, EmptyString => EmptyString
  end.

Definition sliceFrom (n : Z) (s : string) : string := dropChars (Z.to_nat n) s.

(** The value of a digit in radix [r], if the character is one. *)
Definition digitValue (r : Z) (c : ascii) : option Z :=
  let n := Z.of_N (N_of_ascii c) in
  let v := if (48 <=? n) && (n <=? 57) then Some (n - 48)
           else if (97 <=? n) && (n <=? 122) then Some (n - 87)
           else if (65 <=? n) && (n <=? 90) then Some (n - 55)
           else None in
  match v with
  | Some d => if d <? r then Some d else None
  | None => None
  end.

(** The longest prefix of digits of [s], read in radix [r] after the digits
    [acc] already read; [seen] tells whether a digit has been read. *)
Fixpoint readDigits (r : Z) (s : string) (seen : bool) (acc : Z) : option Z :=
  match s with
  | EmptyString => if seen then Some acc else None
  | String c s' =>
      match digitValue r c with
      | Some d => readDigits r s' true (acc * r + d)
      | None => if seen then Some acc else None
      end
  end.

(** [parseInt(s)] with no radix: leading white space, a sign, an optional
    [0x] prefix, then the longest prefix of digits; [None] is NaN.
    [parseInt(undefined)] is NaN. *)
Definition parseIntString (s : string) : option Z :=
  let s1 := trimStart s in
  let '(sign, s2) :=
    match s1 with
    | String "-" t => (-1, t)
    | String "+" t => (1, t)
    | _ => (1, s1)
    end in
  let '(radix, s3) :=
    match s2 with
    | String "0" (String "x" t) => (16, t)
    | String "0" (String "X" t) => (16, t)
    | _ => (10, s2)
    end in
  match readDigits radix s3 false 0 with
  | Some n => Some (sign * n)
  | None => None
  end.

Definition parseInt (v : option string) : option Z :=
  match v with
  | Some s => parseIntString s
  | None => None
  end.

(** [n || d] for a number that may be NaN: NaN and 0 are falsy. *)
Definition orZ (n : option Z) (d : Z) : Z :=
  match n with
  | Some v => if v =? 0 then d else v
  | None => d
  end.

Definition orQ (n : option Q) (d : Q) : Q :=
  match n with
  | Some v => if Qeq_bool v 0 then d else v
  | None => d
  end.

(** [s || d] for a string that may be undefined: both undefined and the
    empty string are falsy. *)
Definition orString (s : option string) (d : string) : string :=
  match s with
  | Some EmptyString | None => d
  | Some v => v
  end.

(** [ToInt32], the conversion the bit operators apply to their operands;
    NaN converts to 0. *)
Definition toInt32 (n : option Z) : Z :=
  match n with
  | Some v => (v + 2 ^ 31) mod 2 ^ 32 - 2 ^ 31
  | None => 0
  end.

(** Comparisons of rationals as booleans. *)
Definition Qltb (a b : Q) : bool := negb (Qle_bool b a).
Definition Qgtb (a b : Q) : bool := Qltb b a.
Definition Qgeb (a b : Q) : bool := Qle_bool b a.

(** [Math.round]: to the nearest integer, halves upwards. *)
Definition round (q : Q) : Z := Qfloor (q + (1 # 2)).

End JS.

(** A point [{x, y}] of the playfield. *)
Module Point.
Record t := mk { x : Q; y : Q }.
End Point.

(** ** The chart parser, [OsuParser] of [delete-beatmap.js] *)

Module OsuParser.

Import JS.

Record general := mkGeneral {
  audioFilename : string;
  audioLeadIn : Z;
  previewTime : Z;
  mode : Z }.

Record metadata := mkMetadata {
  title : string;
  artist : string;
  creator : string;
  version : string;
  tags : string }.

Record difficulty := mkDifficulty {
  hpDrainRate : Q;
  circleSize : Q;
  overallDifficulty : Q;
  approachRate : Q;
  sliderMultiplier : Q;
  sliderTickRate : Q }.

(** A timing point whose offset and beat length are numbers;
    [parseTimingPoints] sets [inherited] to [msPerBeat < 0].  The array
    that [parseTimingPoints] returns, in which they may be NaN, is that of
    the module [TimingLines] below. *)
Record timingPoint := mkTimingPoint {
  offset : Q;
  msPerBeat : Q;
  inherited : bool }.

Record hitWindows := mkHitWindows {
  hit300 : Q;
  hit100 : Q;
  hit50 : Q }.

Inductive objectType := circle | slider.

(** An object of the [hitObjects] array that [parseHitObjects] returns.
    The slider fields of a circle are absent in the source; here they hold
    the values of an empty slider and are never read. *)
Module HitObject.
Record t := mk {
  x : option Z;
  y : option Z;
  time : option Z;
  type : objectType;
  hitSound : Z;
  isNewCombo : bool;
  comboNumber : Z;
  comboColorIndex : Z;
  curveType : string;
  controlPoints : list Point.t;
  slides : Z;
  length : Q }.
End HitObject.

(** The entries [general[key] = value] that the loop of [parseGeneral]
    writes: a line is cut at every colon, and the first two pieces,
    trimmed, are the key and the value. *)
Fixpoint generalEntries (lines : list string) (general : gmap string string)
  : gmap string string :=
  match lines with
  | [] => general
  | line :: rest =>
      let parts := map trim (split ":" line) in
      match parts !! 0%nat, parts !! 1%nat with
      | Some key, Some value =>
          if negb (String.eqb key "") then generalEntries rest (<[key := value]> general)
          else generalEntries rest general
      | _, _ => generalEntries rest general
      end
  end.

Definition parseGeneral (lines : list string) : general :=
  let general := generalEntries lines ∅ in
  {| audioFilename := orString (general !! "AudioFilename"%string) "";
     audioLeadIn := orZ (parseInt (general !! "AudioLeadIn"%string)) 0;
     previewTime := orZ (parseInt (general !! "PreviewTime"%string)) 0;
     mode := orZ (parseInt (general !! "Mode"%string)) 0 |}.

(** The entries that the loop of [parseMetadata] writes: a line with a
    colon is cut at its first colon. *)
Fixpoint metadataEntries (lines : list string) (metadata : gmap string string)
  : gmap string string :=
  match lines with
  | [] => metadata
  | line :: rest =>
      let colonIndex := indexOf ":" line in
      if -1 <? colonIndex then
        let key := trim (sliceTo colonIndex line) in
        let value := trim (sliceFrom (colonIndex + 1) line) in
        metadataEntries rest (<[key := value]> metadata)
      else metadataEntries rest metadata
  end.

Definition parseMetadata (lines : list string) : metadata :=
  let metadata := metadataEntries lines ∅ in
  {| title := orString (metadata !! "Title"%string) "Unknown";
     artist := orString (metadata !! "Artist"%string) "Unknown";
     creator := orString (metadata !! "Creator"%string) "Unknown";
     version := orString (metadata !! "Version"%string) "Normal";
     tags := orString (metadata !! "Tags"%string) "" |}.

Section StringToNumber.

(** The host's conversions of a string to a number, [parseFloat] and
    [Number]; [None] is NaN. *)
Variable parseFloat : string -> option Q.
Variable Number : string -> option Q.

(** The entries that the loop of [parseDifficulty] writes. *)
Fixpoint difficultyEntries (lines : list string) (difficulty : gmap string (option Q))
  : gmap string (option Q) :=
  match lines with
  | [] => difficulty
  | line :: rest =>
      let parts := map trim (split ":" line) in
      match parts !! 0%nat, parts !! 1%nat with
      | Some key, Some value =>
          if negb (String.eqb key "")
          then difficultyEntries rest (<[key := parseFloat value]> difficulty)
          else difficultyEntries rest difficulty
      | _, _ => difficultyEntries rest difficulty
      end
  end.

Definition parseDifficulty (lines : list string) : difficulty :=
  let difficulty := difficultyEntries lines ∅ in
  let get (key : string) : option Q := mjoin (difficulty !! key) in
  {| hpDrainRate := orQ (get "HPDrainRate"%string) 5;
     circleSize := orQ (get "CircleSize"%string) 4;
     overallDifficulty := orQ (get "OverallDifficulty"%string) 5;
     approachRate :=
       orQ (get "ApproachRate"%string) (orQ (get "OverallDifficulty"%string) 5);
     sliderMultiplier := orQ (get "SliderMultiplier"%string) 1.4;
     sliderTickRate := orQ (get "SliderTickRate"%string) 1 |}.

(** One piece [x:y] of a curve description, if both numbers are numbers. *)
Definition parseControlPoint (point : string) : option Point.t :=
  if includes ":" point then
    match map Number (split ":" point) with
    | Some px :: Some py :: _ => Some (Point.mk px py)
    | _ => None
    end
  else None.

(** The body of the loop of [parseHitObjects] from the line [lines] on,
    with the values of [comboNumber] and [comboColorIndex] at that line. *)
Fixpoint parseHitObjectsFrom (safeComboColorCount : Z) (lines : list string)
  (comboNumber comboColorIndex : Z) : list HitObject.t :=
  match lines with
  | [] => []
  | line :: rest =>
      let parts := split "," line in
      if (List.length parts <? 4)%nat
      then parseHitObjectsFrom safeComboColorCount rest comboNumber comboColorIndex
      else
        let x := parseInt (parts !! 0%nat) in
        let y := parseInt (parts !! 1%nat) in
        let time := parseInt (parts !! 2%nat) in
        let type := toInt32 (parseInt (parts !! 3%nat)) in
        let hitSound := orZ (parseInt (parts !! 4%nat)) 0 in
        let isCircle := negb (Z.land type 1 =? 0) in
        let isSlider := negb (Z.land type 2 =? 0) in
        let isSpinner := negb (Z.land type 8 =? 0) in
        let isNewCombo := negb (Z.land type 4 =? 0) in
        if isSpinner
        then parseHitObjectsFrom safeComboColorCount rest comboNumber comboColorIndex
        else
          let comboSkip := Z.land (Z.shiftr type 4) 7 in
          let comboNumber' := if isNewCombo then 1 else comboNumber + 1 in
          let comboColorIndex' :=
            if isNewCombo
            then (comboColorIndex + 1 + comboSkip) mod safeComboColorCount
            else comboColorIndex in
          let circles :=
            if isCircle && negb isSlider
            then [HitObject.mk x y time circle hitSound isNewCombo
                    comboNumber' comboColorIndex' "" [] 0 0]
            else [] in
          let sliders :=
            if isSlider then
              let curveData := orString (parts !! 5%nat) "" in
              let slides := orZ (parseInt (parts !! 6%nat)) 1 in
              let length := orQ (parts !! 7%nat ≫= parseFloat) 100 in
              let curveParts := split "|" curveData in
              let curveType := orString (curveParts !! 0%nat) "B" in
              let controlPoints := omap parseControlPoint (tail curveParts) in
              [HitObject.mk x y time slider hitSound isNewCombo
                 comboNumber' comboColorIndex' curveType controlPoints slides length]
            else [] in
          circles ++ sliders
            ++ parseHitObjectsFrom safeComboColorCount rest comboNumber' comboColorIndex'
  end.

Definition parseHitObjects (lines : list string) (comboColorCount : Z)
  : list HitObject.t :=
  let safeComboColorCount := Z.max 1 comboColorCount in
  parseHitObjectsFrom safeComboColorCount lines 0 0.

End StringToNumber.

(** *** Timing and geometry constants *)

Definition getApproachTime (ar : Q) : Q :=
  if Qltb ar 5 then 1800 - ar * 120 else 1200 - (ar - 5) * 150.

Definition getHitWindows (od : Q) : hitWindows :=
  {| hit300 := 80 - 6 * od;
     hit100 := 140 - 8 * od;
     hit50 := 200 - 10 * od |}.

Definition getCircleRadius (cs : Q) : Q := 54.4 - 4.48 * cs.

(** The slider multiplier that [parseDifficulty] returns is never 0. *)
Definition getSliderDuration (length beatLength sliderMultiplier : Q) : Q :=
  (length / (sliderMultiplier * 100)) * beatLength.

(** *** Curve geometry *)

Section Curves.

Local Open Scope Q_scope.

(** The host's [Math.hypot], [Math.atan2], [Math.cos] and [Math.sin], whose
    values are not rational. *)
Variable hypot : Q -> Q -> Q.
Variable atan2 : Q -> Q -> Q.
Variable cos : Q -> Q.
Variable sin : Q -> Q.

(** [Math.PI], the double nearest to pi. *)
Definition PI : Q := 3.141592653589793115997963468544185161590576171875.

(** [{x: p1.x + (p2.x - p1.x) * t, y: p1.y + (p2.y - p1.y) * t}] *)
Definition interpolate (p1 p2 : Point.t) (t : Q) : Point.t :=
  Point.mk (Point.x p1 + (Point.x p2 - Point.x p1) * t)
           (Point.y p1 + (Point.y p2 - Point.y p1) * t).

(** The loop of [bezierPoint] that builds [newPoints]. *)
Fixpoint bezierNewPoints (points : list Point.t) (t : Q) : list Point.t :=
  match points with
  | p1 :: ((p2 :: _) as rest) => interpolate p1 p2 t :: bezierNewPoints rest t
  | _ => []
  end.

(** [bezierPoint], which calls itself on a list one shorter; [n] bounds the
    depth of the calls.  On an empty list the source never returns. *)
Fixpoint bezierPointRec (n : nat) (points : list Point.t) (t : Q) : option Point.t :=
  match points with
  | [p] => Some p
  | _ =>
      match n with
      | O => None
      | S n' => bezierPointRec n' (bezierNewPoints points t) t
      end
  end.

Definition bezierPoint (points : list Point.t) (t : Q) : option Point.t :=
  bezierPointRec (List.length points) points t.

(** [prev.x === curr.x && prev.y === curr.y] *)
Definition samePoint (prev curr : Point.t) : bool :=
  Qeq_bool (Point.x prev) (Point.x curr) && Qeq_bool (Point.y prev) (Point.y curr).

(** The loop of [splitBezierSegments] from the point after [prev] on,
    followed by the statements after the loop. *)
Fixpoint splitBezierLoop (prev : Point.t) (rest currentSegment : list Point.t)
  (segments : list (list Point.t)) : list (list Point.t) :=
  match rest with
  | [] =>
      if (1 <? List.length currentSegment)%nat
      then segments ++ [currentSegment] else segments
  | curr :: rest' =>
      if samePoint prev curr then
        splitBezierLoop curr rest' [curr]
          (if (1 <? List.length currentSegment)%nat
           then segments ++ [currentSegment] else segments)
      else splitBezierLoop curr rest' (currentSegment ++ [curr]) segments
  end.

Definition splitBezierSegments (points : list Point.t) : list (list Point.t) :=
  match points with
  | [] => [points]
  | p0 :: rest =>
      let segments := splitBezierLoop p0 rest [p0] [] in
      if (0 <? List.length segments)%nat then segments else [points]
  end.

(** The loop [for (let t = 0; t <= 1; t += 1 / resolution)] over one
    segment, from the value [t] on.  [fuel] bounds the number of rounds;
    [None] when it is used up, or when [bezierPoint] does not return.
    The sums of [1 / resolution] are exact here and rounded in the source,
    where the last sample can be lost: at the resolution 100 the source
    takes 100 samples and this loop 101.  The samples at [t = 0] and at
    [t = 1 / resolution] are taken in both. *)
Fixpoint bezierSamples (fuel : nat) (segment : list Point.t) (t step : Q)
  : option (list Point.t) :=
  match fuel with
  | O => None
  | S fuel' =>
      if Qle_bool t 1 then
        p ← bezierPoint segment t;
        ps ← bezierSamples fuel' segment (t + step) step;
        Some (p :: ps)
      else Some []
  end.

(** The loop of [generateBezierCurve] over the segments. *)
Fixpoint bezierSegments (fuel : nat) (segments : list (list Point.t))
  (resolution : positive) : option (list Point.t) :=
  match segments with
  | [] => Some []
  | segment :: rest =>
      if (List.length segment <? 2)%nat then bezierSegments fuel rest resolution
      else
        ps ← bezierSamples fuel segment 0 (1 / inject_Z (Z.pos resolution));
        qs ← bezierSegments fuel rest resolution;
        Some (ps ++ qs)
  end.

Definition generateBezierCurve (fuel : nat) (points : list Point.t)
  (resolution : positive) : option (list Point.t) :=
  if (List.length points <? 2)%nat then Some points
  else bezierSegments fuel (splitBezierSegments points) resolution.

(** The inner loop of [generateLinearCurve], [j] from 0 to
    [pointsPerSegment]. *)
Definition linearSamples (p1 p2 : Point.t) (pointsPerSegment : Z) : list Point.t :=
  map (fun j : Z => interpolate p1 p2 (inject_Z j / inject_Z pointsPerSegment))
      (seqZ 0 (pointsPerSegment + 1)).

(** The outer loop of [generateLinearCurve] over the pairs of neighbours. *)
Fixpoint linearSegments (points : list Point.t) (pointsPerSegment : Z)
  : list Point.t :=
  match points with
  | p1 :: ((p2 :: _) as rest) =>
      linearSamples p1 p2 pointsPerSegment ++ linearSegments rest pointsPerSegment
  | _ => []
  end.

Definition generateLinearCurve (points : list Point.t) (resolution : positive)
  : list Point.t :=
  if (List.length points <? 2)%nat then points
  else
    let pointsPerSegment :=
      Qceiling (inject_Z (Z.pos resolution)
                / inject_Z (Z.of_nat (List.length points) - 1)) in
    linearSegments points pointsPerSegment.

(** [getCircleCenter]; [None] is the [null] of collinear points. *)
Definition getCircleCenter (p1 p2 p3 : Point.t) : option Point.t :=
  let ax := Point.x p1 in let ay := Point.y p1 in
  let bx := Point.x p2 in let by' := Point.y p2 in
  let cx := Point.x p3 in let cy := Point.y p3 in
  let d := 2 * (ax * (by' - cy) + bx * (cy - ay) + cx * (ay - by')) in
  if Qltb (Qabs d) 0.0001 then None
  else
    let ux := ((ax * ax + ay * ay) * (by' - cy) + (bx * bx + by' * by') * (cy - ay)
               + (cx * cx + cy * cy) * (ay - by')) / d in
    let uy := ((ax * ax + ay * ay) * (cx - bx) + (bx * bx + by' * by') * (ax - cx)
               + (cx * cx + cy * cy) * (bx - ax)) / d in
    Some (Point.mk ux uy).

Definition generatePerfectCircleCurve (points : list Point.t) (resolution : positive)
  : list Point.t :=
  match points with
  | p1 :: p2 :: p3 :: _ =>
      match getCircleCenter p1 p2 p3 with
      | None => generateLinearCurve points resolution
      | Some center =>
          let radius := hypot (Point.x p1 - Point.x center) (Point.y p1 - Point.y center) in
          let startAngle := atan2 (Point.y p1 - Point.y center) (Point.x p1 - Point.x center) in
          let midAngle := atan2 (Point.y p2 - Point.y center) (Point.x p2 - Point.x center) in
          let endAngle := atan2 (Point.y p3 - Point.y center) (Point.x p3 - Point.x center) in
          let cross := (Point.x p2 - Point.x p1) * (Point.y p3 - Point.y p1)
                       - (Point.y p2 - Point.y p1) * (Point.x p3 - Point.x p1) in
          let clockwise := Qltb cross 0 in
          let angleDiff0 := endAngle - startAngle in
          let angleDiff :=
            if clockwise
            then (if Qgtb angleDiff0 0 then angleDiff0 - 2 * PI else angleDiff0)
            else (if Qltb angleDiff0 0 then angleDiff0 + 2 * PI else angleDiff0) in
          map (fun i : Z =>
                 let t := inject_Z i / inject_Z (Z.pos resolution) in
                 let angle := startAngle + angleDiff * t in
                 Point.mk (Point.x center + radius * cos angle)
                          (Point.y center + radius * sin angle))
              (seqZ 0 (Z.pos resolution + 1))
      end
  | _ => generateLinearCurve points resolution
  end.

(** The loop of [trimCurveToLength] from the point after [prev] on; it
    returns the points pushed from there on.  The quotient
    [remaining / segmentLength] has a zero divisor only for a target that
    is not positive. *)
Fixpoint trimCurveLoop (prev : Point.t) (rest : list Point.t)
  (currentLength targetLength : Q) : list Point.t :=
  match rest with
  | [] => []
  | curr :: rest' =>
      let segmentLength :=
        hypot (Point.x curr - Point.x prev) (Point.y curr - Point.y prev) in
      if Qgeb (currentLength + segmentLength) targetLength then
        let remaining := targetLength - currentLength in
        let t := remaining / segmentLength in
        [interpolate prev curr t]
      else curr :: trimCurveLoop curr rest' (currentLength + segmentLength) targetLength
  end.

Definition trimCurveToLength (points : list Point.t) (targetLength : Q)
  : list Point.t :=
  match points with
  | p0 :: ((_ :: _) as rest) => p0 :: trimCurveLoop p0 rest 0 targetLength
  | _ => points
  end.

(** [generateCurve]; the parameter [resolution] has the default 50 in the
    source, and the game passes 100. *)
Definition generateCurve (fuel : nat) (curveType : string) (startX startY : Q)
  (controlPoints : list Point.t) (length : Q) (resolution : positive)
  : option (list Point.t) :=
  let allPoints := Point.mk startX startY :: controlPoints in
  curvePoints ←
    (if String.eqb curveType "L" then Some (generateLinearCurve allPoints resolution)
     else if String.eqb curveType "P"
          then Some (generatePerfectCircleCurve allPoints resolution)
          else generateBezierCurve fuel allPoints resolution);
  Some (trimCurveToLength curvePoints length).

End Curves.

End OsuParser.

(** ** The judgement engine, class [OsuGame] of [osu-data.js] *)

Module OsuGame.

Import JS.

Local Open Scope Q_scope.

Inductive GameState :=
  SONG_SELECT | MENU | LOADING | COUNTDOWN | PLAYING | PAUSED | RESULTS.

Inductive HitState :=
  PENDING | ACTIVE | HIT_300 | HIT_100 | HIT_50 | MISS | SLIDING.

Definition HitState_eqb (a b : HitState) : bool :=
  match a, b with
  | PENDING, PENDING | ACTIVE, ACTIVE | HIT_300, HIT_300 | HIT_100, HIT_100
  | HIT_50, HIT_50 | MISS, MISS | SLIDING, SLIDING => true
  | _, _ => false
  end.

(** The object [this.stats]. *)
Module Stats.
Record t := mk {
  score : Z;
  combo : Z;
  maxCombo : Z;
  hit300 : Z;
  hit100 : Z;
  hit50 : Z;
  misses : Z;
  health : Q;
  failed : bool }.
End Stats.

(** An object of [this.hitObjects], as [loadBeatmap] builds it.  The fields
    of the parsed object that only the display and the sound read are left
    out.  The slider fields of a circle are absent in the source; here they
    hold the values of an empty slider and are never read. *)
Module Obj.
Record t := mk {
  x : Z;
  y : Z;
  time : Z;
  type : OsuParser.objectType;
  slides : Z;
  length : Q;
  state : HitState;
  curvePoints : list Point.t;
  slideDuration : Q;
  totalDuration : Q;
  endX : Q;
  endY : Q;
  tracking : bool;
  trackingBroken : bool;
  ticksHit : Z;
  ticksPerSlide : Z;
  totalTicks : Z;
  tickSpacing : Q;
  endHit : bool;
  startHitValue : Z;
  currentBallX : Q;
  currentBallY : Q }.

Definition setState (s : HitState) (o : t) : t :=
  mk (x o) (y o) (time o) (type o) (slides o) (length o) s (curvePoints o)
     (slideDuration o) (totalDuration o) (endX o) (endY o) (tracking o)
     (trackingBroken o) (ticksHit o) (ticksPerSlide o) (totalTicks o)
     (tickSpacing o) (endHit o) (startHitValue o) (currentBallX o) (currentBallY o).

Definition setTracking (tr broken : bool) (o : t) : t :=
  mk (x o) (y o) (time o) (type o) (slides o) (length o) (state o) (curvePoints o)
     (slideDuration o) (totalDuration o) (endX o) (endY o) tr
     broken (ticksHit o) (ticksPerSlide o) (totalTicks o)
     (tickSpacing o) (endHit o) (startHitValue o) (currentBallX o) (currentBallY o).

Definition setStartHitValue (v : Z) (o : t) : t :=
  mk (x o) (y o) (time o) (type o) (slides o) (length o) (state o) (curvePoints o)
     (slideDuration o) (totalDuration o) (endX o) (endY o) (tracking o)
     (trackingBroken o) (ticksHit o) (ticksPerSlide o) (totalTicks o)
     (tickSpacing o) (endHit o) v (currentBallX o) (currentBallY o).

Definition setTicksHit (n : Z) (o : t) : t :=
  mk (x o) (y o) (time o) (type o) (slides o) (length o) (state o) (curvePoints o)
     (slideDuration o) (totalDuration o) (endX o) (endY o) (tracking o)
     (trackingBroken o) n (ticksPerSlide o) (totalTicks o)
     (tickSpacing o) (endHit o) (startHitValue o) (currentBallX o) (currentBallY o).

Definition setEndHit (b : bool) (o : t) : t :=
  mk (x o) (y o) (time o) (type o) (slides o) (length o) (state o) (curvePoints o)
     (slideDuration o) (totalDuration o) (endX o) (endY o) (tracking o)
     (trackingBroken o) (ticksHit o) (ticksPerSlide o) (totalTicks o)
     (tickSpacing o) b (startHitValue o) (currentBallX o) (currentBallY o).

Definition setCurrentBall (p : Point.t) (o : t) : t :=
  mk (x o) (y o) (time o) (type o) (slides o) (length o) (state o) (curvePoints o)
     (slideDuration o) (totalDuration o) (endX o) (endY o) (tracking o)
     (trackingBroken o) (ticksHit o) (ticksPerSlide o) (totalTicks o)
     (tickSpacing o) (endHit o) (startHitValue o) (Point.x p) (Point.y p).
End Obj.

(** The fields of the game that the judgement reads and writes.  The
    objects of [activeObjects] are named by their position in
    [hitObjects]. *)
Record game := mkGame {
  currentState : GameState;
  difficulty : OsuParser.difficulty;
  timingPoints : list OsuParser.timingPoint;
  hitObjects : list Obj.t;
  activeObjects : list nat;
  nextObjectIndex : nat;
  stats : Stats.t }.

Definition setStats (s : Stats.t) (g : game) : game :=
  mkGame (currentState g) (difficulty g) (timingPoints g) (hitObjects g)
         (activeObjects g) (nextObjectIndex g) s.

Definition setHitObjects (l : list Obj.t) (g : game) : game :=
  mkGame (currentState g) (difficulty g) (timingPoints g) l
         (activeObjects g) (nextObjectIndex g) (stats g).

Definition setActiveObjects (l : list nat) (g : game) : game :=
  mkGame (currentState g) (difficulty g) (timingPoints g) (hitObjects g)
         l (nextObjectIndex g) (stats g).

Definition setNextObjectIndex (n : nat) (g : game) : game :=
  mkGame (currentState g) (difficulty g) (timingPoints g) (hitObjects g)
         (activeObjects g) n (stats g).

Definition setCurrentState (s : GameState) (g : game) : game :=
  mkGame s (difficulty g) (timingPoints g) (hitObjects g)
         (activeObjects g) (nextObjectIndex g) (stats g).

(** An assignment to fields of the object at position [i]. *)
Definition updateObject (f : Obj.t -> Obj.t) (i : nat) (g : game) : game :=
  setHitObjects (alter f i (hitObjects g)) g.

Definition createEmptyStats : Stats.t :=
  Stats.mk 0 0 0 0 0 0 0 100 false.

(** [activeObjects.splice(activeObjects.indexOf(hitObject), 1)] *)
Fixpoint spliceFirst (i : nat) (active : list nat) : list nat :=
  match active with
  | [] => []
  | j :: rest => if Nat.eqb j i then rest else j :: spliceFirst i rest
  end.

Definition removeActiveObject (i : nat) (g : game) : game :=
  setActiveObjects (spliceFirst i (activeObjects g)) g.

Definition getDifficultyMultiplier (g : game) : Z :=
  let d := difficulty g in
  round ((OsuParser.hpDrainRate d + OsuParser.circleSize d
          + OsuParser.overallDifficulty d) / 3).

Definition startSlider (i : nat) (startHitValue : Z) (g : game) : game :=
  let g := updateObject (fun o => Obj.setStartHitValue startHitValue
                           (Obj.setTracking true false (Obj.setState SLIDING o))) i g in
  let s := stats g in
  let baseScore := Qfloor (inject_Z startHitValue / 3) in
  let combo := (Stats.combo s + 1)%Z in
  setStats (Stats.mk (Stats.score s + baseScore)%Z combo
              (Z.max (Stats.maxCombo s) combo)
              (Stats.hit300 s) (Stats.hit100 s) (Stats.hit50 s) (Stats.misses s)
              (Stats.health s) (Stats.failed s)) g.

Definition processHit (i : nat) (hitValue : Z) (g : game) : game :=
  let s := stats g in
  let hit300 := if (hitValue =? 300)%Z then (Stats.hit300 s + 1)%Z else Stats.hit300 s in
  let hit100 := if (hitValue =? 300)%Z then Stats.hit100 s
                else if (hitValue =? 100)%Z then (Stats.hit100 s + 1)%Z
                     else Stats.hit100 s in
  let hit50 := if (hitValue =? 300)%Z then Stats.hit50 s
               else if (hitValue =? 100)%Z then Stats.hit50 s
                    else (Stats.hit50 s + 1)%Z in
  let combo := (Stats.combo s + 1)%Z in
  let maxCombo := Z.max (Stats.maxCombo s) combo in
  let multiplier := getDifficultyMultiplier g in
  let score :=
    (Stats.score s + (hitValue
       + Qfloor (inject_Z hitValue * inject_Z combo * inject_Z multiplier * 0.01)))%Z in
  let health := Qmin 100 (Stats.health s + inject_Z hitValue / 50) in
  removeActiveObject i
    (setStats (Stats.mk score combo maxCombo hit300 hit100 hit50 (Stats.misses s)
                 health (Stats.failed s)) g).

Definition processMiss (i : nat) (g : game) : game :=
  let g := updateObject (Obj.setState MISS) i g in
  let s := stats g in
  removeActiveObject i
    (setStats (Stats.mk (Stats.score s) 0 (Stats.maxCombo s)
                 (Stats.hit300 s) (Stats.hit100 s) (Stats.hit50 s)
                 (Stats.misses s + 1)%Z
                 (Qmax 0 (Stats.health s - 8)) (Stats.failed s)) g).

Definition processSliderMiss (i : nat) (g : game) : game :=
  let g := updateObject (Obj.setState MISS) i g in
  let s := stats g in
  removeActiveObject i
    (setStats (Stats.mk (Stats.score s) 0 (Stats.maxCombo s)
                 (Stats.hit300 s) (Stats.hit100 s) (Stats.hit50 s)
                 (Stats.misses s + 1)%Z
                 (Qmax 0 (Stats.health s - 8)) (Stats.failed s)) g).

(** The ratio [tickRatio] of [completeSlider]. *)
Definition tickRatio (slider : Obj.t) : Q :=
  let maxTicks := (Obj.totalTicks slider * Obj.slides slider)%Z in
  if (0 <? maxTicks)%Z then inject_Z (Obj.ticksHit slider) / inject_Z maxTicks else 1.

(** The value [hitValue] that [completeSlider] determines from the ticks. *)
Definition sliderHitValue (slider : Obj.t) : Z :=
  if Qgeb (tickRatio slider) 0.9 && negb (Obj.trackingBroken slider) then 300%Z
  else if Qgeb (tickRatio slider) 0.5 then 100%Z
  else if Qgtb (tickRatio slider) 0 then 50%Z
  else 0%Z.

Definition completeSlider (i : nat) (g : game) : game :=
  match hitObjects g !! i with
  | None => g
  | Some slider =>
      let bonus := Obj.tracking slider && negb (Obj.trackingBroken slider) in
      let g := updateObject
                 (fun o => if bonus then Obj.setEndHit true (Obj.setState HIT_300 o)
                           else Obj.setState HIT_300 o) i g in
      let s := stats g in
      let score := if bonus then (Stats.score s + 30)%Z else Stats.score s in
      let hitValue := sliderHitValue slider in
      let health :=
        if (0 <? hitValue)%Z then Qmin 100 (Stats.health s + inject_Z hitValue / 50)
        else Qmax 0 (Stats.health s - 5) in
      removeActiveObject i
        (setStats
           (Stats.mk score
              (if (hitValue =? 0)%Z then 0%Z else Stats.combo s)
              (Stats.maxCombo s)
              (if (hitValue =? 300)%Z then (Stats.hit300 s + 1)%Z else Stats.hit300 s)
              (if (hitValue =? 100)%Z then (Stats.hit100 s + 1)%Z else Stats.hit100 s)
              (if (hitValue =? 50)%Z then (Stats.hit50 s + 1)%Z else Stats.hit50 s)
              (if (hitValue =? 0)%Z then (Stats.misses s + 1)%Z else Stats.misses s)
              health (Stats.failed s)) g)
  end.

(** [Math.hypot(dx, dy) <= r], decided on the squares. *)
Definition hypotLe (dx dy r : Q) : bool :=
  Qle_bool 0 r && Qle_bool (dx * dx + dy * dy) (r * r).

(** The quality that [processHitAtPosition] determines from the absolute
    offset of the input. *)
Definition hitQuality (windows : OsuParser.hitWindows) (absOffset : Q) : Z :=
  if Qle_bool absOffset (OsuParser.hit300 windows) then 300%Z
  else if Qle_bool absOffset (OsuParser.hit100 windows) then 100%Z
  else 50%Z.

(** The loop of [processHitAtPosition] over [activeObjects], from oldest to
    newest; it returns at the first object that takes the input. *)
Fixpoint processHitLoop (osuPos : Point.t) (currentTime : Q)
  (windows : OsuParser.hitWindows) (circleRadius : Q) (active : list nat)
  (g : game) : game :=
  match active with
  | [] => g
  | i :: rest =>
      let next := processHitLoop osuPos currentTime windows circleRadius rest g in
      match hitObjects g !! i with
      | None => next
      | Some obj =>
          if negb (HitState_eqb (Obj.state obj) ACTIVE) then next
          else
            let hitOffset := currentTime - inject_Z (Obj.time obj) in
            if Qgtb (Qabs hitOffset) (OsuParser.hit50 windows) then next
            else if hypotLe (Point.x osuPos - inject_Z (Obj.x obj))
                            (Point.y osuPos - inject_Z (Obj.y obj))
                            (circleRadius * 1.2)
            then
              let absOffset := Qabs hitOffset in
              let hitValue := hitQuality windows absOffset in
              match Obj.type obj with
              | OsuParser.slider => startSlider i hitValue g
              | OsuParser.circle =>
                  let st := if (hitValue =? 300)%Z then HIT_300
                            else if (hitValue =? 100)%Z then HIT_100 else HIT_50 in
                  processHit i hitValue (updateObject (Obj.setState st) i g)
              end
            else next
      end
  end.

(** [processHitAtPosition], for an input at the point [osuPos] of the
    playfield when the audio is at [currentTime] ms. *)
Definition processHitAtPosition (osuPos : Point.t) (currentTime : Q) (g : game)
  : game :=
  let windows := OsuParser.getHitWindows (OsuParser.overallDifficulty (difficulty g)) in
  let circleRadius := OsuParser.getCircleRadius (OsuParser.circleSize (difficulty g)) in
  processHitLoop osuPos currentTime windows circleRadius (activeObjects g) g.

(** The remainder [a % b] of numbers, of the sign of [a]. *)
Definition remainder (a b : Q) : Q :=
  let q := a / b in
  a - b * inject_Z (if Qltb q 0 then Qceiling q else Qfloor q).

(** [getPassedSliderTicks]; a slider with a positive [tickSpacing] has,
    as [loadBeatmap] computes them, a positive [slideDuration]. *)
Definition getPassedSliderTicks (slider : Obj.t) (elapsed : Q) : Z :=
  if (Obj.ticksPerSlide slider <=? 0)%Z || Qle_bool (Obj.tickSpacing slider) 0 then 0%Z
  else
    let clampedElapsed := Qmax 0 (Qmin elapsed (Obj.totalDuration slider)) in
    let completedSlides :=
      Z.min (Obj.slides slider) (Qfloor (clampedElapsed / Obj.slideDuration slider)) in
    let passed := (completedSlides * Obj.ticksPerSlide slider)%Z in
    let passed :=
      if (completedSlides <? Obj.slides slider)%Z then
        let elapsedInSlide :=
          clampedElapsed - inject_Z completedSlides * Obj.slideDuration slider in
        let inSlideTicks :=
          Z.min (Obj.ticksPerSlide slider)
                (Qfloor (elapsedInSlide / Obj.tickSpacing slider)) in
        (passed + inSlideTicks)%Z
      else passed in
    Z.min (Obj.totalTicks slider) passed.

(** [getSliderBallPosition]; [None] when the slide lasts 0 ms and the curve
    has two points or more: the source then reads a point at the index NaN
    and throws. *)
Definition getSliderBallPosition (slider : Obj.t) (elapsed : Q) : option Point.t :=
  let points := Obj.curvePoints slider in
  if (List.length points <? 2)%nat
  then Some (Point.mk (inject_Z (Obj.x slider)) (inject_Z (Obj.y slider)))
  else if Qeq_bool (Obj.slideDuration slider) 0 then None
  else
    let slideProgress :=
      remainder elapsed (Obj.slideDuration slider) / Obj.slideDuration slider in
    let currentSlide := Qfloor (elapsed / Obj.slideDuration slider) in
    let isReverse := (Z.rem currentSlide 2 =? 1)%Z in
    let curveProgress := if isReverse then 1 - slideProgress else slideProgress in
    let curveProgress := Qmax 0 (Qmin 1 curveProgress) in
    let totalLength := (Z.of_nat (List.length points) - 1)%Z in
    let exactIndex := curveProgress * inject_Z totalLength in
    let index := Qfloor exactIndex in
    let t := exactIndex - inject_Z index in
    if (totalLength <=? index)%Z then points !! (List.length points - 1)%nat
    else
      p1 ← points !! Z.to_nat index;
      p2 ← points !! Z.to_nat (index + 1);
      Some (OsuParser.interpolate p1 p2 t).

(** The three steps of the body of the loop of [updateSliders]: the loss of
    tracking, the award of [newTicks] ticks, and the whole body for the
    object at position [i]. *)
Definition breakTracking (i : nat) (g : game) : game :=
  let g := updateObject (Obj.setTracking false true) i g in
  let s := stats g in
  setStats (Stats.mk (Stats.score s) 0 (Stats.maxCombo s)
              (Stats.hit300 s) (Stats.hit100 s) (Stats.hit50 s) (Stats.misses s)
              (Stats.health s) (Stats.failed s)) g.

Definition awardTicks (i : nat) (newTicks : Z) (g : game) : game :=
  let g := updateObject (fun o => Obj.setTicksHit (Obj.ticksHit o + newTicks)%Z o) i g in
  let s := stats g in
  let combo := (Stats.combo s + newTicks)%Z in
  setStats (Stats.mk (Stats.score s + 10 * newTicks)%Z combo
              (Z.max (Stats.maxCombo s) combo)
              (Stats.hit300 s) (Stats.hit100 s) (Stats.hit50 s) (Stats.misses s)
              (Qmin 100 (Stats.health s + inject_Z newTicks)) (Stats.failed s)) g.

Definition updateSlider (currentTime : Q) (osuPos : Point.t) (holding : bool)
  (followRadius : Q) (i : nat) (g : game) : option game :=
  match hitObjects g !! i with
  | None => Some g
  | Some obj =>
      if negb (HitState_eqb (Obj.state obj) SLIDING) then Some g
      else
        let elapsed := currentTime - inject_Z (Obj.time obj) in
        let clampedElapsed := Qmax 0 (Qmin elapsed (Obj.totalDuration obj)) in
        ballPos ← getSliderBallPosition obj clampedElapsed;
        let g := updateObject (Obj.setCurrentBall ballPos) i g in
        let lost :=
          Obj.tracking obj && negb (Obj.trackingBroken obj)
          && (negb holding
              || negb (hypotLe (Point.x osuPos - Point.x ballPos)
                               (Point.y osuPos - Point.y ballPos) followRadius)) in
        let g := if lost then breakTracking i g else g in
        let tracking := if lost then false else Obj.tracking obj in
        let trackingBroken := if lost then true else Obj.trackingBroken obj in
        let g :=
          if tracking && negb trackingBroken && (0 <? Obj.totalTicks obj)%Z then
            let passedTicks := getPassedSliderTicks obj clampedElapsed in
            let newTicks :=
              Z.max 0 (Z.min (Obj.totalTicks obj) passedTicks - Obj.ticksHit obj) in
            if (0 <? newTicks)%Z then awardTicks i newTicks g else g
          else g in
        Some (if Qgeb elapsed (Obj.totalDuration obj) then completeSlider i g else g)
  end.

(** The loop of [updateSliders], [i] from [n - 1] down to 0. *)
Fixpoint updateSlidersFrom (n : nat) (currentTime : Q) (osuPos : Point.t)
  (holding : bool) (followRadius : Q) (g : game) : option game :=
  match n with
  | O => Some g
  | S i =>
      g' ← match activeObjects g !! i with
           | None => Some g
           | Some o => updateSlider currentTime osuPos holding followRadius o g
           end;
      updateSlidersFrom i currentTime osuPos holding followRadius g'
  end.

Definition updateSliders (currentTime : Q) (osuPos : Point.t) (holding : bool)
  (circleRadius : Q) (g : game) : option game :=
  let followRadius := circleRadius * 2.4 in
  updateSlidersFrom (List.length (activeObjects g)) currentTime osuPos holding
    followRadius g.

(** The loop of [update] that activates the objects; it runs at most once
    for each object, [n] counts the rounds left. *)
Fixpoint activateObjects (n : nat) (currentTime approachTime : Q) (g : game) : game :=
  match n with
  | O => g
  | S n' =>
      match hitObjects g !! nextObjectIndex g with
      | None => g
      | Some obj =>
          if negb (HitState_eqb (Obj.state obj) PENDING) then
            activateObjects n' currentTime approachTime
              (setNextObjectIndex (S (nextObjectIndex g)) g)
          else if Qle_bool (inject_Z (Obj.time obj) - currentTime) approachTime then
            let i := nextObjectIndex g in
            activateObjects n' currentTime approachTime
              (setNextObjectIndex (S i)
                 (setActiveObjects (activeObjects g ++ [i])
                    (updateObject (Obj.setState ACTIVE) i g)))
          else g
      end
  end.

(** The loop of [update] that looks for misses, [i] from [n - 1] down to 0. *)
Fixpoint checkMisses (n : nat) (currentTime : Q) (hitWindows : OsuParser.hitWindows)
  (g : game) : game :=
  match n with
  | O => g
  | S i =>
      let g' :=
        match activeObjects g !! i with
        | None => g
        | Some o =>
            match hitObjects g !! o with
            | None => g
            | Some obj =>
                if HitState_eqb (Obj.state obj) ACTIVE then
                  match Obj.type obj with
                  | OsuParser.slider =>
                      if Qgtb currentTime (inject_Z (Obj.time obj) + OsuParser.hit50 hitWindows)
                      then processSliderMiss o g else g
                  | OsuParser.circle =>
                      if Qgtb currentTime (inject_Z (Obj.time obj) + OsuParser.hit50 hitWindows)
                      then processMiss o g else g
                  end
                else g
            end
        end in
      checkMisses i currentTime hitWindows g'
  end.

(** [update], for a frame at which the audio is at [currentTime] ms, the
    cursor at the point [osuPos] of the playfield and [holding] tells
    whether a button or a key is down.  The feedback marks and the timer of
    the end of the song belong to the display and are left out;
    [showResults] is the move to the state [RESULTS]. *)
Definition update (currentTime : Q) (osuPos : Point.t) (holding : bool) (g : game)
  : option game :=
  let approachTime := OsuParser.getApproachTime (OsuParser.approachRate (difficulty g)) in
  let hitWindows := OsuParser.getHitWindows (OsuParser.overallDifficulty (difficulty g)) in
  let circleRadius := OsuParser.getCircleRadius (OsuParser.circleSize (difficulty g)) in
  let g := activateObjects (List.length (hitObjects g)) currentTime approachTime g in
  let g := checkMisses (List.length (activeObjects g)) currentTime hitWindows g in
  g ← updateSliders currentTime osuPos holding circleRadius g;
  let s := stats g in
  if Qle_bool (Stats.health s) 0 && negb (Stats.failed s) then
    Some (setCurrentState RESULTS
            (setStats (Stats.mk (Stats.score s) (Stats.combo s) (Stats.maxCombo s)
                         (Stats.hit300 s) (Stats.hit100 s) (Stats.hit50 s)
                         (Stats.misses s) (Stats.health s) true) g))
  else Some g.

(** What reaches the game while it is shown: a frame of [gameLoop], or a
    click, touch or key press. *)
Inductive event :=
  | Frame (currentTime : Q) (osuPos : Point.t) (holding : bool)
  | Press (currentTime : Q) (osuPos : Point.t).

(** [gameLoop] and [handleClick], [handleTouch], [handleKeydown]: they act
    in the state [PLAYING] only. *)
Definition handleEvent (e : event) (g : game) : option game :=
  match currentState g with
  | PLAYING =>
      match e with
      | Frame currentTime osuPos holding => update currentTime osuPos holding g
      | Press currentTime osuPos => Some (processHitAtPosition osuPos currentTime g)
      end
  | _ => Some g
  end.

Fixpoint handleEvents (events : list event) (g : game) : option game :=
  match events with
  | [] => Some g
  | e :: rest => g' ← handleEvent e g; handleEvents rest g'
  end.

(** [startCountdown] followed by [startPlaying]: the reset of a session. *)
Definition startCountdown (g : game) : game :=
  mkGame PLAYING (difficulty g) (timingPoints g)
         (map (Obj.setState PENDING) (hitObjects g)) [] 0 createEmptyStats.

(** [calculateAccuracy] and [calculateGrade] *)
Definition calculateAccuracy (s : Stats.t) : Q :=
  let total := (Stats.hit300 s + Stats.hit100 s + Stats.hit50 s + Stats.misses s)%Z in
  if (total =? 0)%Z then 100
  else
    let weighted := (Stats.hit300 s * 300 + Stats.hit100 s * 100 + Stats.hit50 s * 50)%Z in
    (inject_Z weighted / inject_Z (total * 300)) * 100.

Definition calculateGrade (s : Stats.t) : string :=
  let total := (Stats.hit300 s + Stats.hit100 s + Stats.hit50 s + Stats.misses s)%Z in
  if (total =? 0)%Z then "D"
  else
    let accuracy := calculateAccuracy s in
    let ratio300 := inject_Z (Stats.hit300 s) / inject_Z total in
    let ratio50 := inject_Z (Stats.hit50 s) / inject_Z total in
    if Qeq_bool accuracy 100 then "S"
    else if Qgtb ratio300 0.9 && Qltb ratio50 0.01 && (Stats.misses s =? 0)%Z then "S"
    else if (Qgtb ratio300 0.8 && (Stats.misses s =? 0)%Z) || Qgtb ratio300 0.9 then "A"
    else if (Qgtb ratio300 0.7 && (Stats.misses s =? 0)%Z) || Qgtb ratio300 0.8 then "B"
    else if Qgtb ratio300 0.6 then "C"
    else "D".

(** [getBeatLengthAtTime]: the loop, which leaves at the first point whose
    offset is after [time], and the quotient it returns.  The value of an
    inherited point is negative, so that no divisor is zero. *)
Fixpoint beatLengthLoop (timingPoints : list OsuParser.timingPoint) (time : Q)
  (beatLength currentMultiplier : Q) : Q * Q :=
  match timingPoints with
  | [] => (beatLength, currentMultiplier)
  | tp :: rest =>
      if Qgtb (OsuParser.offset tp) time then (beatLength, currentMultiplier)
      else if negb (OsuParser.inherited tp)
           then beatLengthLoop rest time (OsuParser.msPerBeat tp) currentMultiplier
           else beatLengthLoop rest time beatLength (-100 / OsuParser.msPerBeat tp)
  end.

Definition getBeatLengthAtTime (timingPoints : list OsuParser.timingPoint) (time : Q)
  : Q :=
  let '(beatLength, currentMultiplier) := beatLengthLoop timingPoints time 500 1 in
  beatLength / currentMultiplier.

Section LoadBeatmap.

Variable hypot : Q -> Q -> Q.
Variable atan2 : Q -> Q -> Q.
Variable cos : Q -> Q.
Variable sin : Q -> Q.

(** The function that [loadBeatmap] maps over the parsed objects.  The
    code loads an object whose coordinate or time is NaN as any other; the
    objects of the model of the game have integers there, so that the
    result is [None] for such an object, which the model does not cover,
    and the properties of loaded charts are stated for charts without one.
    It is [None] as well when [generateCurve] does not return. *)
Definition loadHitObject (fuel : nat) (difficulty : OsuParser.difficulty)
  (timingPoints : list OsuParser.timingPoint) (obj : OsuParser.HitObject.t)
  : option Obj.t :=
  x ← OsuParser.HitObject.x obj;
  y ← OsuParser.HitObject.y obj;
  time ← OsuParser.HitObject.time obj;
  let slides := OsuParser.HitObject.slides obj in
  let length := OsuParser.HitObject.length obj in
  match OsuParser.HitObject.type obj with
  | OsuParser.circle =>
      Some (Obj.mk x y time OsuParser.circle slides length PENDING
              [] 0 0 0 0 false false 0 0 0 0 false 0 0 0)
  | OsuParser.slider =>
      let beatLength := getBeatLengthAtTime timingPoints (inject_Z time) in
      let sliderMultiplier := OsuParser.sliderMultiplier difficulty in
      curvePoints ←
        OsuParser.generateCurve hypot atan2 cos sin fuel
          (OsuParser.HitObject.curveType obj) (inject_Z x) (inject_Z y)
          (OsuParser.HitObject.controlPoints obj) length 100;
      let slideDuration := OsuParser.getSliderDuration length beatLength sliderMultiplier in
      let totalDuration := slideDuration * inject_Z slides in
      let endPoint :=
        default (Point.mk (inject_Z x) (inject_Z y)) (last curvePoints) in
      let sliderTickRate := orQ (Some (OsuParser.sliderTickRate difficulty)) 1 in
      let beatsPerSlide := length / (sliderMultiplier * 100) in
      let ticksPerSlide := Z.max 0 (Qceiling (beatsPerSlide * sliderTickRate) - 1) in
      let totalTicks := (ticksPerSlide * slides)%Z in
      let tickSpacing :=
        if (0 <? ticksPerSlide)%Z then slideDuration / inject_Z (ticksPerSlide + 1) else 0 in
      Some (Obj.mk x y time OsuParser.slider slides length PENDING
              curvePoints slideDuration totalDuration (Point.x endPoint) (Point.y endPoint)
              false false 0 ticksPerSlide totalTicks tickSpacing false 0 0 0)
  end.

(** [hitObjects.sort((a, b) => a.time - b.time)], which keeps the order of
    objects of equal time. *)
Fixpoint insertByTime (o : Obj.t) (sorted : list Obj.t) : list Obj.t :=
  match sorted with
  | [] => [o]
  | o' :: rest =>
      if (Obj.time o <=? Obj.time o')%Z then o :: sorted
      else o' :: insertByTime o rest
  end.

Definition sortByTime (objects : list Obj.t) : list Obj.t :=
  foldr insertByTime [] objects.

(** [loadBeatmap], from the parsed chart on. *)
Definition loadBeatmap (fuel : nat) (difficulty : OsuParser.difficulty)
  (timingPoints : list OsuParser.timingPoint) (parsed : list OsuParser.HitObject.t)
  : option game :=
  objects ← mapM (loadHitObject fuel difficulty timingPoints) parsed;
  Some (mkGame LOADING difficulty timingPoints (sortByTime objects) [] 0
          createEmptyStats).

End LoadBeatmap.

End OsuGame.

(** For the comparison with the specification: the resolver that applies
    every point whose offset is at most [time], wherever the point stands
    in the list. *)
Module TempoSpec.

Import OsuParser.

Local Open Scope Q_scope.




End TempoSpec.

(** ** Sample charts and sessions *)

Module Samples.

Import OsuParser OsuGame.

Local Open Scope Q_scope.

(** Host functions to run the samples with.  On a horizontal or a vertical
    segment [Math.hypot] has the rational value below; the samples have no
    other segment and no arc, so they never ask for an angle, a cosine or
    a sine.  The numbers of the samples are written as integers, on which
    [parseFloat] and [Number] agree with [parseInt]. *)
Definition axisHypot (dx dy : Q) : Q := Qabs dx + Qabs dy.
Definition noAngle (dy dx : Q) : Q := 0.
Definition noValue (a : Q) : Q := 0.
Definition integer (s : string) : option Q := inject_Z <$> JS.parseIntString s.



(** The difficulty of a chart whose section Difficulty is empty: HP 5,
    CS 4, OD 5, AR 5, slider multiplier 1.4, tick rate 1. *)
Definition defaultDifficulty : OsuParser.difficulty := parseDifficulty integer [].

(** A game with no chart. *)
Definition noGame : game :=
  mkGame SONG_SELECT defaultDifficulty [] [] [] 0 createEmptyStats.

(** The session of a chart with the given lines of hit objects, four
    colours, no timing point and the default difficulty. *)
Definition startSession (lines : list string) : option game :=
  startCountdown
    <$> loadBeatmap axisHypot noAngle noValue noValue 102 defaultDifficulty []
          (parseHitObjects integer integer lines 4).

(** One circle at (256, 192) and 1000 ms. *)
Definition circleGame : game :=
  default noGame (startSession ["256,192,1000,1,0"%string]).

(** One slider of two slides along the line from (0, 0) to (280, 0), at
    0 ms: each slide lasts 1000 ms and has one tick. *)
Definition sliderGame : game :=
  default noGame (startSession ["0,0,0,2,0,L|280:0,2,280"%string]).


(** The session of the circle after the first frame, which makes the
    circle active. *)
Definition activeCircleGame : game :=
  default noGame (handleEvents [Frame 0 (Point.mk 0 0) false] circleGame).

(** A first frame at 0 ms, then a frame at [time] with no input between. *)
Definition noInput (time : Q) : list event :=
  [Frame 0 (Point.mk 0 0) false; Frame time (Point.mk 0 0) false].

(** The head of the slider is hit at its time; the next frame comes at the
    end of the slider, with the pointer held on the ball. *)
Definition heldSlide : list event :=
  [Frame 0 (Point.mk 0 0) false; Press 0 (Point.mk 0 0); Frame 2000 (Point.mk 0 0) true].

(** The same, but the pointer is released before the first tick. *)
Definition releasedSlide : list event :=
  [Frame 0 (Point.mk 0 0) false; Press 0 (Point.mk 0 0); Frame 2000 (Point.mk 0 0) false].

(** The session of the slider after its head was hit and the pointer
    released, at the frame at 400 ms. *)
Definition releasedSliderGame : game :=
  default noGame
    (handleEvents
       [Frame 0 (Point.mk 0 0) false; Press 0 (Point.mk 0 0);
        Frame 400 (Point.mk 0 0) false] sliderGame).

(** The statistics after three 300s and nothing else. *)
Definition threeGreats : Stats.t := Stats.mk 900 3 3 3 0 0 0 100 false.

(** Lines of the section HitObjects: a circle that starts a combo, a
    circle, a spinner, a circle that starts a combo and skips a colour. *)
Definition circleLines : list string :=
  ["256,192,1000,5,0"; "100,100,1500,1,0"; "256,192,2000,12,0"; "300,50,4000,21,0"]%string.

(** A circle that starts a combo, a hold note of the mode mania, whose
    type 128 has none of the bits of a circle, of a slider and of a
    spinner, and a circle. *)
Definition holdNoteLines : list string :=
  ["256,192,1000,5,0"; "64,192,2000,128,0,2500:0:0:0:0:"; "256,192,3000,1,0"]%string.

End Samples.

(** ** The numbering of combos, for the comparison with the specification *)

Module ComboSpec.

Import JS OsuParser.

(** The type of a line of the section HitObjects, as the parser reads it. *)
Definition lineType (line : string) : Z :=
  toInt32 (parseInt (split "," line !! 3%nat)).

(** A line that the parser ignores for its fewer than four fields, or whose
    type has the bit of a circle, of a slider or of a spinner. *)
Definition recognised (line : string) : bool :=
  (List.length (split "," line) <? 4)%nat
  || negb (Z.land (lineType line) 1 =? 0)
  || negb (Z.land (lineType line) 2 =? 0)
  || negb (Z.land (lineType line) 8 =? 0).

(** A line that gives an object: it has four fields or more and its type
    has the bit of a circle or of a slider and not the bit of a spinner. *)
Definition givesObject (line : string) : bool :=
  negb (List.length (split "," line) <? 4)%nat
  && (negb (Z.land (lineType line) 1 =? 0) || negb (Z.land (lineType line) 2 =? 0))
  && (Z.land (lineType line) 8 =? 0).

(** The new-combo flag and the combo skip of a type: bit 2, and bits 4 to 6
    shifted right by 4. *)
Definition newCombo (type : Z) : bool := negb (Z.land type 4 =? 0).

Definition comboSkip (type : Z) : Z := Z.land (Z.shiftr type 4) 7.

(** The object [o] of a line of the type [type] either starts a new combo,
    and has the number 1 and the colour of the object before it advanced by
    1 + comboSkip modulo the size of the palette, or continues the combo of
    the object before it with its number plus 1 and its colour. *)
Definition follows (paletteSize prevNumber prevColor type : Z) (o : HitObject.t)
  : Prop :=
  if newCombo type
  then HitObject.isNewCombo o = true
       /\ HitObject.comboNumber o = 1
       /\ HitObject.comboColorIndex o
          = (prevColor + 1 + comboSkip type) mod paletteSize
  else HitObject.isNewCombo o = false
       /\ HitObject.comboNumber o = prevNumber + 1
       /\ HitObject.comboColorIndex o = prevColor.

(** The objects are those of the lines of the types [types], one of each
    line and in their order, and every object follows the one before it;
    the first follows the number [prevNumber] and the colour [prevColor]. *)
Fixpoint comboChain (paletteSize prevNumber prevColor : Z) (types : list Z)
  (objects : list HitObject.t) : Prop :=
  match types, objects with
  | [], [] => True
  | type :: types', o :: rest =>
      follows paletteSize prevNumber prevColor type o
      /\ comboChain paletteSize (HitObject.comboNumber o) (HitObject.comboColorIndex o)
           types' rest
  | _, _ => False
  end.

(** The types of the lines that give an object. *)
Definition objectTypes (lines : list string) : list Z :=
  lineType <$> List.filter givesObject lines.

End ComboSpec.

(** ** The length of a curve, in exact arithmetic *)

Module CurveSpec.

Section Polyline.

Variable hypot : Q -> Q -> Q.

Local Open Scope Q_scope.

(** The length of the polyline from [prev] through the points [rest]. *)
Fixpoint polylineFrom (prev : Point.t) (rest : list Point.t) : Q :=
  match rest with
  | [] => 0
  | curr :: rest' =>
      hypot (Point.x curr - Point.x prev) (Point.y curr - Point.y prev)
      + polylineFrom curr rest'
  end.

Definition polylineLength (points : list Point.t) : Q :=
  match points with
  | [] => 0
  | p0 :: rest => polylineFrom p0 rest
  end.

End Polyline.

End CurveSpec.

(** ** The curve of a slider before it is trimmed *)

Module CurveParts.

Import OsuParser.

Section Sampled.

Variable hypot : Q -> Q -> Q.
Variable atan2 : Q -> Q -> Q.
Variable cos : Q -> Q.
Variable sin : Q -> Q.

Local Open Scope string_scope.

(** The [switch] of [generateCurve]: the curve of the type of the slider
    through its head and its control points, which [generateCurve] then
    hands to [trimCurveToLength]. *)
Definition sampledCurve (fuel : nat) (curveType : string) (startX startY : Q)
  (controlPoints : list Point.t) (resolution : positive) : option (list Point.t) :=
  let allPoints := Point.mk startX startY :: controlPoints in
  if String.eqb curveType "L" then Some (generateLinearCurve allPoints resolution)
  else if String.eqb curveType "P"
       then Some (generatePerfectCircleCurve hypot atan2 cos sin allPoints resolution)
       else generateBezierCurve fuel allPoints resolution.

End Sampled.

End CurveParts.

(** ** The object that takes an input, for the comparison with the specification *)

Module InputSpec.

Import OsuGame.

Local Open Scope Q_scope.

(** The object at the position [i] of the store is active, the input is
    within its widest hit window, and within 1.2 radii of its place. *)
Definition qualifies (g : game) (osuPos : Point.t) (currentTime : Q) (i : nat) : bool :=
  match hitObjects g !! i with
  | None => false
  | Some obj =>
      HitState_eqb (Obj.state obj) ACTIVE
      && Qle_bool (Qabs (currentTime - inject_Z (Obj.time obj)))
           (OsuParser.hit50
              (OsuParser.getHitWindows (OsuParser.overallDifficulty (difficulty g))))
      && hypotLe (Point.x osuPos - inject_Z (Obj.x obj))
                 (Point.y osuPos - inject_Z (Obj.y obj))
                 (OsuParser.getCircleRadius (OsuParser.circleSize (difficulty g)) * 1.2)
  end.

(** The state of a circle that is hit with the value [hitValue]. *)
Definition hitState (hitValue : Z) : HitState :=
  if (hitValue =? 300)%Z then HIT_300
  else if (hitValue =? 100)%Z then HIT_100 else HIT_50.

End InputSpec.

(** ** The invariant of the combo counters *)

Module Invariants.

Import OsuGame.

(** The combo never exceeds the longest combo, which is not negative. *)
Definition comboInvariant (s : Stats.t) : Prop :=
  0 <= Stats.maxCombo s /\ Stats.combo s <= Stats.maxCombo s.

(** A change of the statistics that keeps the invariant and does not lower
    the longest combo. *)
Definition comboStep (s s' : Stats.t) : Prop :=
  (comboInvariant s -> comboInvariant s') /\ Stats.maxCombo s <= Stats.maxCombo s'.

Definition keepsCombo (f : game -> game) : Prop :=
  forall g : game, comboStep (stats g) (stats (f g)).

(** An object whose ball has a position at every time: its slide does not
    last 0 ms, or its curve has fewer than two points. *)
Definition playable (o : Obj.t) : Prop :=
  (List.length (Obj.curvePoints o) < 2)%nat \/ ~ (Obj.slideDuration o == 0)%Q.

Definition keepsPlayable (f : game -> game) : Prop :=
  forall g : game,
    Forall playable (hitObjects g) -> Forall playable (hitObjects (f g)).

End Invariants.

(** ** The life of an object, as a transition system *)

Module Lifecycle.

Import OsuParser OsuGame.

Local Open Scope Q_scope.

(** An object that was judged: its state is one of the four results. *)
Definition resolved (s : HitState) : bool :=
  match s with
  | HIT_300 | HIT_100 | HIT_50 | MISS => true
  | PENDING | ACTIVE | SLIDING => false
  end.

(** The order in which an object goes through its states. *)
Definition rank (s : HitState) : nat :=
  match s with
  | PENDING => 0
  | ACTIVE => 1
  | SLIDING => 2
  | HIT_300 | HIT_100 | HIT_50 | MISS => 3
  end.

(** The assignment [this.stats.failed = true] of [update], followed by
    [showResults]. *)
Definition markFailed (g : game) : game :=
  let s := stats g in
  setCurrentState RESULTS
    (setStats (Stats.mk (Stats.score s) (Stats.combo s) (Stats.maxCombo s)
                 (Stats.hit300 s) (Stats.hit100 s) (Stats.hit50 s)
                 (Stats.misses s) (Stats.health s) true) g).

(** The writes of [update] and [processHitAtPosition], each with the
    conditions under which the code reaches it: the two branches of the
    activation loop, the hit of a circle and of the head of a slider, the
    two misses, the four writes of the body of [updateSliders], and the
    failure. *)
Definition clampedElapsed (obj : Obj.t) (currentTime : Q) : Q :=
  Qmax 0 (Qmin (currentTime - inject_Z (Obj.time obj)) (Obj.totalDuration obj)).

(** The ticks that [updateSliders] awards to a slider at [currentTime]. *)
Definition newSliderTicks (obj : Obj.t) (currentTime : Q) : Z :=
  Z.max 0 (Z.min (Obj.totalTicks obj)
                 (getPassedSliderTicks obj (clampedElapsed obj currentTime))
           - Obj.ticksHit obj).

Inductive step (currentTime : Q) : game -> game -> Prop :=
  | step_skip (g : game) (obj : Obj.t) :
      currentState g = PLAYING ->
      hitObjects g !! nextObjectIndex g = Some obj ->
      Obj.state obj <> PENDING ->
      step currentTime g (setNextObjectIndex (S (nextObjectIndex g)) g)
  | step_activate (g : game) (obj : Obj.t) :
      currentState g = PLAYING ->
      hitObjects g !! nextObjectIndex g = Some obj ->
      Obj.state obj = PENDING ->
      inject_Z (Obj.time obj) - currentTime
        <= getApproachTime (approachRate (difficulty g)) ->
      step currentTime g
        (setNextObjectIndex (S (nextObjectIndex g))
           (setActiveObjects (activeObjects g ++ [nextObjectIndex g])
              (updateObject (Obj.setState ACTIVE) (nextObjectIndex g) g)))
  | step_hit (g : game) (osuPos : Point.t) (i : nat) (obj : Obj.t) :
      currentState g = PLAYING ->
      i ∈ activeObjects g ->
      hitObjects g !! i = Some obj ->
      InputSpec.qualifies g osuPos currentTime i = true ->
      Obj.type obj = circle ->
      step currentTime g
        (let hitValue :=
           hitQuality (getHitWindows (overallDifficulty (difficulty g)))
             (Qabs (currentTime - inject_Z (Obj.time obj))) in
         processHit i hitValue
           (updateObject (Obj.setState (InputSpec.hitState hitValue)) i g))
  | step_start (g : game) (osuPos : Point.t) (i : nat) (obj : Obj.t) :
      currentState g = PLAYING ->
      i ∈ activeObjects g ->
      hitObjects g !! i = Some obj ->
      InputSpec.qualifies g osuPos currentTime i = true ->
      Obj.type obj = slider ->
      step currentTime g
        (startSlider i
           (hitQuality (getHitWindows (overallDifficulty (difficulty g)))
              (Qabs (currentTime - inject_Z (Obj.time obj)))) g)
  | step_miss (g : game) (i : nat) (obj : Obj.t) :
      currentState g = PLAYING ->
      i ∈ activeObjects g ->
      hitObjects g !! i = Some obj ->
      Obj.state obj = ACTIVE ->
      Obj.type obj = circle ->
      inject_Z (Obj.time obj)
        + hit50 (getHitWindows (overallDifficulty (difficulty g))) < currentTime ->
      step currentTime g (processMiss i g)
  | step_slider_miss (g : game) (i : nat) (obj : Obj.t) :
      currentState g = PLAYING ->
      i ∈ activeObjects g ->
      hitObjects g !! i = Some obj ->
      Obj.state obj = ACTIVE ->
      Obj.type obj = slider ->
      inject_Z (Obj.time obj)
        + hit50 (getHitWindows (overallDifficulty (difficulty g))) < currentTime ->
      step currentTime g (processSliderMiss i g)
  | step_ball (g : game) (i : nat) (obj : Obj.t) (ballPos : Point.t) :
      currentState g = PLAYING ->
      i ∈ activeObjects g ->
      hitObjects g !! i = Some obj ->
      Obj.state obj = SLIDING ->
      getSliderBallPosition obj (clampedElapsed obj currentTime) = Some ballPos ->
      step currentTime g (updateObject (Obj.setCurrentBall ballPos) i g)
  | step_break (g : game) (i : nat) (obj : Obj.t) :
      currentState g = PLAYING ->
      i ∈ activeObjects g ->
      hitObjects g !! i = Some obj ->
      Obj.state obj = SLIDING ->
      Obj.tracking obj = true ->
      Obj.trackingBroken obj = false ->
      step currentTime g (breakTracking i g)
  | step_ticks (g : game) (i : nat) (obj : Obj.t) :
      currentState g = PLAYING ->
      i ∈ activeObjects g ->
      hitObjects g !! i = Some obj ->
      Obj.state obj = SLIDING ->
      Obj.tracking obj = true ->
      Obj.trackingBroken obj = false ->
      (0 < newSliderTicks obj currentTime)%Z ->
      step currentTime g (awardTicks i (newSliderTicks obj currentTime) g)
  | step_complete (g : game) (i : nat) (obj : Obj.t) :
      currentState g = PLAYING ->
      i ∈ activeObjects g ->
      hitObjects g !! i = Some obj ->
      Obj.state obj = SLIDING ->
      Obj.totalDuration obj <= currentTime - inject_Z (Obj.time obj) ->
      step currentTime g (completeSlider i g)
  | step_fail (g : game) :
      currentState g = PLAYING ->
      Stats.health (stats g) <= 0 ->
      Stats.failed (stats g) = false ->
      step currentTime g (markFailed g).

(** The time of an event. *)
Definition eventTime (e : event) : Q :=
  match e with
  | Frame currentTime _ _ => currentTime
  | Press currentTime _ => currentTime
  end.

(** A write at some time. *)
Definition moves (g g' : game) : Prop := exists currentTime : Q, step currentTime g g'.

(** The number of judgements that the statistics record, and the number of
    objects of the store that were judged. *)
Definition judged (s : Stats.t) : Z :=
  (Stats.hit300 s + Stats.hit100 s + Stats.hit50 s + Stats.misses s)%Z.

Definition isResolved (o : Obj.t) : nat :=
  if resolved (Obj.state o) then 1%nat else 0%nat.

Fixpoint resolvedCount (objects : list Obj.t) : nat :=
  match objects with
  | [] => 0%nat
  | o :: rest => (isResolved o + resolvedCount rest)%nat
  end.

(** What [loadBeatmap] computes for an object and nothing writes again. *)
Definition geometry (o : Obj.t) :=
  (Obj.x o, Obj.y o, Obj.time o, Obj.type o, Obj.slides o, Obj.length o,
   Obj.curvePoints o, Obj.slideDuration o, Obj.totalDuration o,
   Obj.endX o, Obj.endY o, Obj.ticksPerSlide o, Obj.totalTicks o, Obj.tickSpacing o).

(** The object [o'] is a later version of the object [o]: the same
    geometry, a state that is not earlier, the same object when [o] was
    judged, and ticks that do not decrease and do not go beyond the total. *)
Definition advances (o o' : Obj.t) : Prop :=
  geometry o' = geometry o
  /\ (rank (Obj.state o) <= rank (Obj.state o'))%nat
  /\ (resolved (Obj.state o) = true -> o' = o)
  /\ (Obj.ticksHit o <= Obj.ticksHit o')%Z
  /\ ((Obj.ticksHit o <= Obj.totalTicks o)%Z ->
      (Obj.ticksHit o' <= Obj.totalTicks o')%Z).

(** The place of the object at the position [i] of the store: before the
    cursor of the activation when it waits, in [activeObjects] when it is
    active or slides, behind the cursor and out of [activeObjects] when it
    was judged. *)
Definition placed (active : list nat) (cursor i : nat) (o : Obj.t) : Prop :=
  match Obj.state o with
  | PENDING => (cursor <= i)%nat
  | ACTIVE | SLIDING => i ∈ active
  | HIT_300 | HIT_100 | HIT_50 | MISS => (i < cursor)%nat /\ i ∉ active
  end.

(** [activeObjects] holds positions in increasing order, all behind the
    cursor, which is within the store, and every object is at its place. *)
Definition wellFormed (g : game) : Prop :=
  StronglySorted lt (activeObjects g)
  /\ (forall i : nat, i ∈ activeObjects g -> (i < nextObjectIndex g)%nat)
  /\ (nextObjectIndex g <= List.length (hitObjects g))%nat
  /\ (forall (i : nat) (o : Obj.t),
         hitObjects g !! i = Some o ->
         placed (activeObjects g) (nextObjectIndex g) i o).

(** What [calculateGrade] and the failure read at the end of an event: the
    game is being played, not failed and with some health left, or it
    failed, shows the results and has no health left. *)
Definition alive (g : game) : Prop :=
  currentState g = PLAYING /\ Stats.failed (stats g) = false
  /\ 0 < Stats.health (stats g).

Definition lost (g : game) : Prop :=
  currentState g = RESULTS /\ Stats.failed (stats g) = true
  /\ Stats.health (stats g) == 0.

(** The judgement of the object [o], which became [o'] at [currentTime],
    agrees with its timing: a miss after the widest window, a circle hit
    within the window with the quality of its offset, a slider at or after
    its end. *)
Definition verdict (windows : hitWindows) (currentTime : Q) (o o' : Obj.t) : Prop :=
  (Obj.state o' = MISS
   /\ inject_Z (Obj.time o) + hit50 windows < currentTime)
  \/ (Obj.type o = circle
      /\ Qabs (currentTime - inject_Z (Obj.time o)) <= hit50 windows
      /\ Obj.state o'
         = InputSpec.hitState
             (hitQuality windows (Qabs (currentTime - inject_Z (Obj.time o)))))
  \/ (Obj.type o = slider
      /\ Obj.state o' = HIT_300
      /\ Obj.totalDuration o <= currentTime - inject_Z (Obj.time o)).

(** The health is within its range. *)
Definition healthy (g : game) : Prop :=
  0 <= Stats.health (stats g) <= 100.

(** The statistics record one judgement for each judged object. *)
Definition counted (g : game) : Prop :=
  judged (stats g) = Z.of_nat (resolvedCount (hitObjects g)).

(** The loops of [update] leave the state of the game and its difficulty
    as they are. *)
Definition sameSetting (g g' : game) : Prop :=
  currentState g' = currentState g /\ difficulty g' = difficulty g.

(** The game is played and not failed, or it failed, shows the results
    and has no health. *)
Definition running (g : game) : Prop :=
  (currentState g = PLAYING /\ Stats.failed (stats g) = false)
  \/ (currentState g = RESULTS /\ Stats.failed (stats g) = true
      /\ Stats.health (stats g) <= 0).

(** The object at the position [i] of the store, when it was not judged at
    the start [o] of the event and is judged now, has a verdict of the
    time of the event; a circle does not slide. *)
Definition sound (windows : hitWindows) (currentTime : Q) (i : nat) (o : Obj.t)
  (g : game) : Prop :=
  getHitWindows (overallDifficulty (difficulty g)) = windows
  /\ exists o1 : Obj.t,
       hitObjects g !! i = Some o1
       /\ geometry o1 = geometry o
       /\ (Obj.type o = circle -> Obj.state o1 <> SLIDING)
       /\ (resolved (Obj.state o1) = true -> verdict windows currentTime o o1).

(** The objects of the store are in the order of their times. *)
Definition inTimeOrder (objects : list Obj.t) : Prop :=
  forall (i j : nat) (a b : Obj.t),
    (i <= j)%nat -> objects !! i = Some a -> objects !! j = Some b ->
    (Obj.time a <= Obj.time b)%Z.

(** The combo is not negative, nor is the multiplier of the difficulty,
    and the score is at least [low]. *)
Definition scoring (low : Z) (g : game) : Prop :=
  (0 <= Stats.combo (stats g))%Z
  /\ (0 <= getDifficultyMultiplier g)%Z
  /\ (low <= Stats.score (stats g))%Z.

(** The slider at the position [k] of the store lost its tracking with
    [ticks] ticks: it slides or was judged. *)
Definition dropped (k : nat) (ticks : Z) (g : game) : Prop :=
  exists o : Obj.t,
    hitObjects g !! k = Some o
    /\ Obj.trackingBroken o = true
    /\ Obj.ticksHit o = ticks
    /\ (Obj.state o = SLIDING \/ resolved (Obj.state o) = true).

End Lifecycle.

(** Sessions to run the properties of the life cycle on. *)
Module SessionSamples.

Import OsuGame.

Local Open Scope Q_scope.

(** Thirteen circles at 1000 ms, which nobody hits. *)
Definition thirteenCircles : game :=
  default Samples.noGame
    (Samples.startSession (replicate 13 "256,192,1000,1,0"%string)).

(** The press that hits the circle of [Samples.circleGame] 50 ms late. *)
Definition latePress : event := Press 1050 (Point.mk 256 192).

(** The session of the thirteen circles after a frame at 5000 ms. *)
Definition missedSession : game :=
  default Samples.noGame
    (handleEvents (Samples.noInput 5000) (startCountdown thirteenCircles)).

(** The session of the slider of [Samples.sliderGame], held to its end. *)
Definition heldSession : game :=
  default Samples.noGame
    (handleEvents Samples.heldSlide (startCountdown Samples.sliderGame)).

(** The session of the thirteen circles after its first frame. *)
Definition activeSession : game :=
  default Samples.noGame
    (handleEvents [Frame 0 (Point.mk 0 0) false] (startCountdown thirteenCircles)).

(** The circle of [Samples.circleGame] once it is active, and the game
    after the late press. *)
Definition activeCircle : Obj.t :=
  default (Obj.mk 0 0 0 OsuParser.circle 1 0 PENDING [] 0 0 0 0 false false 0 0 0 0
             false 0 0 0)
    (hitObjects Samples.activeCircleGame !! 0%nat).

Definition pressedCircleGame : game :=
  default Samples.noGame (handleEvent latePress Samples.activeCircleGame).

(** The session of the circle of [Samples.circleGame] after a frame at
    [time], and its circle then. *)
Definition circleFrame (time : Q) : game :=
  default Samples.noGame
    (update time (Point.mk 0 0) false (startCountdown Samples.circleGame)).

Definition circleAt (time : Q) : Obj.t :=
  default (Obj.mk 0 0 0 OsuParser.circle 1 0 PENDING [] 0 0 0 0 false false 0 0 0 0
             false 0 0 0)
    (hitObjects (circleFrame time) !! 0%nat).

(** The slider of [Samples.releasedSliderGame], whose tracking broke, and
    the session after a last frame with the pointer held again. *)
Definition releasedSlider : Obj.t :=
  default (Obj.mk 0 0 0 OsuParser.circle 1 0 PENDING [] 0 0 0 0 false false 0 0 0 0
             false 0 0 0)
    (hitObjects Samples.releasedSliderGame !! 0%nat).

Definition releasedThenHeld : game :=
  default Samples.noGame
    (handleEvents [Frame 2000 (Point.mk 0 0) true] Samples.releasedSliderGame).

(** The slider of [Samples.sliderGame]. *)
Definition sliderObject : Obj.t :=
  default (Obj.mk 0 0 0 OsuParser.circle 1 0 PENDING [] 0 0 0 0 false false 0 0 0 0
             false 0 0 0)
    (hitObjects Samples.sliderGame !! 0%nat).

End SessionSamples.

(** ** Distances, for the properties of the curves *)

Module Distance.

Local Open Scope Q_scope.

(** The square of the distance of two points. *)
Definition squared (p c : Point.t) : Q :=
  (Point.x p - Point.x c) * (Point.x p - Point.x c)
  + (Point.y p - Point.y c) * (Point.y p - Point.y c).

(** Twice the area of the triangle of three points, with its sign. *)
Definition cross (p1 p2 p3 : Point.t) : Q :=
  (Point.x p2 - Point.x p1) * (Point.y p3 - Point.y p1)
  - (Point.y p2 - Point.y p1) * (Point.x p3 - Point.x p1).

(** Two points with the same coordinates. *)
Definition same (p q : Point.t) : Prop :=
  Point.x p == Point.x q /\ Point.y p == Point.y q.

End Distance.

(** Points and curves to run the properties of the geometry on. *)
Module GeometrySamples.

Import OsuParser.

Local Open Scope Q_scope.

(** Three points of the circle of radius 1 around (1, 0), and its centre
    as [getCircleCenter] computes it. *)
Definition onCircle : list Point.t := [Point.mk 0 0; Point.mk 1 1; Point.mk 2 0].

Definition centre : Point.t :=
  default (Point.mk 0 0)
    (getCircleCenter (Point.mk 0 0) (Point.mk 1 1) (Point.mk 2 0)).

(** The polyline from (0, 0) over (10, 0) to (10, 10), of length 20. *)
Definition corner : list Point.t := [Point.mk 0 0; Point.mk 10 0; Point.mk 10 10].


(** A Bezier slider from (0, 0) with a corner at (10, 0), of two segments,
    trimmed to the length 15, at the resolution 10. *)
Definition bezier : list Point.t :=
  default []
    (generateCurve Samples.axisHypot Samples.noAngle Samples.noValue Samples.noValue
       12 "B" 0 0 [Point.mk 10 0; Point.mk 10 0; Point.mk 10 10] 15 10).

End GeometrySamples.

(** ** The timing points of a chart, as the parser returns them *)

Module TimingLines.

Import JS OsuParser.

(** A timing point of the array that [parseTimingPoints] returns; [None]
    is NaN.  The fields [bpm] and [meter], which the game never reads, are
    left out, as they are in [timingPoint]. *)
Record t := mk {
  offset : option Q;
  msPerBeat : option Q;
  inherited : bool }.

Section Lines.

Variable parseFloat : string -> option Q.

(** [parseTimingPoints]; the comparison [msPerBeat < 0] is false for
    NaN. *)
Fixpoint parseTimingPoints (lines : list string) : list t :=
  match lines with
  | [] => []
  | line :: rest =>
      let parts := split "," line in
      if (2 <=? List.length parts)%nat then
        let offset := parts !! 0%nat ≫= parseFloat in
        let msPerBeat := parts !! 1%nat ≫= parseFloat in
        let inherited :=
          match msPerBeat with
          | Some m => Qltb m 0
          | None => false
          end in
        mk offset msPerBeat inherited :: parseTimingPoints rest
      else parseTimingPoints rest
  end.

End Lines.

(** The timing point as the model of the game has it, when its offset and
    its beat length are numbers. *)
Definition numeric (p : t) : option timingPoint :=
  o ← offset p;
  m ← msPerBeat p;
  Some (mkTimingPoint o m (inherited p)).

End TimingLines.

(** ** Objects whose numbers are numbers *)

Module Numbers.

Import OsuParser OsuGame.

(** An object of the chart whose [x], [y] and [time] are numbers:
    [parseInt] gave NaN for none of them. *)
Definition numbered (obj : HitObject.t) : Prop :=
  is_Some (HitObject.x obj) /\ is_Some (HitObject.y obj)
  /\ is_Some (HitObject.time obj).

(** The place, the time and the type of an object of the chart, and of an
    object of the store. *)
Definition chartPlace (obj : HitObject.t) : option Z * option Z * option Z * objectType :=
  (HitObject.x obj, HitObject.y obj, HitObject.time obj, HitObject.type obj).

Definition storePlace (o : Obj.t) : option Z * option Z * option Z * objectType :=
  (Some (Obj.x o), Some (Obj.y o), Some (Obj.time o), Obj.type o).

End Numbers.

(** A chart whose objects are not in the order of their times. *)
Module StoreSamples.

Import OsuParser OsuGame.

Definition parsed : list HitObject.t :=
  parseHitObjects Samples.integer Samples.integer
    ["256,192,3000,1,0"; "100,100,1000,1,0"; "0,0,2000,2,0,L|280:0,2,280"]%string 4.

(** The slider of [Samples.sliderGame], as the parser returns it. *)
Definition sliderLine : HitObject.t :=
  default (HitObject.mk None None None circle 0 false 0 0 "" [] 0 0)
    (head (parseHitObjects Samples.integer Samples.integer
             ["0,0,0,2,0,L|280:0,2,280"%string] 4)).

Definition loaded : game :=
  default Samples.noGame
    (loadBeatmap Samples.axisHypot Samples.noAngle Samples.noValue Samples.noValue 102
       Samples.defaultDifficulty [] parsed).

(** The lines of the hit objects of [parsed]. *)
Definition objectLines : list string :=
  ["256,192,3000,1,0"; "100,100,1000,1,0"; "0,0,2000,2,0,L|280:0,2,280"]%string.

(** Two lines of the section TimingPoints: a beat of 500 ms, and from
    1000 ms on twice the velocity. *)
Definition timingLines : list string :=
  ["0,500,4,2,0,60,1,0"; "1000,-50,4,2,0,60,0,0"]%string.

Definition timingPoints : list timingPoint :=
  [mkTimingPoint 0 500 false; mkTimingPoint 1000 (-50) true].

End StoreSamples.

(** ** The sections and the colours of a chart, [delete-beatmap.js] *)

Module Sections.

Import JS.

Local Open Scope string_scope.

(** [line.startsWith(c)] and [line.endsWith(c)] for one character. *)
Definition startsWith (c : ascii) (s : string) : bool :=
  match s with
  | String d _ => Ascii.eqb d c
  | EmptyString => false
  end.

Fixpoint endsWith (c : ascii) (s : string) : bool :=
  match s with
  | EmptyString => false
  | String d EmptyString => Ascii.eqb d c
  | String _ s' => endsWith c s'
  end.

(** [line.startsWith('//')] *)
Definition isComment (s : string) : bool :=
  match s with
  | String "/" (String "/" _) => true
  | _ => false
  end.

(** [line.startsWith('[') && line.endsWith(']')] *)
Definition isHeader (line : string) : bool :=
  startsWith "[" line && endsWith "]" line.

(** [line.slice(1, -1)] *)
Definition sliceInner (line : string) : string :=
  substring 1 (String.length line - 2) line.

(** [line && !line.startsWith('//')] *)
Definition isContent (line : string) : bool :=
  negb (String.eqb line "") && negb (isComment line).

(** The loop of [splitIntoSections]; [None] is the [null] that
    [currentSection] holds before the first header.  The object [sections]
    is read at the names of the six sections only, none of which it
    inherits. *)
Fixpoint splitLoop (lines : list string) (sections : gmap string (list string))
  (currentSection : option string) : gmap string (list string) :=
  match lines with
  | [] => sections
  | line :: rest =>
      if isHeader line then
        let name := sliceInner line in
        splitLoop rest (<[name := []]> sections) (Some name)
      else
        match currentSection with
        | Some name =>
            if negb (String.eqb name "") && isContent line
            then splitLoop rest (alter (fun l => (l ++ [line])%list) name sections)
                   currentSection
            else splitLoop rest sections currentSection
        | None => splitLoop rest sections currentSection
        end
  end.

Definition splitIntoSections (lines : list string) : gmap string (list string) :=
  splitLoop lines ∅ None.

(** [sections[name] || []] *)
Definition section (sections : gmap string (list string)) (name : string)
  : list string :=
  default [] (sections !! name).

End Sections.

Module Colours.

Import JS.

Local Open Scope string_scope.

Record colour := mkColour { r : Z; g : Z; b : Z }.

(** [\d] *)
Definition isDigit (c : ascii) : bool :=
  let n := N_of_ascii c in ((48 <=? n) && (n <=? 57))%N.

(** The longest run of digits at the start of [s], and what follows it. *)
Fixpoint spanDigits (s : string) : string * string :=
  match s with
  | EmptyString => (EmptyString, EmptyString)
  | String c s' =>
      if isDigit c then
        let '(digits, rest) := spanDigits s' in (String c digits, rest)
      else (EmptyString, s)
  end.

(** [(\d+)] at the start of [s]: the digits and the rest. *)
Definition digits (s : string) : option (string * string) :=
  let '(run, rest) := spanDigits s in
  if String.eqb run "" then None else Some (run, rest).

(** One character at the start of [s], after [\s*]. *)
Definition spacesThen (c : ascii) (s : string) : option string :=
  match trimStart s with
  | String d rest => if Ascii.eqb d c then Some rest else None
  | EmptyString => None
  end.

(** The word [Combo] at the start of [s]. *)
Definition combo (s : string) : option string :=
  match s with
  | String "C" (String "o" (String "m" (String "b" (String "o" rest)))) => Some rest
  | _ => None
  end.

(** The regular expression
    [/Combo(\d+)\s*:\s*(\d+)\s*,\s*(\d+)\s*,\s*(\d+)/] at the start of [s]:
    the groups 2, 3 and 4.  A run of digits or of white space is followed
    by a character of another class, so that the longest run is the only
    one that can match. *)
Definition matchComboAt (s : string) : option (string * string * string) :=
  s ← combo s;
  '(_, s) ← digits s;
  s ← spacesThen ":" s;
  '(red, s) ← digits (trimStart s);
  s ← spacesThen "," s;
  '(green, s) ← digits (trimStart s);
  s ← spacesThen "," s;
  '(blue, _) ← digits (trimStart s);
  Some (red, green, blue).

(** [line.match(...)]: the match that starts first. *)
Fixpoint matchCombo (s : string) : option (string * string * string) :=
  match matchComboAt s with
  | Some groups => Some groups
  | None =>
      match s with
      | EmptyString => None
      | String _ s' => matchCombo s'
      end
  end.

(** [parseInt] of a run of digits, which is never NaN. *)
Definition number (run : string) : Z := default 0 (parseIntString run).

Definition defaultColours : list colour :=
  [mkColour 255 192 0; mkColour 0 202 0; mkColour 18 124 255; mkColour 242 24 57].

(** [parseColours] *)
Definition parseColours (lines : list string) : list colour :=
  let colours :=
    omap (fun line =>
            '(red, green, blue) ← matchCombo line;
            Some (mkColour (number red) (number green) (number blue))) lines in
  if (List.length colours =? 0)%nat then defaultColours else colours.

(** [DEFAULT_COMBO_COLORS] of [osu-data.js] *)
Definition DEFAULT_COMBO_COLORS : list colour :=
  [mkColour 159 64 255; mkColour 255 255 64; mkColour 255 64 159; mkColour 255 159 64].

(** [getComboColor] of [osu-data.js], for the colours [this.beatmap.colours]
    and an object of the chart; [None] is [undefined]. *)
Definition getComboColor (colours : list colour) (obj : OsuParser.HitObject.t)
  : option colour :=
  let palette := if (0 <? List.length colours)%nat then colours else DEFAULT_COMBO_COLORS in
  let colorIndex :=
    Z.rem (OsuParser.HitObject.comboColorIndex obj) (Z.of_nat (List.length palette)) in
  if (colorIndex <? 0)%Z then None else palette !! Z.to_nat colorIndex.

End Colours.

(** The playfield on the canvas, [osu-data.js] *)
Module Playfield.

Local Open Scope Q_scope.

(** The fields [playfieldScale], [playfieldOffsetX] and [playfieldOffsetY]
    of the game. *)
Record t := mk { playfieldScale : Q; playfieldOffsetX : Q; playfieldOffsetY : Q }.

Definition OSU_PLAYFIELD_width : Q := 512.
Definition OSU_PLAYFIELD_height : Q := 384.

(** [calculatePlayfieldScale], for a canvas of [gameWidth] by
    [gameHeight]. *)
Definition calculatePlayfieldScale (gameWidth gameHeight : Q) : t :=
  let padding := 50 in
  let availableWidth := gameWidth - padding * 2 in
  let availableHeight := gameHeight - padding * 2 in
  let scaleX := availableWidth / OSU_PLAYFIELD_width in
  let scaleY := availableHeight / OSU_PLAYFIELD_height in
  let playfieldScale := Qmin scaleX scaleY in
  mk playfieldScale
     ((gameWidth - OSU_PLAYFIELD_width * playfieldScale) / 2)
     ((gameHeight - OSU_PLAYFIELD_height * playfieldScale) / 2).

Definition osuToCanvas (f : t) (osuX osuY : Q) : Point.t :=
  Point.mk (osuX * playfieldScale f + playfieldOffsetX f)
           (osuY * playfieldScale f + playfieldOffsetY f).

(** [canvasToOsu]; with a scale of 0 the source returns no number. *)
Definition canvasToOsu (f : t) (canvasX canvasY : Q) : Point.t :=
  Point.mk ((canvasX - playfieldOffsetX f) / playfieldScale f)
           ((canvasY - playfieldOffsetY f) / playfieldScale f).

End Playfield.

(** Lines to run the properties of the parser on. *)
Module ChartSamples.

Import OsuParser Colours.

Local Open Scope string_scope.

Definition colourLines : list string := ["Combo1 : 255,0,0"; "Combo2: 0, 255 ,0"].

(** The objects of [Samples.circleLines] for the two colours above, and
    the last of them. *)
Definition objects : list HitObject.t :=
  parseHitObjects Samples.integer Samples.integer Samples.circleLines
    (Z.of_nat (List.length (parseColours colourLines))).

Definition lastObject : HitObject.t :=
  default (HitObject.mk None None None circle 0 false 0 0 "" [] 0 0) (last objects).

(** A chart with two sections HitObjects; the first is left behind. *)
Definition chart : list string :=
  ["osu file format v14"; "[HitObjects]"; "1,1,1,1,0"; "";
   "[Metadata]"; "Title:a"; "// note"; "[HitObjects]"].

Definition objectLines : list string := ["256,192,1000,1,0"; ""; "// end"; "0,0,2000,1,0"].

End ChartSamples.

(** ** The key of a line of the section Metadata *)

Module MetadataSpec.

Import JS.

(** The key that [parseMetadata] writes for a line, if it writes one. *)
Definition lineKey (line : string) : option string :=
  let colonIndex := indexOf ":" line in
  if -1 <? colonIndex then Some (trim (sliceTo colonIndex line)) else None.

End MetadataSpec.

(** ** The start of a curve *)

Module CurveStart.

Import OsuParser Distance.

(** The segment starts at the point [p0]. *)
Definition startsAt (p0 : Point.t) (segment : list Point.t) : Prop :=
  exists c : Point.t, head segment = Some c /\ same c p0.

End CurveStart.

(** ** The identifier of a chart, [add-beatmap.js] *)

Module AddBeatmap.

Local Open Scope string_scope.

(** [toLowerCase] on a code unit below 256: the letters A to Z and the
    capital letters of Latin-1. *)
Definition toLowerChar (c : ascii) : ascii :=
  let n := N_of_ascii c in
  if ((65 <=? n) && (n <=? 90) || (192 <=? n) && (n <=? 214)
      || (216 <=? n) && (n <=? 222))%N
  then ascii_of_N (n + 32) else c.

Fixpoint toLowerCase (s : string) : string :=
  match s with
  | EmptyString => EmptyString
  | String c s' => String (toLowerChar c) (toLowerCase s')
  end.

(** [[a-z0-9]] *)
Definition isIdChar (c : ascii) : bool :=
  let n := N_of_ascii c in
  ((97 <=? n) && (n <=? 122) || (48 <=? n) && (n <=? 57))%N.

(** [s.replace(/[^a-z0-9]+/g, '-')]; [inRun] tells whether the character
    before was replaced. *)
Fixpoint dashRuns (s : string) (inRun : bool) : string :=
  match s with
  | EmptyString => EmptyString
  | String c s' =>
      if isIdChar c then String c (dashRuns s' false)
      else if inRun then dashRuns s' true
           else String "-" (dashRuns s' true)
  end.

(** [s.replace(/^-|-$/g, '')]: a dash at the start and a dash at the end
    are taken away. *)
Definition stripLeadingDash (s : string) : string :=
  match s with
  | String "-" s' => s'
  | _ => s
  end.

Fixpoint stripTrailingDash (s : string) : string :=
  match s with
  | EmptyString => EmptyString
  | String c EmptyString => if Ascii.eqb c "-" then EmptyString else s
  | String c s' => String c (stripTrailingDash s')
  end.

Definition generateId (str : string) : string :=
  stripTrailingDash (stripLeadingDash (dashRuns (toLowerCase str) false)).

(** A string of the characters a to z, 0 to 9 and single dashes between
    them: no dash at its start, when [afterDash] holds, none at its end and
    no two dashes in a row. *)
Fixpoint idBody (s : string) (afterDash : bool) : bool :=
  match s with
  | EmptyString => true
  | String c s' =>
      if isIdChar c then idBody s' false
      else Ascii.eqb c "-" && negb afterDash && negb (String.eqb s' "")
           && idBody s' true
  end.

Definition isId (s : string) : bool := idBody s true.

(** A string with single dashes only, which may end with a dash. *)
Fixpoint runs (s : string) (afterDash : bool) : bool :=
  match s with
  | EmptyString => true
  | String c s' =>
      if isIdChar c then runs s' false
      else Ascii.eqb c "-" && negb afterDash && runs s' true
  end.

End AddBeatmap.

(** ** The list of song identifiers, [osu-integration.js] *)

Module SongIds.

Import JS.

Local Open Scope string_scope.

(** [[...new Set(ids)]]: every identifier once, at the place where it
    comes first; [seen] holds the identifiers before. *)
Fixpoint unique (ids seen : list string) : list string :=
  match ids with
  | [] => []
  | id :: rest =>
      if bool_decide (id ∈ seen) then unique rest seen
      else id :: unique rest (id :: seen)
  end.

(** The identifiers that [loadSongIds] keeps of the charts of
    [beatmaps.json]; the identifier of a chart is [None] when it is no
    string. *)
Definition songIds (beatmaps : list (option string)) : list string :=
  let nextSongIds :=
    List.filter (fun id => negb (String.eqb id ""))
      (map (fun beatmap => match beatmap with
                           | Some id => trim id
                           | None => ""
                           end) beatmaps) in
  unique nextSongIds [].

End SongIds.

(** ** The registry of charts, [add-beatmap.js] and [delete-beatmap.js] *)

Module Registry.

Import AddBeatmap.

Local Open Scope string_scope.

Record difficulty := mkDifficulty {
  diffId : string;
  name : string;
  file : string;
  stars : Z;
  color : string }.

Record beatmap := mkBeatmap {
  id : string;
  title : string;
  artist : string;
  creator : string;
  basePath : string;
  audioFile : string;
  background : string;
  difficulties : list difficulty }.

Definition withId (newId : string) (b : beatmap) : beatmap :=
  mkBeatmap newId (title b) (artist b) (creator b) (basePath b) (audioFile b)
            (background b) (difficulties b).

(** [Array.prototype.findIndex]; [None] is the index -1. *)
Fixpoint findIndex {A : Type} (p : A -> bool) (l : list A) : option nat :=
  match l with
  | [] => None
  | a :: l' => if p a then Some 0%nat else S <$> findIndex p l'
  end.

(** [/^\d+$/.test(s)] *)
Fixpoint allDigits (s : string) : bool :=
  match s with
  | EmptyString => true
  | String c s' => ((48 <=? N_of_ascii c) && (N_of_ascii c <=? 57))%N && allDigits s'
  end.

Definition isNumber (s : string) : bool :=
  negb (String.eqb s "") && allDigits s.

(** The identifier of a chart in [main]; [setId] is trimmed by the
    caller. *)
Definition beatmapIdOf (artist title creator setId : string) : string :=
  let baseId := generateId (artist ++ "-" ++ title) in
  if isNumber setId && negb (String.eqb setId "0") && negb (String.eqb setId "-1")
  then baseId ++ "-set-" ++ setId
  else baseId ++ "-by-" ++ generateId creator.

(** The end of [main]: the entry of a chart is written over the entry that
    the registry has of it, with the identifier of that entry, or added at
    the end. *)
Definition register (artist title creator setId folderName audioFile background : string)
    (difficulties : list difficulty) (beatmaps : list beatmap) : list beatmap :=
  let beatmapId := beatmapIdOf artist title creator setId in
  let legacyBeatmapId := generateId title in
  let beatmapEntry :=
    mkBeatmap beatmapId title artist creator ("Osu/" ++ folderName ++ "/")
              audioFile background difficulties in
  let existingIndex :=
    findIndex
      (fun b =>
         String.eqb (id b) beatmapId
         || String.eqb (id b) legacyBeatmapId && String.eqb (Registry.title b) title
            && String.eqb (Registry.artist b) artist)
      beatmaps in
  match existingIndex with
  | Some i =>
      match beatmaps !! i with
      | Some existing => <[i := withId (id existing) beatmapEntry]> beatmaps
      | None => beatmaps
      end
  | None => (beatmaps ++ [beatmapEntry])%list
  end.

(** [deleteBeatmap] of [delete-beatmap.js] on the registry; [None] when
    the program exits with an error. *)
Definition deleteBeatmap (beatmapId : string) (beatmaps : list beatmap)
    : option (list beatmap) :=
  match findIndex (fun b => String.eqb (id b) beatmapId) beatmaps with
  | None => None
  | Some index => Some (delete index beatmaps)
  end.

End Registry.

(** ** The spans of a slider that are left, [osu-data.js] *)

Module SliderSpans.

Import OsuGame.

Record repeatState := mkRepeatState {
  turnIndex : Z;
  turnsRemaining : Z }.

Definition elapsedOf (slider : Obj.t) (currentTime : Q) : Q :=
  Qmax 0 (Qmin (currentTime - inject_Z (Obj.time slider)) (Obj.totalDuration slider)).

(** [getSliderRepeatState]; [None] for the slider is [null], and [None]
    as a result is [null]. *)
Definition getSliderRepeatState (slider : option Obj.t) (currentTime : Q)
    : option repeatState :=
  match slider with
  | None => None
  | Some slider =>
      if (Obj.slides slider <=? 1)%Z || Qeq_bool (Obj.slideDuration slider) 0
         || Qeq_bool (Obj.totalDuration slider) 0
      then None
      else
        let elapsed := elapsedOf slider currentTime in
        let turnIndex := Qfloor (elapsed / Obj.slideDuration slider) in
        if (Obj.slides slider - 1 <=? turnIndex)%Z then None
        else Some (mkRepeatState turnIndex (Obj.slides slider - turnIndex - 1))
  end.

(** [getSliderRemainingSpans] *)
Definition getSliderRemainingSpans (slider : option Obj.t) (currentTime : Q) : Z :=
  match slider with
  | None => 1
  | Some slider =>
      if (Obj.slides slider =? 0)%Z || (Obj.slides slider <=? 1)%Z
         || Qeq_bool (Obj.slideDuration slider) 0
         || Qeq_bool (Obj.totalDuration slider) 0
      then 1
      else
        let elapsed := elapsedOf slider currentTime in
        let spanIndex :=
          Z.min (Obj.slides slider - 1) (Qfloor (elapsed / Obj.slideDuration slider)) in
        Z.max 1 (Obj.slides slider - spanIndex)
  end.

End SliderSpans.

Module SpanSamples.

Import OsuGame.

Local Open Scope Q_scope.

(** A slider of three slides of half a second each that starts at one
    second. *)
Definition threeSlides : Obj.t :=
  Obj.mk 100 100 1000 OsuParser.slider 3 140 PENDING [] 500 1500 240 100 false false
         0%Z 0%Z 0%Z 0 false 0%Z 100 100.

End SpanSamples.

Module RegistrySamples.

Import Registry.

Local Open Scope string_scope.

Definition winter : beatmap :=
  mkBeatmap "daniel-ingram-winter-wrap-up-set-43812" "Winter Wrap Up" "Daniel Ingram"
            "Pone" "Osu/Winter/" "audio.mp3" "bg.jpg" [].

Definition legacy : beatmap :=
  mkBeatmap "smile" "Smile" "Pinkie" "Chag" "Osu/Smile/" "smile.mp3" "" [].

Definition registry : list beatmap := [winter; legacy].

End RegistrySamples.

(** * Properties *)

(** ** Comparisons *)

Section Comparisons.

Local Open Scope Q_scope.

Lemma Qltb_lt (a b : Q) : JS.Qltb a b = true <-> a < b.
Proof.
  unfold JS.Qltb. rewrite negb_true_iff.
  destruct (Qle_bool b a) eqn:E.
  - apply Qle_bool_iff in E. split; [discriminate | intros H; exfalso; lra].
  - split; [intros _ | reflexivity].
    destruct (Qlt_le_dec a b) as [H | H]; [exact H |].
    apply Qle_bool_iff in H. congruence.
Qed.

Lemma Qltb_ge (a b : Q) : JS.Qltb a b = false <-> b <= a.
Proof.
  unfold JS.Qltb. rewrite negb_false_iff. apply Qle_bool_iff.
Qed.

Lemma Qgtb_gt (a b : Q) : JS.Qgtb a b = true <-> b < a.
Proof. apply Qltb_lt. Qed.

Lemma Qgtb_le (a b : Q) : JS.Qgtb a b = false <-> a <= b.
Proof. apply Qltb_ge. Qed.

Lemma Qgeb_ge (a b : Q) : JS.Qgeb a b = true <-> b <= a.
Proof. apply Qle_bool_iff. Qed.

Lemma Qle_bool_gt (a b : Q) : Qle_bool a b = false <-> b < a.
Proof.
  rewrite <- Qltb_lt. unfold JS.Qltb. rewrite negb_true_iff. reflexivity.
Qed.

End Comparisons.

(** ** Tempo resolution *)

Section Tempo.

Import OsuParser OsuGame.

Local Open Scope Q_scope.

Implicit Types (tp : timingPoint) (time : Q).







End Tempo.

(** ** Hit windows and the quality of a hit *)

Section HitWindows.

Import OsuParser OsuGame.

Local Open Scope Q_scope.

(** An object that does not qualify is passed over; the first object of
    [activeObjects] that qualifies takes the input, with the quality of its
    absolute offset. *)
Lemma processHitLoop_skip osuPos currentTime (g : game) (j : nat) (active : list nat) :
  InputSpec.qualifies g osuPos currentTime j = false ->
  processHitLoop osuPos currentTime
    (getHitWindows (overallDifficulty (difficulty g)))
    (getCircleRadius (circleSize (difficulty g))) (j :: active) g
  = processHitLoop osuPos currentTime
      (getHitWindows (overallDifficulty (difficulty g)))
      (getCircleRadius (circleSize (difficulty g))) active g.
Proof.
  unfold InputSpec.qualifies. cbn [processHitLoop]. cbv zeta.
  destruct (hitObjects g !! j) as [obj |]; [| reflexivity].
  unfold JS.Qgtb, JS.Qltb.
  destruct (HitState_eqb (Obj.state obj) ACTIVE); [| reflexivity].
  destruct (Qle_bool _ _); [| reflexivity].
  destruct (hypotLe _ _ _); [discriminate | reflexivity].
Qed.

Lemma processHitLoop_take osuPos currentTime (g : game) (i : nat) (active : list nat)
  (obj : Obj.t) :
  hitObjects g !! i = Some obj ->
  InputSpec.qualifies g osuPos currentTime i = true ->
  processHitLoop osuPos currentTime
    (getHitWindows (overallDifficulty (difficulty g)))
    (getCircleRadius (circleSize (difficulty g))) (i :: active) g
  = let hitValue :=
      hitQuality (getHitWindows (overallDifficulty (difficulty g)))
        (Qabs (currentTime - inject_Z (Obj.time obj))) in
    match Obj.type obj with
    | slider => startSlider i hitValue g
    | circle =>
        processHit i hitValue (updateObject (Obj.setState (InputSpec.hitState hitValue)) i g)
    end.
Proof.
  unfold InputSpec.qualifies. intros Hobj. cbn [processHitLoop]. cbv zeta.
  rewrite Hobj. unfold JS.Qgtb, JS.Qltb.
  destruct (HitState_eqb (Obj.state obj) ACTIVE); [| discriminate].
  destruct (Qle_bool _ _); [| discriminate].
  destruct (hypotLe _ _ _); [| discriminate].
  intros _. reflexivity.
Qed.




End HitWindows.

(** ** Accuracy and grade *)

Section Grade.

Import OsuGame.

Local Open Scope Q_scope.

(** C7, as amended.  When at least one object was judged and the accuracy
    is 100, the grade is S; when no object was judged the accuracy is 100
    and the grade is D. *)
Theorem calculateGrade_full_accuracy :
  (forall s : Stats.t,
      (Stats.hit300 s + Stats.hit100 s + Stats.hit50 s + Stats.misses s <> 0)%Z ->
      calculateAccuracy s == 100 -> calculateGrade s = "S"%string)
  /\ (forall s : Stats.t,
         (Stats.hit300 s + Stats.hit100 s + Stats.hit50 s + Stats.misses s = 0)%Z ->
         calculateAccuracy s == 100 /\ calculateGrade s = "D"%string).
Proof.
  split.
  - intros s Htotal Hacc. unfold calculateGrade.
    apply Z.eqb_neq in Htotal. rewrite Htotal.
    apply Qeq_bool_iff in Hacc. rewrite Hacc. reflexivity.
  - intros s Htotal. unfold calculateAccuracy, calculateGrade.
    apply Z.eqb_eq in Htotal. rewrite Htotal. split; reflexivity.
Qed.

Lemma calculateGrade_full_accuracy_witness :
  calculateGrade Samples.threeGreats = "S"%string
  /\ calculateGrade createEmptyStats = "D"%string.
Proof.
  split.
  - apply (proj1 calculateGrade_full_accuracy); [vm_compute; discriminate | reflexivity].
  - apply (proj2 calculateGrade_full_accuracy). reflexivity.
Defined.

(** The claim C7 fails when no object was judged: the accuracy is 100 and
    the grade is D. *)
Lemma calculateGrade_nothing_judged :
  calculateAccuracy createEmptyStats == 100
  /\ calculateGrade createEmptyStats <> "S"%string.
Proof. split; [reflexivity | discriminate]. Qed.

End Grade.

(** ** Combo and longest combo *)

Section Combo.

Import OsuGame Invariants.

Lemma comboStep_refl (s : Stats.t) : comboStep s s.
Proof. unfold comboStep. split; [tauto | lia]. Qed.

Lemma comboStep_trans (s1 s2 s3 : Stats.t) :
  comboStep s1 s2 -> comboStep s2 s3 -> comboStep s1 s3.
Proof. unfold comboStep. intros [H1 L1] [H2 L2]. split; [tauto | lia]. Qed.

Ltac combo_step :=
  unfold keepsCombo, comboStep, comboInvariant; intros; simpl;
  repeat match goal with
         | |- context [if ?b then _ else _] => destruct b
         end; simpl; lia.

Lemma startSlider_combo i v : keepsCombo (startSlider i v).
Proof. combo_step. Qed.

Lemma processHit_combo i v : keepsCombo (processHit i v).
Proof. combo_step. Qed.

Lemma processMiss_combo i : keepsCombo (processMiss i).
Proof. combo_step. Qed.

Lemma processSliderMiss_combo i : keepsCombo (processSliderMiss i).
Proof. combo_step. Qed.

Lemma breakTracking_combo i : keepsCombo (breakTracking i).
Proof. combo_step. Qed.

Lemma awardTicks_combo i n : keepsCombo (awardTicks i n).
Proof. combo_step. Qed.

Lemma completeSlider_combo i : keepsCombo (completeSlider i).
Proof.
  intros g. unfold completeSlider.
  destruct (hitObjects g !! i) as [slider |]; [| apply comboStep_refl].
  revert g. combo_step.
Qed.

Lemma processHitLoop_combo osuPos currentTime windows circleRadius active :
  keepsCombo (processHitLoop osuPos currentTime windows circleRadius active).
Proof.
  intros g. induction active as [| i rest IH]; simpl; [apply comboStep_refl |].
  destruct (hitObjects g !! i) as [obj |]; [| exact IH].
  destruct (negb _); [exact IH |].
  destruct (JS.Qgtb _ _); [exact IH |].
  destruct (hypotLe _ _ _); [| exact IH].
  destruct (Obj.type obj).
  - apply (processHit_combo i _ (updateObject _ i g)).
  - apply startSlider_combo.
Qed.

Lemma processHitAtPosition_combo osuPos currentTime :
  keepsCombo (processHitAtPosition osuPos currentTime).
Proof. intros g. apply processHitLoop_combo. Qed.

Lemma updateSlider_combo currentTime osuPos holding followRadius i g g' :
  updateSlider currentTime osuPos holding followRadius i g = Some g' ->
  comboStep (stats g) (stats g').
Proof.
  unfold updateSlider.
  destruct (hitObjects g !! i) as [obj |]; [| intros [= <-]; apply comboStep_refl].
  destruct (negb _); [intros [= <-]; apply comboStep_refl |].
  destruct (getSliderBallPosition _ _) as [ballPos |]; simpl; [| discriminate].
  intros [= <-]. cbv zeta.
  repeat match goal with
         | |- comboStep _ (stats (if ?c then _ else _)) => destruct c
         | |- comboStep _ (stats (completeSlider _ _)) =>
             eapply comboStep_trans; [| apply completeSlider_combo]
         | |- comboStep _ (stats (awardTicks _ _ _)) =>
             eapply comboStep_trans; [| apply awardTicks_combo]
         | |- comboStep _ (stats (breakTracking _ _)) =>
             eapply comboStep_trans; [| apply breakTracking_combo]
         end; apply comboStep_refl.
Qed.

Lemma updateSlidersFrom_combo n currentTime osuPos holding followRadius g g' :
  updateSlidersFrom n currentTime osuPos holding followRadius g = Some g' ->
  comboStep (stats g) (stats g').
Proof.
  revert g. induction n as [| n IH]; intros g; simpl.
  - intros [= <-]. apply comboStep_refl.
  - destruct (activeObjects g !! n) as [o |]; simpl.
    + destruct (updateSlider _ _ _ _ o g) as [g1 |] eqn:E; simpl; [| discriminate].
      intros H. eapply comboStep_trans; [eapply updateSlider_combo, E | apply IH, H].
    + apply IH.
Qed.

Lemma activateObjects_stats n currentTime approachTime g :
  stats (activateObjects n currentTime approachTime g) = stats g.
Proof.
  revert g. induction n as [| n IH]; intros g; simpl; [reflexivity |].
  destruct (hitObjects g !! nextObjectIndex g) as [obj |]; [| reflexivity].
  destruct (negb _); [rewrite IH; reflexivity |].
  destruct (Qle_bool _ _); [rewrite IH |]; reflexivity.
Qed.

Lemma checkMisses_combo n currentTime hitWindows :
  keepsCombo (checkMisses n currentTime hitWindows).
Proof.
  induction n as [| n IH]; intros g; simpl; [apply comboStep_refl |].
  eapply comboStep_trans; [| apply IH].
  destruct (activeObjects g !! n) as [o |]; [| apply comboStep_refl].
  destruct (hitObjects g !! o) as [obj |]; [| apply comboStep_refl].
  destruct (HitState_eqb _ _); [| apply comboStep_refl].
  destruct (Obj.type obj); destruct (JS.Qgtb _ _);
    first [apply comboStep_refl | apply processMiss_combo | apply processSliderMiss_combo].
Qed.

Lemma update_combo currentTime osuPos holding g g' :
  update currentTime osuPos holding g = Some g' -> comboStep (stats g) (stats g').
Proof.
  unfold update.
  set (g1 := activateObjects _ _ _ g).
  set (g2 := checkMisses _ _ _ g1).
  destruct (updateSliders _ _ _ _ g2) as [g3 |] eqn:E; simpl; [| discriminate].
  assert (H : comboStep (stats g) (stats g3)).
  { eapply comboStep_trans; [| eapply updateSlidersFrom_combo, E].
    eapply comboStep_trans; [| apply checkMisses_combo].
    subst g1. rewrite activateObjects_stats. apply comboStep_refl. }
  destruct (_ && _); intros [= <-]; [| exact H].
  eapply comboStep_trans; [exact H |]. unfold comboStep, comboInvariant. simpl. lia.
Qed.

Lemma handleEvent_combo e g g' :
  handleEvent e g = Some g' -> comboStep (stats g) (stats g').
Proof.
  unfold handleEvent.
  destruct (currentState g); try (intros [= <-]; apply comboStep_refl).
  destruct e as [currentTime osuPos holding | currentTime osuPos].
  - apply update_combo.
  - intros [= <-]. apply processHitAtPosition_combo.
Qed.

Lemma handleEvents_combo events g g' :
  handleEvents events g = Some g' -> comboStep (stats g) (stats g').
Proof.
  revert g. induction events as [| e events IH]; intros g; simpl.
  - intros [= <-]. apply comboStep_refl.
  - destruct (handleEvent e g) as [g1 |] eqn:E; simpl; [| discriminate].
    intros H. eapply comboStep_trans; [eapply handleEvent_combo, E | apply IH, H].
Qed.

(** C10.  Each scoring operation (the start of a slider, a hit, an award of
    ticks, a miss, the completion of a slider, the loss of tracking) keeps
    [combo <= maxCombo] and does not lower [maxCombo]; hence in every
    session, from [startCountdown] on, [combo <= maxCombo] holds after
    every event, and [maxCombo] never decreases from a state of the session
    to a later one. *)
Theorem combo_le_maxCombo :
  (forall i v, keepsCombo (startSlider i v))
  /\ (forall i v, keepsCombo (processHit i v))
  /\ (forall i n, keepsCombo (awardTicks i n))
  /\ (forall i, keepsCombo (processMiss i))
  /\ (forall i, keepsCombo (processSliderMiss i))
  /\ (forall i, keepsCombo (completeSlider i))
  /\ (forall i, keepsCombo (breakTracking i))
  /\ (forall (g0 : game) (events : list event) (g : game),
         handleEvents events (startCountdown g0) = Some g ->
         Stats.combo (stats g) <= Stats.maxCombo (stats g))
  /\ (forall (g : game) (events : list event) (g' : game),
         handleEvents events g = Some g' ->
         Stats.maxCombo (stats g) <= Stats.maxCombo (stats g')).
Proof.
  split; [exact startSlider_combo |].
  split; [exact processHit_combo |].
  split; [exact awardTicks_combo |].
  split; [exact processMiss_combo |].
  split; [exact processSliderMiss_combo |].
  split; [exact completeSlider_combo |].
  split; [exact breakTracking_combo |].
  split.
  - intros g0 events g H. apply handleEvents_combo in H as [Hinv _].
    apply Hinv. unfold comboInvariant. simpl. lia.
  - intros g events g' H. apply handleEvents_combo in H as [_ Hle]. exact Hle.
Qed.

Lemma combo_le_maxCombo_witness :
  exists g : game,
    handleEvents Samples.heldSlide Samples.sliderGame = Some g
    /\ Stats.combo (stats g) <= Stats.maxCombo (stats g)
    /\ Stats.maxCombo (stats Samples.sliderGame) <= Stats.maxCombo (stats g).
Proof.
  destruct combo_le_maxCombo as (_ & _ & _ & _ & _ & _ & _ & Hcombo & Hmax).
  eexists. split; [vm_compute; reflexivity |]. split.
  - apply (Hcombo Samples.sliderGame Samples.heldSlide). vm_compute. reflexivity.
  - apply (Hmax _ Samples.heldSlide). vm_compute. reflexivity.
Defined.

End Combo.

(** ** The judgement of a completed slider *)

Section SliderCompletion.

Import OsuGame.

Local Open Scope Q_scope.

(** The ticks of a slider as [loadHitObject] sets them: [totalTicks] counts
    the ticks of all the slides, and no tick is hit yet. *)
Lemma loadHitObject_ticks hypot atan2 cos sin fuel d tps
  (obj : OsuParser.HitObject.t) (o : Obj.t) :
  loadHitObject hypot atan2 cos sin fuel d tps obj = Some o ->
  OsuParser.HitObject.type obj = OsuParser.slider ->
  Obj.slides o = OsuParser.HitObject.slides obj
  /\ Obj.totalTicks o = (Obj.ticksPerSlide o * Obj.slides o)%Z
  /\ Obj.ticksHit o = 0%Z
  /\ Obj.trackingBroken o = false.
Proof.
  unfold loadHitObject. intros H Htype. rewrite Htype in H.
  destruct (OsuParser.HitObject.x obj); simpl in H; [| discriminate].
  destruct (OsuParser.HitObject.y obj); simpl in H; [| discriminate].
  destruct (OsuParser.HitObject.time obj); simpl in H; [| discriminate].
  destruct (OsuParser.generateCurve _ _ _ _ _ _ _ _ _ _ _); simpl in H; [| discriminate].
  injection H as <-. simpl. repeat split; reflexivity.
Qed.

(** For a slider of one slide with ticks, the judgement follows the
    fraction of its ticks that were hit. *)
Lemma sliderHitValue_one_slide (slider : Obj.t) :
  Obj.slides slider = 1%Z ->
  (0 < Obj.totalTicks slider)%Z ->
  let fraction := inject_Z (Obj.ticksHit slider) / inject_Z (Obj.totalTicks slider) in
  (0.9 <= fraction -> Obj.trackingBroken slider = false ->
   sliderHitValue slider = 300%Z)
  /\ (0.5 <= fraction -> fraction < 0.9 \/ Obj.trackingBroken slider = true ->
      sliderHitValue slider = 100%Z)
  /\ (0 < fraction -> fraction < 0.5 -> sliderHitValue slider = 50%Z)
  /\ (fraction <= 0 -> sliderHitValue slider = 0%Z).
Proof.
  intros Hslides Hticks fraction.
  assert (Hratio : tickRatio slider = fraction).
  { unfold tickRatio. rewrite Hslides, Z.mul_1_r.
    apply Z.ltb_lt in Hticks. rewrite Hticks. reflexivity. }
  unfold sliderHitValue. rewrite Hratio. clearbody fraction.
  repeat split.
  - intros H Hb. apply Qgeb_ge in H. rewrite H, Hb. reflexivity.
  - intros H1 H2. apply Qgeb_ge in H1. rewrite H1.
    destruct H2 as [H2 | H2].
    + assert (E : JS.Qgeb fraction 0.9 = false) by (apply Qle_bool_gt; exact H2).
      rewrite E. reflexivity.
    + rewrite H2, andb_false_r. reflexivity.
  - intros H1 H2.
    assert (E1 : JS.Qgeb fraction 0.9 = false) by (apply Qle_bool_gt; lra).
    assert (E2 : JS.Qgeb fraction 0.5 = false) by (apply Qle_bool_gt; exact H2).
    apply Qgtb_gt in H1. rewrite E1, E2, H1. reflexivity.
  - intros H.
    assert (E1 : JS.Qgeb fraction 0.9 = false) by (apply Qle_bool_gt; lra).
    assert (E2 : JS.Qgeb fraction 0.5 = false) by (apply Qle_bool_gt; lra).
    apply Qgtb_le in H. rewrite E1, E2, H. reflexivity.
Qed.

(** The sample sessions are what [parseHitObjects], [loadBeatmap] and
    [startCountdown] build from their chart lines; the slider has two
    slides of 1000 ms with one tick each and a curve of 101 points. *)
Lemma samples_loaded :
  Samples.startSession ["256,192,1000,1,0"%string] = Some Samples.circleGame
  /\ Samples.startSession ["0,0,0,2,0,L|280:0,2,280"%string] = Some Samples.sliderGame
  /\ (fun o => (Obj.slides o, Obj.ticksPerSlide o, Obj.totalTicks o,
                Qred (Obj.slideDuration o), Qred (Obj.totalDuration o),
                Qred (Obj.tickSpacing o), List.length (Obj.curvePoints o)))
       <$> hitObjects Samples.sliderGame !! 0%nat
     = Some (2%Z, 1%Z, 2%Z, 1000, 2000, 500, 101%nat).
Proof. repeat split; vm_compute; reflexivity. Qed.

(** C1 fails in the code.  A slider of two slides with one tick in each
    slide is held from its head to its end: both ticks are awarded, so all
    of its [totalTicks = 2] ticks are hit, and the tracking is never
    broken; [completeSlider] divides the ticks hit by
    [totalTicks * slides = 4] and judges the slider a 100, not a 300. *)
Theorem completeSlider_two_slides :
  exists g : game,
    handleEvents Samples.heldSlide Samples.sliderGame = Some g
    /\ Obj.ticksHit <$> hitObjects g !! 0%nat = Some 2%Z
    /\ Obj.totalTicks <$> hitObjects g !! 0%nat = Some 2%Z
    /\ Obj.trackingBroken <$> hitObjects g !! 0%nat = Some false
    /\ sliderHitValue <$> hitObjects g !! 0%nat = Some 100%Z
    /\ Stats.hit300 (stats g) = 0%Z
    /\ Stats.hit100 (stats g) = 1%Z.
Proof. eexists. split; [vm_compute; reflexivity |]. repeat split. Qed.

End SliderCompletion.

(** ** Health *)

Section Health.

Import OsuGame.

Local Open Scope Q_scope.

(** C3, as amended.  The miss of a circle that times out ([processMiss])
    and the miss of a slider whose head was never hit ([processSliderMiss])
    subtract 8 from the health, not below 0; the miss of a slider that
    completes with no tick hit subtracts 5, not below 0; the loss of
    tracking leaves the health as it is.  So do they in a session: a circle
    of time 1000 and a slider of time 0 that time out at od 5 leave the
    health at 92. *)
Theorem miss_health :
  (forall (i : nat) (g : game),
      Stats.misses (stats (processMiss i g)) = (Stats.misses (stats g) + 1)%Z
      /\ Stats.health (stats (processMiss i g)) == Qmax 0 (Stats.health (stats g) - 8))
  /\ (forall (i : nat) (g : game),
         Stats.misses (stats (processSliderMiss i g)) = (Stats.misses (stats g) + 1)%Z
         /\ Stats.health (stats (processSliderMiss i g))
            == Qmax 0 (Stats.health (stats g) - 8))
  /\ (forall (i : nat) (g : game) (slider : Obj.t),
         hitObjects g !! i = Some slider ->
         sliderHitValue slider = 0%Z ->
         Stats.misses (stats (completeSlider i g)) = (Stats.misses (stats g) + 1)%Z
         /\ Stats.health (stats (completeSlider i g))
            == Qmax 0 (Stats.health (stats g) - 5))
  /\ (forall (i : nat) (g : game),
         Stats.misses (stats (breakTracking i g)) = Stats.misses (stats g)
         /\ Stats.health (stats (breakTracking i g)) == Stats.health (stats g))
  /\ (exists g : game,
         handleEvents (Samples.noInput 1151) Samples.circleGame = Some g
         /\ Stats.misses (stats g) = 1%Z /\ Stats.health (stats g) == 92)
  /\ (exists g : game,
         handleEvents (Samples.noInput 151) Samples.sliderGame = Some g
         /\ Stats.misses (stats g) = 1%Z /\ Stats.health (stats g) == 92).
Proof.
  split; [intros i g; split; reflexivity |].
  split; [intros i g; split; reflexivity |].
  split.
  { intros i g slider Hobj Hvalue. unfold completeSlider.
    rewrite Hobj. simpl. rewrite Hvalue. simpl. split; reflexivity. }
  split; [intros i g; split; reflexivity |].
  split; eexists; (split; [vm_compute; reflexivity |]); split; reflexivity.
Qed.

Lemma miss_health_witness :
  Stats.health (stats (completeSlider 0 Samples.releasedSliderGame))
  == Qmax 0 (Stats.health (stats Samples.releasedSliderGame) - 5).
Proof.
  destruct miss_health as (_ & _ & H & _).
  destruct (hitObjects Samples.releasedSliderGame !! 0%nat) as [slider |] eqn:E;
    [| vm_compute in E; discriminate E].
  refine (proj2 (H 0%nat Samples.releasedSliderGame slider E _)).
  vm_compute in E. injection E as <-. vm_compute. reflexivity.
Defined.

(** The claim C3 fails for the miss of a completed slider.  The head of the
    slider is hit and the pointer released before the first tick: the
    slider completes with no tick hit, which is the only miss of the
    session, and the health goes from 100 to 95, not to 92. *)
Lemma completed_slider_miss_health :
  exists g : game,
    handleEvents Samples.releasedSlide Samples.sliderGame = Some g
    /\ Stats.health (stats Samples.sliderGame) == 100
    /\ Stats.misses (stats g) = 1%Z
    /\ Stats.health (stats g) == 95
    /\ ~ Stats.health (stats g) == 100 - 8.
Proof.
  eexists. split; [vm_compute; reflexivity |].
  repeat split. intros H. vm_compute in H. discriminate H.
Qed.

End Health.

(** ** Key and value lines *)

Section KeyValueLines.

Import JS OsuParser.

Local Open Scope string_scope.

Lemma indexOf_lower_bound (c : ascii) (s : string) : -1 <= indexOf c s.
Proof.
  induction s as [| d s IH]; simpl; [lia |].
  destruct (Ascii.eqb d c); [lia |].
  destruct (indexOf c s <? 0)%Z eqn:E; [lia |]. apply Z.ltb_ge in E. lia.
Qed.

(** In [key ++ ":" ++ value], where the key holds no colon, the first colon
    is the one after the key. *)
Lemma indexOf_after_key (c : ascii) (key value : string) :
  indexOf c key = -1 ->
  indexOf c (key ++ String c value) = Z.of_nat (String.length key).
Proof.
  induction key as [| d key IH]; simpl.
  - intros _. rewrite Ascii.eqb_refl. reflexivity.
  - destruct (Ascii.eqb d c); [discriminate |].
    pose proof (indexOf_lower_bound c key) as Hlow.
    destruct (indexOf c key <? 0)%Z eqn:E.
    + intros _. apply Z.ltb_lt in E. rewrite IH by lia.
      destruct (Z.of_nat (String.length key) <? 0)%Z eqn:E'; [apply Z.ltb_lt in E' |]; lia.
    + intros H. apply Z.ltb_ge in E. lia.
Qed.

Lemma sliceTo_key (key rest : string) :
  sliceTo (Z.of_nat (String.length key)) (key ++ rest) = key.
Proof.
  unfold sliceTo. rewrite Nat2Z.id.
  induction key as [| d key IH]; simpl.
  - destruct rest; reflexivity.
  - rewrite IH. reflexivity.
Qed.

Lemma sliceFrom_key (c : ascii) (key value : string) :
  sliceFrom (Z.of_nat (String.length key) + 1) (key ++ String c value) = value.
Proof.
  unfold sliceFrom.
  replace (Z.to_nat (Z.of_nat (String.length key) + 1)) with (Datatypes.S (String.length key)) by lia.
  induction key as [| d key IH]; simpl; [reflexivity | exact IH].
Qed.

Lemma split_after_key (c : ascii) (key value : string) :
  indexOf c key = -1 ->
  split c (key ++ String c value) = key :: split c value.
Proof.
  induction key as [| d key IH]; simpl.
  - intros _. rewrite Ascii.eqb_refl. reflexivity.
  - destruct (Ascii.eqb d c); [discriminate |].
    pose proof (indexOf_lower_bound c key) as Hlow.
    destruct (indexOf c key <? 0)%Z eqn:E.
    + intros _. apply Z.ltb_lt in E. rewrite IH by lia. reflexivity.
    + intros H. apply Z.ltb_ge in E. lia.
Qed.

(** [parseMetadata] cuts a line at its first colon only: the value is the
    whole rest of the line, trimmed. *)
Lemma metadataEntries_first_colon (key value : string) (rest : list string)
  (metadata : gmap string string) :
  indexOf ":" key = -1 ->
  metadataEntries ((key ++ String ":" value) :: rest) metadata
  = metadataEntries rest (<[trim key := trim value]> metadata).
Proof.
  intros Hkey. simpl. rewrite (indexOf_after_key _ _ _ Hkey).
  destruct (-1 <? Z.of_nat (String.length key))%Z eqn:E; [| apply Z.ltb_ge in E; lia].
  rewrite sliceTo_key, sliceFrom_key. reflexivity.
Qed.

(** [parseGeneral] cuts a line at every colon and keeps the first two
    pieces: the value is the rest of the line up to its next colon. *)
Lemma generalEntries_second_colon (key value : string) (rest : list string)
  (general : gmap string string) :
  indexOf ":" key = -1 ->
  trim key <> "" ->
  generalEntries ((key ++ String ":" value) :: rest) general
  = generalEntries rest
      (<[trim key := trim (default "" (head (split ":" value)))]> general).
Proof.
  intros Hkey Hnonempty. simpl. rewrite (split_after_key _ _ _ Hkey). simpl.
  destruct (split ":" value) as [| piece pieces] eqn:E; simpl.
  - destruct value; simpl in E; [discriminate |].
    destruct (Ascii.eqb _ _); [discriminate |].
    destruct (split ":" value); discriminate.
  - destruct (String.eqb (trim key) "") eqn:Ek; simpl; [| reflexivity].
    apply String.eqb_eq in Ek. contradiction.
Qed.

(** C4 fails in the code for the section General (and Difficulty, which
    cuts its lines the same way).  The line [AudioFilename: a:b.mp3] yields
    the audio file name [a], while the same value in the section Metadata,
    which is cut at the first colon, is kept whole. *)
Theorem parseGeneral_cuts_value :
  audioFilename (parseGeneral ["AudioFilename: a:b.mp3"]) = "a"
  /\ title (parseMetadata ["Title: a:b.mp3"]) = "a:b.mp3".
Proof. split; vm_compute; reflexivity. Qed.

End KeyValueLines.

(** ** Combo numbers *)

Section ComboNumbers.

Import JS OsuParser.

Variable parseFloat : string -> option Q.
Variable Number : string -> option Q.

Local Open Scope string_scope.

Lemma comboSkip_range (type : Z) : 0 <= ComboSpec.comboSkip type <= 7.
Proof.
  unfold ComboSpec.comboSkip.
  change 7 with (Z.ones 3). rewrite Z.land_ones by lia.
  pose proof (Z.mod_pos_bound (Z.shiftr type 4) (2 ^ 3)) as H.
  change (Z.ones 3) with (2 ^ 3 - 1). lia.
Qed.

Lemma parseHitObjectsFrom_chain (safeComboColorCount : Z) (lines : list string) :
  Forall (fun line => ComboSpec.recognised line = true) lines ->
  forall comboNumber comboColorIndex : Z,
    ComboSpec.comboChain safeComboColorCount comboNumber comboColorIndex
      (ComboSpec.objectTypes lines)
      (parseHitObjectsFrom parseFloat Number safeComboColorCount lines
         comboNumber comboColorIndex).
Proof.
  induction 1 as [| line lines Hline _ IH]; intros comboNumber comboColorIndex;
    [exact I |].
  cbn [parseHitObjectsFrom]. cbv zeta.
  unfold ComboSpec.objectTypes in *. cbn [List.filter].
  unfold ComboSpec.recognised in Hline. unfold ComboSpec.givesObject.
  unfold ComboSpec.lineType in *.
  destruct (List.length (split "," line) <? 4)%nat; [apply IH |].
  set (type := toInt32 (parseInt (split "," line !! 3%nat))) in *.
  cbn [negb andb orb] in Hline |- *.
  destruct (Z.land type 8 =? 0)%Z eqn:Espinner;
    [| rewrite andb_false_r; apply IH].
  rewrite andb_true_r. cbn [negb].
  assert (Hfollows : forall o : HitObject.t,
             HitObject.isNewCombo o = negb (Z.land type 4 =? 0)%Z ->
             HitObject.comboNumber o
             = (if negb (Z.land type 4 =? 0)%Z then 1 else comboNumber + 1) ->
             HitObject.comboColorIndex o
             = (if negb (Z.land type 4 =? 0)%Z
                then (comboColorIndex + 1 + Z.land (Z.shiftr type 4) 7)
                     mod safeComboColorCount
                else comboColorIndex) ->
             ComboSpec.follows safeComboColorCount comboNumber comboColorIndex type o).
  { intros o Hnew Hnumber Hcolor.
    unfold ComboSpec.follows, ComboSpec.newCombo, ComboSpec.comboSkip.
    destruct (negb (Z.land type 4 =? 0)%Z); auto. }
  destruct (negb (Z.land type 2 =? 0)%Z) eqn:Eslider.
  - rewrite andb_false_r, orb_true_r. cbn [app fmap list_fmap ComboSpec.comboChain].
    split; [apply Hfollows; reflexivity | apply IH].
  - destruct (negb (Z.land type 1 =? 0)%Z) eqn:Ecircle; [| discriminate Hline].
    cbn [andb negb orb app fmap list_fmap ComboSpec.comboChain].
    split; [apply Hfollows; reflexivity | apply IH].
Qed.

(** On a chart without lines of another kind the numbering is as the
    specification says.  In a chart whose lines of hit objects are circles, sliders or
    spinners, the parsed objects are those of the lines of circles and
    sliders, one of each and in their order, and each either has the
    new-combo flag of its line, the combo number 1 and the colour of the
    object before it advanced by 1 + comboSkip modulo the size of the
    palette, the combo skip being bits 4 to 6 of the type of its line, or
    has the combo number of the object before it plus 1 and its colour; the
    first object follows the number 0 and the colour 0. *)
Lemma parseHitObjects_combo (lines : list string) (comboColorCount : Z) :
  Forall (fun line => ComboSpec.recognised line = true) lines ->
  ComboSpec.comboChain (Z.max 1 comboColorCount) 0 0 (ComboSpec.objectTypes lines)
    (parseHitObjects parseFloat Number lines comboColorCount).
Proof. intros H. apply parseHitObjectsFrom_chain, H. Qed.

End ComboNumbers.

(** The circles of [Samples.circleLines]: the last one starts a combo with a
    skip of 1, and its colour is two after that of the first. *)
Lemma parseHitObjects_combo_sample :
  ComboSpec.comboChain (Z.max 1 4) 0 0 [5; 1; 21]
    (OsuParser.parseHitObjects Samples.integer Samples.integer Samples.circleLines 4)
  /\ map OsuParser.HitObject.comboColorIndex
       (OsuParser.parseHitObjects Samples.integer Samples.integer Samples.circleLines 4)
     = [1; 1; 3].
Proof.
  split; [| vm_compute; reflexivity].
  apply (parseHitObjects_combo Samples.integer Samples.integer Samples.circleLines 4).
  repeat constructor.
Qed.

(** C8 fails in the code.  The comment of [parseHitObjects] says that the
    combo is handled for circles and sliders, and a spinner leaves the loop
    before the counters are touched; a line whose type has none of the bits
    of a circle, of a slider and of a spinner, such as a hold note of the
    mode mania, reaches the counters all the same and gives no object.
    Here the hold note takes the combo number 2, so that the circle after
    it, which has no new-combo flag, has the combo number 3 after the
    number 1 of the circle before it. *)
Theorem parseHitObjects_skips_a_number :
  exists objects : list OsuParser.HitObject.t,
    (forall parseFloat Number : string -> option Q,
        OsuParser.parseHitObjects parseFloat Number Samples.holdNoteLines 4 = objects)
    /\ map (fun o => (OsuParser.HitObject.time o, OsuParser.HitObject.isNewCombo o,
                      OsuParser.HitObject.comboNumber o)) objects
       = [(Some 1000, true, 1); (Some 3000, false, 3)]
    /\ ComboSpec.objectTypes Samples.holdNoteLines = [5; 1]
    /\ ~ ComboSpec.comboChain 4 0 0 (ComboSpec.objectTypes Samples.holdNoteLines) objects.
Proof.
  eexists. split; [intros; vm_compute; reflexivity |].
  split; [reflexivity |]. split; [vm_compute; reflexivity |].
  intros H.
  assert (Htypes : ComboSpec.objectTypes Samples.holdNoteLines = [5; 1])
    by (vm_compute; reflexivity).
  rewrite Htypes in H. destruct H as (_ & (_ & Hnumber & _) & _).
  cbn in Hnumber. discriminate Hnumber.
Qed.

(** ** The number of samples of a curve *)

Section CurveSamples.

Import OsuParser.

Variable hypot : Q -> Q -> Q.
Variable atan2 : Q -> Q -> Q.
Variable cos : Q -> Q.
Variable sin : Q -> Q.

Local Open Scope Q_scope.

Implicit Types (points segment : list Point.t) (resolution : positive).

Lemma inject_Z_pos (z : Z) : (0 < z)%Z -> 0 < inject_Z z.
Proof. intros H. unfold Qlt. simpl. lia. Qed.

Lemma Qceiling_positive (q : Q) : 0 < q -> (1 <= Qceiling q)%Z.
Proof.
  intros H. pose proof (Qle_ceiling q) as Hc.
  assert (Hpos : 0 < inject_Z (Qceiling q)) by lra.
  unfold Qlt in Hpos. simpl in Hpos. lia.
Qed.

(** *** Trimming keeps two points *)

Lemma trimCurveToLength_samples points (targetLength : Q) :
  (2 <= List.length points)%nat ->
  (2 <= List.length (trimCurveToLength hypot points targetLength))%nat.
Proof.
  destruct points as [| p0 [| p1 rest]]; simpl; try lia. intros _.
  destruct (JS.Qgeb _ _); simpl; lia.
Qed.

Lemma trimCurveToLength_short points (targetLength : Q) :
  (List.length points < 2)%nat -> trimCurveToLength hypot points targetLength = points.
Proof. destruct points as [| p0 [| p1 rest]]; simpl; [reflexivity .. | lia]. Qed.

(** *** The linear curve *)

Lemma linearSamples_length (p1 p2 : Point.t) (pointsPerSegment : Z) :
  List.length (linearSamples p1 p2 pointsPerSegment) = Z.to_nat (pointsPerSegment + 1).
Proof. unfold linearSamples. rewrite List.length_map. apply length_seqZ. Qed.

Lemma generateLinearCurve_samples points resolution :
  (2 <= List.length points)%nat ->
  (2 <= List.length (generateLinearCurve points resolution))%nat.
Proof.
  intros Hlen. unfold generateLinearCurve.
  destruct (List.length points <? 2)%nat eqn:E; [apply Nat.ltb_lt in E; lia |].
  assert (Hpps : (1 <= Qceiling (inject_Z (Z.pos resolution)
                                  / inject_Z (Z.of_nat (List.length points) - 1)))%Z).
  { apply Qceiling_positive. apply Qlt_shift_div_l.
    - apply inject_Z_pos. lia.
    - rewrite Qmult_0_l. apply inject_Z_pos. lia. }
  destruct points as [| p1 [| p2 rest]]; simpl in Hlen; try lia.
  cbn [linearSegments]. rewrite List.length_app, linearSamples_length. lia.
Qed.

(** *** The arc of a circle *)

Lemma generatePerfectCircleCurve_samples points resolution :
  (2 <= List.length points)%nat ->
  (2 <= List.length (generatePerfectCircleCurve hypot atan2 cos sin points resolution))%nat.
Proof.
  intros Hlen. unfold generatePerfectCircleCurve.
  destruct points as [| p1 [| p2 [| p3 rest]]];
    try (apply generateLinearCurve_samples; exact Hlen).
  destruct (getCircleCenter p1 p2 p3) as [center |];
    [| apply generateLinearCurve_samples; exact Hlen].
  rewrite List.length_map, length_seqZ. lia.
Qed.

(** *** The Bezier curve *)

Lemma bezierNewPoints_length points (t : Q) :
  List.length (bezierNewPoints points t) = pred (List.length points).
Proof.
  induction points as [| p1 points IH]; [reflexivity |].
  destruct points as [| p2 rest]; [reflexivity |].
  change (bezierNewPoints (p1 :: p2 :: rest) t)
    with (interpolate p1 p2 t :: bezierNewPoints (p2 :: rest) t).
  cbn [List.length] in *. rewrite IH. reflexivity.
Qed.

Lemma bezierPointRec_returns (n : nat) points (t : Q) :
  (1 <= List.length points)%nat -> (List.length points <= Datatypes.S n)%nat ->
  is_Some (bezierPointRec n points t).
Proof.
  revert points. induction n as [| n IH]; intros points Hlow Hup.
  - destruct points as [| p [| q rest]]; simpl in *; try lia. eexists; reflexivity.
  - destruct points as [| p [| q rest]]; [simpl in Hlow; lia | eexists; reflexivity |].
    cbn [bezierPointRec]. apply IH; rewrite bezierNewPoints_length; simpl in *; lia.
Qed.

Lemma bezierPoint_returns points (t : Q) :
  (1 <= List.length points)%nat -> is_Some (bezierPoint points t).
Proof. intros H. apply bezierPointRec_returns; lia. Qed.

(** From the round [k] on, the loop over [t] takes the [resolution + 1 - k]
    samples that are left and stops. *)
Lemma bezierSamples_count segment resolution :
  (1 <= List.length segment)%nat ->
  forall (m : nat) (k : Z) (t : Q) (fuel : nat),
    (0 <= k)%Z ->
    Z.of_nat m = (Z.pos resolution + 1 - k)%Z ->
    t == inject_Z k / inject_Z (Z.pos resolution) ->
    (m < fuel)%nat ->
    exists samples,
      bezierSamples fuel segment t (1 / inject_Z (Z.pos resolution)) = Some samples
      /\ List.length samples = m.
Proof.
  intros Hseg. set (r := inject_Z (Z.pos resolution)).
  assert (Hr : 0 < r) by (apply inject_Z_pos; lia).
  induction m as [| m IH]; intros k t fuel Hk Hm Ht Hfuel;
    (destruct fuel as [| fuel]; [lia |]); cbn [bezierSamples].
  - assert (Hgt : 1 < t).
    { rewrite Ht. apply Qlt_shift_div_l; [exact Hr |].
      rewrite Qmult_1_l. unfold r. rewrite <- Zlt_Qlt. lia. }
    apply Qle_bool_gt in Hgt. rewrite Hgt. exists []. split; reflexivity.
  - assert (Hle : t <= 1).
    { rewrite Ht. apply Qle_shift_div_r; [exact Hr |].
      rewrite Qmult_1_l. unfold r. rewrite <- Zle_Qle. lia. }
    apply Qle_bool_iff in Hle. rewrite Hle.
    destruct (bezierPoint_returns segment t Hseg) as [p Hp]. rewrite Hp. simpl.
    destruct (IH (k + 1)%Z (t + 1 / r) fuel) as (samples & Hs & Hlen); try lia.
    + rewrite Ht, inject_Z_plus. fold r. field. lra.
    + rewrite Hs. simpl. exists (p :: samples). split; [reflexivity | simpl; lia].
Qed.

Lemma bezierSamples_all segment resolution (fuel : nat) :
  (1 <= List.length segment)%nat ->
  (Pos.to_nat resolution + 2 <= fuel)%nat ->
  exists samples,
    bezierSamples fuel segment 0 (1 / inject_Z (Z.pos resolution)) = Some samples
    /\ List.length samples = Datatypes.S (Pos.to_nat resolution).
Proof.
  intros Hseg Hfuel.
  apply (bezierSamples_count segment resolution Hseg _ 0%Z); try lia.
  assert (Hr : 0 < inject_Z (Z.pos resolution)) by (apply inject_Z_pos; lia).
  field. intros H. lra.
Qed.

Lemma splitBezierLoop_segments (prev : Point.t) (rest currentSegment : list Point.t)
  (segments : list (list Point.t)) :
  Forall (fun segment => (2 <= List.length segment)%nat) segments ->
  Forall (fun segment => (2 <= List.length segment)%nat)
         (splitBezierLoop prev rest currentSegment segments).
Proof.
  revert prev currentSegment segments.
  induction rest as [| curr rest IH]; intros prev currentSegment segments Hall; simpl.
  - destruct (1 <? List.length currentSegment)%nat eqn:E; [| exact Hall].
    apply Nat.ltb_lt in E. apply Forall_app. split; [exact Hall |].
    constructor; [lia | constructor].
  - destruct (samePoint prev curr); apply IH; [| exact Hall].
    destruct (1 <? List.length currentSegment)%nat eqn:E; [| exact Hall].
    apply Nat.ltb_lt in E. apply Forall_app. split; [exact Hall |].
    constructor; [lia | constructor].
Qed.

Lemma splitBezierSegments_segments points :
  (2 <= List.length points)%nat ->
  splitBezierSegments points <> []
  /\ Forall (fun segment => (2 <= List.length segment)%nat) (splitBezierSegments points).
Proof.
  intros Hlen. unfold splitBezierSegments.
  destruct points as [| p0 rest]; [simpl in Hlen; lia |].
  pose proof (splitBezierLoop_segments p0 rest [p0] [] (Forall_nil_2 _)) as Hall.
  destruct (splitBezierLoop p0 rest [p0] []) as [| segment segments]; simpl.
  - split; [discriminate | constructor; [exact Hlen | constructor]].
  - split; [discriminate | exact Hall].
Qed.

Lemma bezierSegments_samples (segments : list (list Point.t)) resolution (fuel : nat) :
  (Pos.to_nat resolution + 2 <= fuel)%nat ->
  Forall (fun segment => (2 <= List.length segment)%nat) segments ->
  exists samples,
    bezierSegments fuel segments resolution = Some samples
    /\ List.length samples
       = (List.length segments * Datatypes.S (Pos.to_nat resolution))%nat.
Proof.
  intros Hfuel Hall.
  induction Hall as [| segment segments Hseg _ (samples & Hs & Hlen)]; simpl.
  - exists []. split; reflexivity.
  - destruct (List.length segment <? 2)%nat eqn:E; [apply Nat.ltb_lt in E; lia |].
    destruct (bezierSamples_all segment resolution fuel) as (first & Hf & Hflen);
      [lia | exact Hfuel |].
    rewrite Hf, Hs. simpl. exists (first ++ samples).
    split; [reflexivity |]. rewrite List.length_app. lia.
Qed.

Lemma generateBezierCurve_samples points resolution (fuel : nat) :
  (2 <= List.length points)%nat ->
  (Pos.to_nat resolution + 2 <= fuel)%nat ->
  exists samples,
    generateBezierCurve fuel points resolution = Some samples
    /\ (2 <= List.length samples)%nat.
Proof.
  intros Hlen Hfuel. unfold generateBezierCurve.
  destruct (List.length points <? 2)%nat eqn:E; [apply Nat.ltb_lt in E; lia |].
  destruct (splitBezierSegments_segments points Hlen) as [Hne Hall].
  destruct (bezierSegments_samples _ resolution fuel Hfuel Hall) as (samples & Hs & Hl).
  exists samples. split; [exact Hs |].
  destruct (splitBezierSegments points); [contradiction | simpl in Hl; lia].
Qed.

Lemma generateCurve_head_only (curveType : string) (startX startY length : Q)
  resolution (fuel : nat) :
  generateCurve hypot atan2 cos sin fuel curveType startX startY [] length resolution
  = Some [Point.mk startX startY].
Proof.
  unfold generateCurve.
  destruct (String.eqb curveType "L"); [reflexivity |].
  destruct (String.eqb curveType "P"); reflexivity.
Qed.

Lemma generateCurve_returns (curveType : string) (startX startY : Q)
  (controlPoints : list Point.t) (length : Q) resolution (fuel : nat) :
  controlPoints <> [] ->
  (Pos.to_nat resolution + 2 <= fuel)%nat ->
  exists samples,
    generateCurve hypot atan2 cos sin fuel curveType startX startY controlPoints
      length resolution = Some samples
    /\ (2 <= List.length samples)%nat.
Proof.
  intros Hne Hfuel. unfold generateCurve.
  set (allPoints := Point.mk startX startY :: controlPoints).
  assert (Hlen : (2 <= List.length allPoints)%nat).
  { subst allPoints. destruct controlPoints; [contradiction | simpl; lia]. }
  destruct (String.eqb curveType "L"); [| destruct (String.eqb curveType "P")].
  - exists (trimCurveToLength hypot (generateLinearCurve allPoints resolution) length).
    split; [reflexivity |].
    apply trimCurveToLength_samples, generateLinearCurve_samples, Hlen.
  - exists (trimCurveToLength hypot
              (generatePerfectCircleCurve hypot atan2 cos sin allPoints resolution)
              length).
    split; [reflexivity |].
    apply trimCurveToLength_samples, generatePerfectCircleCurve_samples, Hlen.
  - destruct (generateBezierCurve_samples allPoints resolution fuel Hlen Hfuel)
      as (samples & Hs & Hl).
    rewrite Hs. exists (trimCurveToLength hypot samples length).
    split; [reflexivity |].
    apply trimCurveToLength_samples, Hl.
Qed.

(** Whenever the loops return, with whatever fuel, the curve of two points
    or more has two samples or more. *)
Lemma bezierSamples_two segment (step : Q) (fuel : nat) (samples : list Point.t) :
  bezierSamples fuel segment 0 step = Some samples ->
  0 + step <= 1 ->
  (2 <= List.length samples)%nat.
Proof.
  intros H Hstep. apply Qle_bool_iff in Hstep.
  destruct fuel as [| [| fuel]]; cbn [bezierSamples] in H; [discriminate | |].
  - change (Qle_bool 0 1) with true in H. cbn iota in H.
    destruct (bezierPoint segment 0); discriminate.
  - change (Qle_bool 0 1) with true in H. cbn iota in H. rewrite Hstep in H.
    destruct (bezierPoint segment 0) as [p |]; [| discriminate].
    destruct (bezierPoint segment (0 + step)) as [q |]; [| discriminate].
    destruct (bezierSamples fuel segment _ step) as [ps |]; [| discriminate].
    injection H as <-. simpl. lia.
Qed.

Lemma generateBezierCurve_two points resolution (fuel : nat) (samples : list Point.t) :
  generateBezierCurve fuel points resolution = Some samples ->
  (2 <= List.length points)%nat ->
  (2 <= List.length samples)%nat.
Proof.
  unfold generateBezierCurve. intros H Hlen.
  destruct (List.length points <? 2)%nat eqn:El; [apply Nat.ltb_lt in El; lia |].
  destruct (splitBezierSegments_segments points Hlen) as [Hne Hall].
  destruct (splitBezierSegments points) as [| segment segments]; [contradiction |].
  apply Forall_cons in Hall as [Hseg _]. cbn [bezierSegments] in H.
  destruct (List.length segment <? 2)%nat eqn:Es; [apply Nat.ltb_lt in Es; lia |].
  destruct (bezierSamples fuel segment 0 _) as [first |] eqn:Ef; [| discriminate].
  destruct (bezierSegments fuel segments resolution) as [others |]; [| discriminate].
  injection H as <-. rewrite List.length_app.
  enough (2 <= List.length first)%nat by lia.
  apply (bezierSamples_two _ _ _ _ Ef).
  assert (Hr : 1 <= inject_Z (Z.pos resolution)) by (rewrite <- (Zle_Qle 1); lia).
  rewrite Qplus_0_l. apply Qle_shift_div_r; lra.
Qed.

Lemma generateCurve_two (curveType : string) (startX startY : Q)
  (controlPoints : list Point.t) (length : Q) resolution (fuel : nat)
  (samples : list Point.t) :
  generateCurve hypot atan2 cos sin fuel curveType startX startY controlPoints
    length resolution = Some samples ->
  controlPoints <> [] ->
  (2 <= List.length samples)%nat.
Proof.
  unfold generateCurve. intros H Hne.
  set (allPoints := Point.mk startX startY :: controlPoints) in H.
  assert (Hlen : (2 <= List.length allPoints)%nat).
  { subst allPoints. destruct controlPoints; [contradiction | simpl; lia]. }
  assert (Hraw : exists raw, (2 <= List.length raw)%nat
                             /\ samples = trimCurveToLength hypot raw length).
  { destruct (String.eqb curveType "L"); [| destruct (String.eqb curveType "P")].
    - exists (generateLinearCurve allPoints resolution).
      split; [apply generateLinearCurve_samples, Hlen | injection H as <-; reflexivity].
    - exists (generatePerfectCircleCurve hypot atan2 cos sin allPoints resolution).
      split; [apply generatePerfectCircleCurve_samples, Hlen
             | injection H as <-; reflexivity].
    - destruct (generateBezierCurve fuel allPoints resolution) as [raw |] eqn:Eb;
        [| discriminate].
      exists raw.
      split; [apply (generateBezierCurve_two _ _ _ _ Eb Hlen)
             | injection H as <-; reflexivity]. }
  destruct Hraw as (raw & Hraw & ->). apply trimCurveToLength_samples, Hraw.
Qed.

(** The curve of a slider that [loadHitObject] prepares for play. *)
Lemma loadHitObject_curvePoints (fuel : nat) (d : OsuParser.difficulty)
  (tps : list timingPoint) (obj : HitObject.t) (o : OsuGame.Obj.t) :
  OsuGame.loadHitObject hypot atan2 cos sin fuel d tps obj = Some o ->
  HitObject.type obj = slider ->
  (HitObject.controlPoints obj <> [] -> (2 <= List.length (OsuGame.Obj.curvePoints o))%nat)
  /\ (HitObject.controlPoints obj = [] -> List.length (OsuGame.Obj.curvePoints o) = 1%nat).
Proof.
  unfold OsuGame.loadHitObject. intros H Htype. rewrite Htype in H.
  destruct (HitObject.x obj) as [x |]; simpl in H; [| discriminate].
  destruct (HitObject.y obj) as [y |]; simpl in H; [| discriminate].
  destruct (HitObject.time obj) as [time |]; simpl in H; [| discriminate].
  destruct (generateCurve _ _ _ _ _ _ _ _ _ _ _) as [curve |] eqn:E; simpl in H;
    [| discriminate].
  injection H as <-. simpl. split.
  - intros Hne. apply (generateCurve_two _ _ _ _ _ _ _ _ E Hne).
  - intros Hnil. rewrite Hnil, generateCurve_head_only in E. injection E as <-.
    reflexivity.
Qed.

(** C9, as amended.  A slider with no control point has the one point of
    its head as its curve; for a slider with at least one control point
    [generateCurve] returns, whatever the type of the curve, the target
    length and the resolution, and the curve has at least two points. *)
Theorem generateCurve_samples :
  forall (curveType : string) (startX startY : Q) (controlPoints : list Point.t)
         (length : Q) resolution (fuel : nat),
    (controlPoints = [] ->
     generateCurve hypot atan2 cos sin fuel curveType startX startY controlPoints
       length resolution = Some [Point.mk startX startY])
    /\ (controlPoints <> [] ->
        (Pos.to_nat resolution + 2 <= fuel)%nat ->
        exists samples,
          generateCurve hypot atan2 cos sin fuel curveType startX startY controlPoints
            length resolution = Some samples
          /\ (2 <= List.length samples)%nat).
Proof.
  intros curveType startX startY controlPoints length resolution fuel. split.
  - intros ->. apply generateCurve_head_only.
  - apply generateCurve_returns.
Qed.

End CurveSamples.

Lemma generateCurve_samples_witness :
  (exists samples,
      OsuParser.generateCurve Samples.axisHypot Samples.noAngle Samples.noValue
        Samples.noValue 102 "B" 0 0 [Point.mk 280 0] 140 100 = Some samples
      /\ (2 <= List.length samples)%nat)
  /\ OsuParser.generateCurve Samples.axisHypot Samples.noAngle Samples.noValue
       Samples.noValue 102 "B" 0 0 [] 140 100 = Some [Point.mk 0 0].
Proof.
  split.
  - apply (proj2 (generateCurve_samples Samples.axisHypot Samples.noAngle
                    Samples.noValue Samples.noValue "B" 0 0 [Point.mk 280 0] 140 100 102)).
    + discriminate.
    + vm_compute. lia.
  - apply (proj1 (generateCurve_samples Samples.axisHypot Samples.noAngle
                    Samples.noValue Samples.noValue "B" 0 0 [] 140 100 102)).
    reflexivity.
Defined.

(** The claim C9 fails for a slider with no control point: whatever the
    host functions and the type of the curve, its curve is the one point of
    its head. *)
Lemma generateCurve_no_control_points :
  exists samples : list Point.t,
    (forall (hypot atan2 : Q -> Q -> Q) (cos sin : Q -> Q) (curveType : string),
        OsuParser.generateCurve hypot atan2 cos sin 102 curveType 256 192 [] 140 100
        = Some samples)
    /\ List.length samples = 1%nat.
Proof.
  exists [Point.mk 256 192]. split; [| reflexivity].
  intros. apply generateCurve_head_only.
Qed.

(** ** Trimming in exact arithmetic *)

(** With exact numbers, and a [hypot] that is not negative and scales with
    its arguments as the Euclidean length does, the trimmed curve has
    exactly the target length when the target is positive and the curve
    long enough, and is the whole curve when the curve is shorter.  This
    says nothing of the rounding of the doubles of the source. *)
Section ExactTrimming.

Import OsuParser CurveSpec.

Variable hypot : Q -> Q -> Q.

Local Open Scope Q_scope.

Hypothesis hypot_compat :
  forall a a' b b' : Q, a == a' -> b == b' -> hypot a b == hypot a' b'.
Hypothesis hypot_nonneg : forall dx dy : Q, 0 <= hypot dx dy.
Hypothesis hypot_scale :
  forall dx dy t : Q, 0 <= t -> hypot (dx * t) (dy * t) == t * hypot dx dy.

Lemma polylineFrom_nonneg (prev : Point.t) (rest : list Point.t) :
  0 <= polylineFrom hypot prev rest.
Proof.
  revert prev. induction rest as [| curr rest IH]; intros prev; simpl; [lra |].
  pose proof (hypot_nonneg (Point.x curr - Point.x prev) (Point.y curr - Point.y prev)).
  pose proof (IH curr). lra.
Qed.

Lemma trimCurveLoop_exact (targetLength : Q) (rest : list Point.t) :
  forall (prev : Point.t) (currentLength : Q),
    currentLength < targetLength ->
    targetLength <= currentLength + polylineFrom hypot prev rest ->
    currentLength
    + polylineFrom hypot prev (trimCurveLoop hypot prev rest currentLength targetLength)
    == targetLength.
Proof.
  induction rest as [| curr rest IH]; intros prev currentLength Hlt Hle;
    cbn [polylineFrom trimCurveLoop] in *; [lra |].
  remember (Point.x curr - Point.x prev) as dx eqn:Hdx.
  remember (Point.y curr - Point.y prev) as dy eqn:Hdy.
  remember (hypot dx dy) as segmentLength eqn:Hsegment.
  destruct (JS.Qgeb (currentLength + segmentLength) targetLength) eqn:E.
  - apply Qgeb_ge in E.
    assert (Hseg : 0 < segmentLength) by lra.
    remember ((targetLength - currentLength) / segmentLength) as t eqn:Ht.
    assert (Hpos : 0 <= t).
    { subst t. apply Qle_shift_div_l; [exact Hseg | lra]. }
    cbn [polylineFrom interpolate Point.x Point.y]. rewrite <- Hdx, <- Hdy.
    assert (Hlast : hypot (Point.x prev + dx * t - Point.x prev)
                          (Point.y prev + dy * t - Point.y prev)
                    == targetLength - currentLength).
    { apply Qeq_trans with (hypot (dx * t) (dy * t)); [apply hypot_compat; ring |].
      apply Qeq_trans with (t * hypot dx dy); [apply hypot_scale, Hpos |].
      rewrite <- Hsegment. subst t. field. lra. }
    lra.
  - apply Qle_bool_gt in E. cbn [polylineFrom]. rewrite <- Hdx, <- Hdy, <- Hsegment.
    specialize (IH curr (currentLength + segmentLength) E).
    lra.
Qed.

Lemma trimCurveToLength_exact (points : list Point.t) (targetLength : Q) :
  0 < targetLength ->
  targetLength <= polylineLength hypot points ->
  polylineLength hypot (trimCurveToLength hypot points targetLength) == targetLength.
Proof.
  intros Hpos Hle.
  destruct points as [| p0 [| p1 rest]]; simpl in Hle; try lra.
  unfold trimCurveToLength, polylineLength.
  pose proof (trimCurveLoop_exact targetLength (p1 :: rest) p0 0 Hpos) as H.
  cbn [polylineFrom] in H. lra.
Qed.

Lemma trimCurveLoop_whole (targetLength : Q) (rest : list Point.t) :
  forall (prev : Point.t) (currentLength : Q),
    currentLength + polylineFrom hypot prev rest < targetLength ->
    trimCurveLoop hypot prev rest currentLength targetLength = rest.
Proof.
  induction rest as [| curr rest IH]; intros prev currentLength Hlt; simpl in *;
    [reflexivity |].
  pose proof (polylineFrom_nonneg curr rest) as Hrest.
  destruct (JS.Qgeb _ _) eqn:E; [apply Qgeb_ge in E; lra |].
  rewrite IH; [reflexivity | lra].
Qed.

Lemma trimCurveToLength_whole (points : list Point.t) (targetLength : Q) :
  polylineLength hypot points < targetLength ->
  trimCurveToLength hypot points targetLength = points.
Proof.
  intros Hlt. destruct points as [| p0 [| p1 rest]]; try reflexivity.
  unfold trimCurveToLength. rewrite trimCurveLoop_whole; [reflexivity |].
  unfold polylineLength in Hlt. lra.
Qed.

End ExactTrimming.

(** The sample [hypot] is such a function, and along the line from (0, 0)
    to (10, 0) the curve trimmed to the length 4 has the length 4.  A
    target that is negative, which the section HitObjects can hold, gives
    a curve that runs backwards from the head and is longer than the
    target. *)
Lemma axisHypot_trimming :
  CurveSpec.polylineLength Samples.axisHypot
    (OsuParser.trimCurveToLength Samples.axisHypot [Point.mk 0 0; Point.mk 10 0] 4)
  == 4
  /\ CurveSpec.polylineLength Samples.axisHypot
       (OsuParser.trimCurveToLength Samples.axisHypot [Point.mk 0 0; Point.mk 10 0] (-5))
     == 5.
Proof.
  split; [| reflexivity].
  apply trimCurveToLength_exact.
  - intros a a' b b' Ha Hb. unfold Samples.axisHypot. rewrite Ha, Hb. reflexivity.
  - intros dx dy t Ht. unfold Samples.axisHypot.
    rewrite !Qabs_Qmult, (Qabs_pos t Ht). ring.
  - reflexivity.
  - vm_compute. discriminate.
Qed.

(** ** The length of the curve of a slider *)

Section CurveLength.

Import OsuParser CurveSpec CurveParts.

Variable hypot : Q -> Q -> Q.
Variable atan2 : Q -> Q -> Q.
Variable cos : Q -> Q.
Variable sin : Q -> Q.

Local Open Scope Q_scope.

Hypothesis hypot_compat :
  forall a a' b b' : Q, a == a' -> b == b' -> hypot a b == hypot a' b'.
Hypothesis hypot_nonneg : forall dx dy : Q, 0 <= hypot dx dy.
Hypothesis hypot_scale :
  forall dx dy t : Q, 0 <= t -> hypot (dx * t) (dy * t) == t * hypot dx dy.

(** [generateCurve] trims the curve of the type of the slider. *)
Lemma generateCurve_trims (fuel : nat) (curveType : string) (startX startY : Q)
  (controlPoints : list Point.t) (length : Q) (resolution : positive) :
  generateCurve hypot atan2 cos sin fuel curveType startX startY controlPoints length
    resolution
  = (fun raw => trimCurveToLength hypot raw length)
      <$> sampledCurve hypot atan2 cos sin fuel curveType startX startY controlPoints
            resolution.
Proof.
  unfold generateCurve, sampledCurve. cbv zeta.
  destruct (String.eqb curveType "L"); [reflexivity |].
  destruct (String.eqb curveType "P"); [reflexivity |].
  destruct (generateBezierCurve _ _ _); reflexivity.
Qed.

(** C5, as amended.  In exact arithmetic, with a [hypot] that is not
    negative and scales as the Euclidean length does, and for a target
    length that is positive: [generateCurve] returns, whatever the type of
    the curve; the returned curve has exactly the target length when the
    target is at most the length of the sampled curve; it is never longer
    than the target; and it is shorter only when the sampled curve is
    shorter than the target, and then it is the sampled curve. *)
Theorem generateCurve_length (fuel : nat) (curveType : string) (startX startY : Q)
  (controlPoints : list Point.t) (length : Q) (resolution : positive) :
  0 < length ->
  (Pos.to_nat resolution + 2 <= fuel)%nat ->
  exists raw curve : list Point.t,
    sampledCurve hypot atan2 cos sin fuel curveType startX startY controlPoints
      resolution = Some raw
    /\ generateCurve hypot atan2 cos sin fuel curveType startX startY controlPoints
         length resolution = Some curve
    /\ (length <= polylineLength hypot raw -> polylineLength hypot curve == length)
    /\ polylineLength hypot curve <= length
    /\ (polylineLength hypot curve < length ->
        polylineLength hypot raw < length /\ curve = raw).
Proof.
  intros Hpos Hfuel.
  assert (Hreturns : is_Some (generateCurve hypot atan2 cos sin fuel curveType startX
                                startY controlPoints length resolution)).
  { destruct controlPoints as [| c controlPoints].
    - rewrite generateCurve_head_only. eexists. reflexivity.
    - destruct (generateCurve_returns hypot atan2 cos sin curveType startX startY
                  (c :: controlPoints) length resolution fuel) as (samples & H & _);
        [discriminate | exact Hfuel |].
      rewrite H. eexists. reflexivity. }
  rewrite generateCurve_trims in Hreturns |- *.
  destruct (sampledCurve hypot atan2 cos sin fuel curveType startX startY controlPoints
              resolution) as [raw |]; [| destruct Hreturns as [? H]; discriminate H].
  exists raw, (trimCurveToLength hypot raw length).
  split; [reflexivity |]. split; [reflexivity |].
  destruct (Qlt_le_dec (polylineLength hypot raw) length) as [Hshort | Hlong].
  - rewrite trimCurveToLength_whole by assumption.
    split; [intros H; lra |]. split; [lra |]. intros _. split; [exact Hshort | reflexivity].
  - assert (Hexact : polylineLength hypot (trimCurveToLength hypot raw length) == length)
      by (apply trimCurveToLength_exact; assumption).
    split; [intros _; exact Hexact |]. split; [lra |]. intros H. lra.
Qed.

End CurveLength.

Section CurveLengthSamples.

Local Open Scope Q_scope.

(** The sample [hypot] is not negative and scales as the Euclidean length
    does. *)
Lemma axisHypot_compat (a a' b b' : Q) :
  a == a' -> b == b' -> Samples.axisHypot a b == Samples.axisHypot a' b'.
Proof. intros Ha Hb. unfold Samples.axisHypot. rewrite Ha, Hb. reflexivity. Qed.

Lemma axisHypot_nonneg (dx dy : Q) : 0 <= Samples.axisHypot dx dy.
Proof.
  unfold Samples.axisHypot.
  pose proof (Qabs_nonneg dx). pose proof (Qabs_nonneg dy). lra.
Qed.

Lemma axisHypot_scale (dx dy t : Q) :
  0 <= t -> Samples.axisHypot (dx * t) (dy * t) == t * Samples.axisHypot dx dy.
Proof.
  intros Ht. unfold Samples.axisHypot. rewrite !Qabs_Qmult, (Qabs_pos t Ht). ring.
Qed.

Lemma generateCurve_length_witness :
  exists raw curve : list Point.t,
    CurveParts.sampledCurve Samples.axisHypot Samples.noAngle Samples.noValue
      Samples.noValue 102 "L" 0 0 [Point.mk 10 0] 100 = Some raw
    /\ OsuParser.generateCurve Samples.axisHypot Samples.noAngle Samples.noValue
         Samples.noValue 102 "L" 0 0 [Point.mk 10 0] 4 100 = Some curve
    /\ (4 <= CurveSpec.polylineLength Samples.axisHypot raw ->
        CurveSpec.polylineLength Samples.axisHypot curve == 4)
    /\ CurveSpec.polylineLength Samples.axisHypot curve <= 4
    /\ (CurveSpec.polylineLength Samples.axisHypot curve < 4 ->
        CurveSpec.polylineLength Samples.axisHypot raw < 4 /\ curve = raw).
Proof.
  apply (generateCurve_length Samples.axisHypot Samples.noAngle Samples.noValue
           Samples.noValue axisHypot_compat axisHypot_nonneg axisHypot_scale
           102 "L" 0 0 [Point.mk 10 0] 4 100).
  - reflexivity.
  - vm_compute. lia.
Defined.

(** The claim C5 fails for a target that is negative, which the field of
    the length of a slider can hold: the line from (0, 0) to (10, 0) has the
    length 10, and trimmed to the target -5 it is the segment from the head
    back to (-5, 0), of the length 5, which is longer than the target and
    not within the tolerance of it. *)
Lemma generateCurve_negative_length :
  exists raw curve : list Point.t,
    (forall (atan2 : Q -> Q -> Q) (cos sin : Q -> Q),
        CurveParts.sampledCurve Samples.axisHypot atan2 cos sin 102 "L" 0 0
          [Point.mk 10 0] 100 = Some raw)
    /\ (forall (atan2 : Q -> Q -> Q) (cos sin : Q -> Q),
           OsuParser.generateCurve Samples.axisHypot atan2 cos sin 102 "L" 0 0
             [Point.mk 10 0] (-5) 100 = Some curve)
    /\ CurveSpec.polylineLength Samples.axisHypot raw == 10
    /\ -5 <= CurveSpec.polylineLength Samples.axisHypot raw
    /\ CurveSpec.polylineLength Samples.axisHypot curve == 5
    /\ ~ CurveSpec.polylineLength Samples.axisHypot curve <= -5
    /\ ~ Qabs (CurveSpec.polylineLength Samples.axisHypot curve - -5)
         <= (1 # 1000000) * Qabs (-5).
Proof.
  eexists. eexists.
  split; [intros; vm_compute; reflexivity |].
  split; [intros; vm_compute; reflexivity |].
  repeat split; vm_compute; congruence.
Qed.

End CurveLengthSamples.

(** ** The ball of a slider *)

Section SliderBall.

Import OsuGame.

Local Open Scope Q_scope.

(** [getSliderBallPosition] returns a point but for a slide of 0 ms along
    a curve of two points or more. *)
Lemma getSliderBallPosition_returns (slider : Obj.t) (elapsed : Q) :
  (List.length (Obj.curvePoints slider) < 2)%nat \/ ~ Obj.slideDuration slider == 0 ->
  is_Some (getSliderBallPosition slider elapsed).
Proof.
  intros H. unfold getSliderBallPosition.
  destruct (List.length (Obj.curvePoints slider) <? 2)%nat eqn:E; [eexists; reflexivity |].
  apply Nat.ltb_ge in E. destruct H as [H | H]; [lia |].
  destruct (Qeq_bool (Obj.slideDuration slider) 0) eqn:E0;
    [apply Qeq_bool_iff in E0; contradiction |].
  cbv zeta.
  set (curveProgress := Qmax 0 (Qmin 1 _)).
  set (totalLength := (Z.of_nat (List.length (Obj.curvePoints slider)) - 1)%Z).
  set (index := Qfloor (curveProgress * inject_Z totalLength)).
  assert (Hindex : (0 <= index)%Z).
  { change 0%Z with (Qfloor 0). apply Qfloor_resp_le.
    apply Qmult_le_0_compat; [apply Q.le_max_l |].
    change 0 with (inject_Z 0). rewrite <- Zle_Qle. lia. }
  destruct (totalLength <=? index)%Z eqn:Ei.
  - apply lookup_lt_is_Some. lia.
  - apply Z.leb_gt in Ei.
    destruct (lookup_lt_is_Some_2 (Obj.curvePoints slider) (Z.to_nat index)) as [p1 H1];
      [lia |].
    destruct (lookup_lt_is_Some_2 (Obj.curvePoints slider) (Z.to_nat (index + 1)))
      as [p2 H2]; [lia |].
    rewrite H1, H2. eexists; reflexivity.
Qed.

(** No operation of the game changes the curve or the duration of an
    object, so that the objects stay playable. *)
Lemma updateObject_playable (f : Obj.t -> Obj.t) (i : nat) :
  (forall o, Obj.curvePoints (f o) = Obj.curvePoints o
             /\ Obj.slideDuration (f o) = Obj.slideDuration o) ->
  Invariants.keepsPlayable (updateObject f i).
Proof.
  intros Hf g Hall. unfold updateObject. simpl.
  apply Forall_alter; [exact Hall |].
  intros o _ Ho. destruct (Hf o) as [Hc Hd]. unfold Invariants.playable.
  rewrite Hc, Hd. exact Ho.
Qed.

Ltac playable_step :=
  intros g Hall; simpl;
  repeat match goal with
         | |- Forall Invariants.playable (alter _ _ _) =>
             apply Forall_alter; [| intros [] _ Ho; try destruct (_ && _); exact Ho]
         end; exact Hall.

Lemma startSlider_playable i v : Invariants.keepsPlayable (startSlider i v).
Proof. playable_step. Qed.

Lemma processHit_playable i v : Invariants.keepsPlayable (processHit i v).
Proof. playable_step. Qed.

Lemma processMiss_playable i : Invariants.keepsPlayable (processMiss i).
Proof. playable_step. Qed.

Lemma processSliderMiss_playable i : Invariants.keepsPlayable (processSliderMiss i).
Proof. playable_step. Qed.

Lemma breakTracking_playable i : Invariants.keepsPlayable (breakTracking i).
Proof. playable_step. Qed.

Lemma awardTicks_playable i n : Invariants.keepsPlayable (awardTicks i n).
Proof. playable_step. Qed.

Lemma completeSlider_playable i : Invariants.keepsPlayable (completeSlider i).
Proof.
  intros g Hall. unfold completeSlider.
  destruct (hitObjects g !! i) as [slider |]; [| exact Hall].
  revert g Hall. playable_step.
Qed.

Lemma processHitAtPosition_playable osuPos currentTime :
  Invariants.keepsPlayable (processHitAtPosition osuPos currentTime).
Proof.
  intros g Hall. unfold processHitAtPosition.
  induction (activeObjects g) as [| i rest IH]; simpl; [exact Hall |].
  destruct (hitObjects g !! i) as [obj |]; [| exact IH].
  destruct (negb _); [exact IH |].
  destruct (JS.Qgtb _ _); [exact IH |].
  destruct (hypotLe _ _ _); [| exact IH].
  destruct (Obj.type obj).
  - apply processHit_playable.
    apply (updateObject_playable _ i); [intros []; split; reflexivity | exact Hall].
  - apply startSlider_playable, Hall.
Qed.

Lemma activateObjects_playable n currentTime approachTime :
  Invariants.keepsPlayable (activateObjects n currentTime approachTime).
Proof.
  induction n as [| n IH]; intros g Hall; simpl; [exact Hall |].
  destruct (hitObjects g !! nextObjectIndex g) as [obj |]; [| exact Hall].
  destruct (negb _); [apply IH, Hall |].
  destruct (Qle_bool _ _); [| exact Hall].
  apply IH. simpl. apply Forall_alter; [exact Hall | intros [] _ Ho; exact Ho].
Qed.

Lemma checkMisses_playable n currentTime hitWindows :
  Invariants.keepsPlayable (checkMisses n currentTime hitWindows).
Proof.
  induction n as [| n IH]; intros g Hall; simpl; [exact Hall |].
  apply IH.
  destruct (activeObjects g !! n) as [o |]; [| exact Hall].
  destruct (hitObjects g !! o) as [obj |]; [| exact Hall].
  destruct (HitState_eqb _ _); [| exact Hall].
  destruct (Obj.type obj); destruct (JS.Qgtb _ _);
    first [exact Hall | apply processMiss_playable, Hall
          | apply processSliderMiss_playable, Hall].
Qed.

(** The body of the loop of [updateSliders] returns for a playable object,
    and so do the loop, [update] and a whole session. *)
Lemma updateSlider_returns currentTime osuPos holding followRadius (i : nat) (g : game) :
  Forall Invariants.playable (hitObjects g) ->
  exists g', updateSlider currentTime osuPos holding followRadius i g = Some g'
             /\ Forall Invariants.playable (hitObjects g').
Proof.
  intros Hall. unfold updateSlider.
  destruct (hitObjects g !! i) as [obj |] eqn:Hobj; [| eauto].
  destruct (negb _); [eauto |].
  assert (Hplay : Invariants.playable obj).
  { rewrite Forall_lookup in Hall. exact (Hall i obj Hobj). }
  destruct (getSliderBallPosition_returns obj
              (Qmax 0 (Qmin (currentTime - inject_Z (Obj.time obj)) (Obj.totalDuration obj)))
              Hplay) as [ballPos Hball].
  rewrite Hball. simpl. eexists. split; [reflexivity |].
  repeat match goal with
         | |- Forall _ (hitObjects (if ?c then _ else _)) => destruct c
         | |- Forall _ (hitObjects (completeSlider _ _)) => apply completeSlider_playable
         | |- Forall _ (hitObjects (awardTicks _ _ _)) => apply awardTicks_playable
         | |- Forall _ (hitObjects (breakTracking _ _)) => apply breakTracking_playable
         end;
    (apply (updateObject_playable _ i); [intros []; split; reflexivity | exact Hall]).
Qed.

Lemma updateSlidersFrom_returns n currentTime osuPos holding followRadius (g : game) :
  Forall Invariants.playable (hitObjects g) ->
  exists g', updateSlidersFrom n currentTime osuPos holding followRadius g = Some g'
             /\ Forall Invariants.playable (hitObjects g').
Proof.
  revert g. induction n as [| n IH]; intros g Hall; simpl; [eauto |].
  destruct (activeObjects g !! n) as [o |]; simpl; [| apply IH, Hall].
  destruct (updateSlider_returns currentTime osuPos holding followRadius o g Hall)
    as (g1 & H1 & Hall1).
  rewrite H1. simpl. apply IH, Hall1.
Qed.

Lemma update_returns currentTime osuPos holding (g : game) :
  Forall Invariants.playable (hitObjects g) ->
  exists g', update currentTime osuPos holding g = Some g'
             /\ Forall Invariants.playable (hitObjects g').
Proof.
  intros Hall. unfold update, updateSliders. cbv zeta.
  match goal with
  | |- context [updateSlidersFrom ?n ?t ?p ?h ?r ?g2] =>
      destruct (updateSlidersFrom_returns n t p h r g2) as (g3 & H3 & Hall3);
      [apply checkMisses_playable, activateObjects_playable, Hall | rewrite H3]
  end.
  simpl. destruct (_ && _); eexists; (split; [reflexivity | exact Hall3]).
Qed.

Lemma handleEvents_returns (events : list event) (g : game) :
  Forall Invariants.playable (hitObjects g) ->
  is_Some (handleEvents events g).
Proof.
  revert g. induction events as [| e events IH]; intros g Hall; simpl; [eauto |].
  assert (H : exists g', handleEvent e g = Some g'
                         /\ Forall Invariants.playable (hitObjects g')).
  { unfold handleEvent. destruct (currentState g); eauto.
    destruct e as [currentTime osuPos holding | currentTime osuPos].
    - apply update_returns, Hall.
    - eexists. split; [reflexivity | apply processHitAtPosition_playable, Hall]. }
  destruct H as (g1 & H1 & Hall1). rewrite H1. simpl. apply IH, Hall1.
Qed.

End SliderBall.

(** ** Sessions as sequences of writes *)

Section Session.

Import OsuParser OsuGame Lifecycle.

Local Open Scope Q_scope.

Lemma HitState_eqb_eq (a b : HitState) : HitState_eqb a b = true <-> a = b.
Proof. destruct a, b; simpl; split; congruence. Qed.

Lemma HitState_eqb_neq (a b : HitState) : HitState_eqb a b = false <-> a <> b.
Proof. destruct a, b; simpl; split; congruence. Qed.

(** The names of the parts of a write, for the proofs by cases. *)
Ltac step_cases H :=
  destruct H as
    [g obj Hplay Hobj Hstate
    | g obj Hplay Hobj Hstate Htime
    | g osuPos i obj Hplay Hi Hobj Hq Htype
    | g osuPos i obj Hplay Hi Hobj Hq Htype
    | g i obj Hplay Hi Hobj Hstate Htype Htime
    | g i obj Hplay Hi Hobj Hstate Htype Htime
    | g i obj ballPos Hplay Hi Hobj Hstate Hball
    | g i obj Hplay Hi Hobj Hstate Htr Hbr
    | g i obj Hplay Hi Hobj Hstate Htr Hbr Hnew
    | g i obj Hplay Hi Hobj Hstate Hend
    | g Hplay Hhealth Hfailed].

Ltac step_simpl :=
  cbv zeta;
  cbn [processHit startSlider processMiss processSliderMiss breakTracking awardTicks
       removeActiveObject setActiveObjects setNextObjectIndex setStats setCurrentState
       markFailed updateObject setHitObjects
       hitObjects stats activeObjects nextObjectIndex currentState difficulty].

Lemma activateObjects_steps (n : nat) (currentTime : Q) (g : game) :
  currentState g = PLAYING ->
  rtc (step currentTime) g
    (activateObjects n currentTime (getApproachTime (approachRate (difficulty g))) g).
Proof.
  revert g. induction n as [| n IH]; intros g Hplay; [apply rtc_refl |].
  cbn [activateObjects].
  destruct (hitObjects g !! nextObjectIndex g) as [obj |] eqn:Hobj; [| apply rtc_refl].
  destruct (HitState_eqb (Obj.state obj) PENDING) eqn:Hstate; cbn [negb].
  - apply HitState_eqb_eq in Hstate.
    destruct (Qle_bool _ _) eqn:Htime; [| apply rtc_refl].
    apply Qle_bool_iff in Htime.
    eapply rtc_l; [exact (step_activate currentTime g obj Hplay Hobj Hstate Htime) |].
    match goal with |- rtc _ ?g' _ => exact (IH g' Hplay) end.
  - apply HitState_eqb_neq in Hstate.
    eapply rtc_l; [exact (step_skip currentTime g obj Hplay Hobj Hstate) |].
    match goal with |- rtc _ ?g' _ => exact (IH g' Hplay) end.
Qed.

Lemma checkMisses_steps (n : nat) (currentTime : Q) (g : game) :
  currentState g = PLAYING ->
  rtc (step currentTime) g
    (checkMisses n currentTime (getHitWindows (overallDifficulty (difficulty g))) g)
  /\ currentState
       (checkMisses n currentTime (getHitWindows (overallDifficulty (difficulty g))) g)
     = PLAYING.
Proof.
  revert g. induction n as [| n IH]; intros g Hplay; [split; [apply rtc_refl | exact Hplay] |].
  cbn [checkMisses]. cbv zeta.
  destruct (activeObjects g !! n) as [i |] eqn:Hi; [| apply IH; exact Hplay].
  destruct (hitObjects g !! i) as [obj |] eqn:Hobj; [| apply IH; exact Hplay].
  destruct (HitState_eqb (Obj.state obj) ACTIVE) eqn:Hstate; [| apply IH; exact Hplay].
  apply HitState_eqb_eq in Hstate.
  apply list_elem_of_lookup_2 in Hi.
  destruct (Obj.type obj) eqn:Htype;
    (destruct (JS.Qgtb _ _) eqn:Htime; [| apply IH; exact Hplay]);
    apply Qgtb_gt in Htime.
  - destruct (IH (processMiss i g) Hplay) as [Hsteps Hplay'].
    split; [| exact Hplay'].
    eapply rtc_l; [exact (step_miss currentTime g i obj Hplay Hi Hobj Hstate Htype Htime) |].
    exact Hsteps.
  - destruct (IH (processSliderMiss i g) Hplay) as [Hsteps Hplay'].
    split; [| exact Hplay'].
    eapply rtc_l;
      [exact (step_slider_miss currentTime g i obj Hplay Hi Hobj Hstate Htype Htime) |].
    exact Hsteps.
Qed.

(** A press changes nothing, or it is the hit of the first object of
    [activeObjects] that qualifies. *)
Lemma processHitLoop_cases osuPos currentTime (g : game) (active : list nat) :
  (Forall (fun j => InputSpec.qualifies g osuPos currentTime j = false) active
   /\ processHitLoop osuPos currentTime
        (getHitWindows (overallDifficulty (difficulty g)))
        (getCircleRadius (circleSize (difficulty g))) active g = g)
  \/ exists (i : nat) (obj : Obj.t),
       i ∈ active
       /\ hitObjects g !! i = Some obj
       /\ InputSpec.qualifies g osuPos currentTime i = true
       /\ processHitLoop osuPos currentTime
            (getHitWindows (overallDifficulty (difficulty g)))
            (getCircleRadius (circleSize (difficulty g))) active g
          = let hitValue :=
              hitQuality (getHitWindows (overallDifficulty (difficulty g)))
                (Qabs (currentTime - inject_Z (Obj.time obj))) in
            match Obj.type obj with
            | slider => startSlider i hitValue g
            | circle =>
                processHit i hitValue
                  (updateObject (Obj.setState (InputSpec.hitState hitValue)) i g)
            end.
Proof.
  induction active as [| i rest IH]; [left; split; [constructor | reflexivity] |].
  destruct (InputSpec.qualifies g osuPos currentTime i) eqn:Hq.
  - right.
    destruct (hitObjects g !! i) as [obj |] eqn:Hobj;
      [| unfold InputSpec.qualifies in Hq; rewrite Hobj in Hq; discriminate Hq].
    exists i, obj. split; [left |]. split; [exact Hobj |]. split; [exact Hq |].
    exact (processHitLoop_take _ _ _ _ _ _ Hobj Hq).
  - rewrite processHitLoop_skip by exact Hq.
    destruct IH as [[Hall Heq] | (j & obj & Hj & Hobj & Hqj & Heq)].
    + left. split; [constructor; assumption | exact Heq].
    + right. exists j, obj. split; [right; exact Hj |]. auto.
Qed.

Lemma processHitAtPosition_steps osuPos currentTime (g : game) :
  currentState g = PLAYING ->
  rtc (step currentTime) g (processHitAtPosition osuPos currentTime g).
Proof.
  intros Hplay. unfold processHitAtPosition.
  destruct (processHitLoop_cases osuPos currentTime g (activeObjects g))
    as [[_ ->] | (i & obj & Hi & Hobj & Hq & ->)]; [apply rtc_refl |].
  cbv zeta. destruct (Obj.type obj) eqn:Htype; apply rtc_once.
  - exact (step_hit currentTime g osuPos i obj Hplay Hi Hobj Hq Htype).
  - exact (step_start currentTime g osuPos i obj Hplay Hi Hobj Hq Htype).
Qed.

Lemma lookup_updateObject (f : Obj.t -> Obj.t) (i : nat) (g : game) (obj : Obj.t) :
  hitObjects g !! i = Some obj -> hitObjects (updateObject f i g) !! i = Some (f obj).
Proof.
  intros H. cbn [updateObject setHitObjects hitObjects].
  rewrite list_lookup_alter_eq, H. reflexivity.
Qed.

Lemma updateSlider_steps currentTime osuPos holding followRadius (i : nat) (g g' : game) :
  currentState g = PLAYING ->
  i ∈ activeObjects g ->
  updateSlider currentTime osuPos holding followRadius i g = Some g' ->
  rtc (step currentTime) g g'.
Proof.
  intros Hplay Hi. unfold updateSlider.
  destruct (hitObjects g !! i) as [obj |] eqn:Hobj;
    [| intros H; injection H as <-; apply rtc_refl].
  destruct (HitState_eqb (Obj.state obj) SLIDING) eqn:Hstate; cbn [negb];
    [| intros H; injection H as <-; apply rtc_refl].
  apply HitState_eqb_eq in Hstate.
  destruct (getSliderBallPosition obj _) as [ballPos |] eqn:Hball;
    [| discriminate]. cbn [mbind option_bind]. cbv zeta.
  intros H; injection H as <-.
  set (g1 := updateObject (Obj.setCurrentBall ballPos) i g).
  assert (H1 : step currentTime g g1)
    by exact (step_ball currentTime g i obj ballPos Hplay Hi Hobj Hstate Hball).
  pose proof (lookup_updateObject (Obj.setCurrentBall ballPos) i g obj Hobj) as Hobj1.
  fold g1 in Hobj1.
  assert (Hcomplete : forall g3 : game,
            currentState g3 = PLAYING -> i ∈ activeObjects g3 ->
            (exists obj3, hitObjects g3 !! i = Some obj3 /\ Obj.state obj3 = SLIDING
                          /\ Obj.totalDuration obj3 = Obj.totalDuration obj
                          /\ Obj.time obj3 = Obj.time obj) ->
            rtc (step currentTime) g3
              (if JS.Qgeb (currentTime - inject_Z (Obj.time obj)) (Obj.totalDuration obj)
               then completeSlider i g3 else g3)).
  { intros g3 Hplay3 Hi3 (obj3 & Hobj3 & Hstate3 & Htotal & Htime).
    destruct (JS.Qgeb _ _) eqn:Hend; [| apply rtc_refl].
    apply Qgeb_ge in Hend. apply rtc_once.
    apply (step_complete currentTime g3 i obj3 Hplay3 Hi3 Hobj3 Hstate3).
    rewrite Htotal, Htime. exact Hend. }
  eapply rtc_l; [exact H1 |].
  destruct (Obj.tracking obj && negb (Obj.trackingBroken obj) && _) eqn:Hlost.
  - (* the tracking is lost *)
    apply andb_true_iff in Hlost as [Hlost _].
    apply andb_true_iff in Hlost as [Htr Hbr]. apply negb_true_iff in Hbr.
    cbn [andb].
    eapply rtc_l;
      [exact (step_break currentTime g1 i _ Hplay Hi Hobj1 Hstate Htr Hbr) |].
    apply Hcomplete; [exact Hplay | exact Hi |].
    exists (Obj.setTracking false true (Obj.setCurrentBall ballPos obj)).
    split; [| repeat split; assumption].
    exact (lookup_updateObject _ i g1 _ Hobj1).
  - destruct (Obj.tracking obj && negb (Obj.trackingBroken obj)
              && (0 <? Obj.totalTicks obj)%Z) eqn:Hticks.
    + apply andb_true_iff in Hticks as [Hticks _].
      apply andb_true_iff in Hticks as [Htr Hbr]. apply negb_true_iff in Hbr.
      destruct (0 <? Z.max 0 _)%Z eqn:Hnew.
      * apply Z.ltb_lt in Hnew.
        eapply rtc_l;
          [exact (step_ticks currentTime g1 i (Obj.setCurrentBall ballPos obj)
                    Hplay Hi Hobj1 Hstate Htr Hbr Hnew) |].
        apply Hcomplete; [exact Hplay | exact Hi |].
        eexists. split; [exact (lookup_updateObject _ i g1 _ Hobj1) |].
        repeat split; assumption.
      * apply Hcomplete; [exact Hplay | exact Hi |].
        exists (Obj.setCurrentBall ballPos obj). repeat split; assumption.
    + apply Hcomplete; [exact Hplay | exact Hi |].
      exists (Obj.setCurrentBall ballPos obj). repeat split; assumption.
Qed.

Lemma sameSetting_refl (g : game) : sameSetting g g.
Proof. split; reflexivity. Qed.

Lemma sameSetting_trans (g1 g2 g3 : game) :
  sameSetting g1 g2 -> sameSetting g2 g3 -> sameSetting g1 g3.
Proof. intros [H1 H2] [H3 H4]. split; congruence. Qed.

Lemma completeSlider_setting (i : nat) (g : game) : sameSetting g (completeSlider i g).
Proof.
  unfold completeSlider. destruct (hitObjects g !! i); split; reflexivity.
Qed.

Lemma activateObjects_setting (n : nat) currentTime approachTime (g : game) :
  sameSetting g (activateObjects n currentTime approachTime g).
Proof.
  revert g. induction n as [| n IH]; intros g; [apply sameSetting_refl |].
  cbn [activateObjects].
  destruct (hitObjects g !! nextObjectIndex g) as [obj |]; [| apply sameSetting_refl].
  destruct (negb _).
  - eapply sameSetting_trans; [| apply IH]. split; reflexivity.
  - destruct (Qle_bool _ _); [| apply sameSetting_refl].
    eapply sameSetting_trans; [| apply IH]. split; reflexivity.
Qed.

Lemma checkMisses_setting (n : nat) currentTime hitWindows (g : game) :
  sameSetting g (checkMisses n currentTime hitWindows g).
Proof.
  revert g. induction n as [| n IH]; intros g; [apply sameSetting_refl |].
  cbn [checkMisses]. cbv zeta.
  eapply sameSetting_trans; [| apply IH].
  destruct (activeObjects g !! n) as [i |]; [| apply sameSetting_refl].
  destruct (hitObjects g !! i) as [obj |]; [| apply sameSetting_refl].
  destruct (HitState_eqb _ _); [| apply sameSetting_refl].
  destruct (Obj.type obj); destruct (JS.Qgtb _ _);
    first [apply sameSetting_refl | split; reflexivity].
Qed.

Lemma updateSlider_setting currentTime osuPos holding followRadius (i : nat)
  (g g' : game) :
  updateSlider currentTime osuPos holding followRadius i g = Some g' ->
  sameSetting g g'.
Proof.
  unfold updateSlider.
  destruct (hitObjects g !! i) as [obj |];
    [| intros H; injection H as <-; apply sameSetting_refl].
  destruct (negb _); [intros H; injection H as <-; apply sameSetting_refl |].
  destruct (getSliderBallPosition obj _) as [ballPos |]; [| discriminate].
  cbn [mbind option_bind]. cbv zeta. intros H; injection H as <-.
  repeat match goal with
         | |- sameSetting _ (completeSlider _ _) =>
             eapply sameSetting_trans; [| apply completeSlider_setting]
         | |- context [if ?c then _ else _] => destruct c
         end;
    split; reflexivity.
Qed.

Lemma updateSlidersFrom_steps (n : nat) currentTime osuPos holding followRadius
  (g g' : game) :
  currentState g = PLAYING ->
  updateSlidersFrom n currentTime osuPos holding followRadius g = Some g' ->
  rtc (step currentTime) g g' /\ sameSetting g g'.
Proof.
  revert g. induction n as [| n IH]; intros g Hplay; cbn [updateSlidersFrom].
  - intros H; injection H as <-. split; [apply rtc_refl | apply sameSetting_refl].
  - destruct (activeObjects g !! n) as [i |] eqn:Hi.
    + destruct (updateSlider _ _ _ _ i g) as [g1 |] eqn:H1; [| discriminate].
      cbn [mbind option_bind]. intros H.
      pose proof (updateSlider_setting _ _ _ _ _ _ _ H1) as Hset.
      apply list_elem_of_lookup_2 in Hi.
      pose proof (updateSlider_steps _ _ _ _ _ _ _ Hplay Hi H1) as Hsteps.
      destruct (IH g1) with (2 := H) as [Hsteps' Hset'];
        [destruct Hset as [-> _]; exact Hplay |].
      split; [eapply rtc_trans; eassumption
             | eapply sameSetting_trans; eassumption].
    + cbn [mbind option_bind]. apply IH. exact Hplay.
Qed.

(** What [update] checks last: the game that it returns is marked as
    failed, or its health is positive. *)
Lemma update_steps currentTime osuPos holding (g g' : game) :
  currentState g = PLAYING ->
  update currentTime osuPos holding g = Some g' ->
  rtc (step currentTime) g g'
  /\ (Stats.failed (stats g') = true \/ 0 < Stats.health (stats g')).
Proof.
  intros Hplay. unfold update. cbv zeta.
  set (g1 := activateObjects _ _ _ g).
  pose proof (activateObjects_steps (List.length (hitObjects g)) currentTime g Hplay)
    as H1. fold g1 in H1.
  destruct (activateObjects_setting (List.length (hitObjects g)) currentTime
              (getApproachTime (approachRate (difficulty g))) g) as [Hs1 Hd1].
  fold g1 in Hs1, Hd1.
  rewrite <- Hd1.
  assert (Hplay1 : currentState g1 = PLAYING) by congruence.
  destruct (checkMisses_steps (List.length (activeObjects g1)) currentTime g1 Hplay1)
    as [H2 Hplay2].
  set (g2 := checkMisses _ _ _ g1) in *.
  unfold updateSliders.
  destruct (updateSlidersFrom _ _ _ _ _ g2) as [g3 |] eqn:H3; [| discriminate].
  cbn [mbind option_bind].
  destruct (updateSlidersFrom_steps _ _ _ _ _ _ _ Hplay2 H3) as [Hsteps3 [Hs3 _]].
  assert (Hto3 : rtc (step currentTime) g g3).
  { eapply rtc_trans; [exact H1 |].
    eapply rtc_trans; [exact H2 | exact Hsteps3]. }
  destruct (Qle_bool _ _) eqn:Hhealth; cbn [andb].
  - destruct (Stats.failed (stats g3)) eqn:Hfailed; cbn [negb];
      intros H; injection H as <-.
    + split; [exact Hto3 | left; exact Hfailed].
    + split; [| left; reflexivity].
      apply Qle_bool_iff in Hhealth.
      eapply rtc_r; [exact Hto3 |].
      apply (step_fail currentTime g3); [congruence | exact Hhealth | exact Hfailed].
  - intros H; injection H as <-. split; [exact Hto3 |].
    right. apply Qle_bool_gt. exact Hhealth.
Qed.

Lemma handleEvent_steps (e : event) (g g' : game) :
  handleEvent e g = Some g' -> rtc (step (eventTime e)) g g'.
Proof.
  unfold handleEvent.
  destruct (currentState g) eqn:Hplay;
    try (intros H; injection H as <-; apply rtc_refl).
  destruct e as [currentTime osuPos holding | currentTime osuPos]; cbn [eventTime].
  - intros H. apply (update_steps _ _ _ _ _ Hplay H).
  - intros H; injection H as <-. apply processHitAtPosition_steps. exact Hplay.
Qed.

Lemma step_moves (currentTime : Q) (g g' : game) :
  rtc (step currentTime) g g' -> rtc moves g g'.
Proof.
  apply rtc_subrel. intros x y H. exists currentTime. exact H.
Qed.

Lemma handleEvents_steps (events : list event) (g g' : game) :
  handleEvents events g = Some g' -> rtc moves g g'.
Proof.
  revert g. induction events as [| e rest IH]; intros g; cbn [handleEvents].
  - intros H; injection H as <-. apply rtc_refl.
  - destruct (handleEvent e g) as [g1 |] eqn:H1; [| discriminate].
    cbn [mbind option_bind]. intros H.
    eapply rtc_trans; [| exact (IH _ H)].
    exact (step_moves _ _ _ (handleEvent_steps _ _ _ H1)).
Qed.

(** A property that every write keeps holds along a session. *)
Lemma moves_invariant (P : game -> Prop) :
  (forall (currentTime : Q) (g g' : game), step currentTime g g' -> P g -> P g') ->
  forall g g' : game, rtc moves g g' -> P g -> P g'.
Proof.
  intros Hstep g g' H. induction H as [| g g1 g' [currentTime H1] _ IH]; [auto |].
  intros HP. apply IH. exact (Hstep _ _ _ H1 HP).
Qed.

(** *** Health *)

Lemma health_gain (h a : Q) :
  0 <= h <= 100 -> 0 <= a -> 0 <= Qmin 100 (h + a) <= 100 /\ h <= Qmin 100 (h + a).
Proof.
  intros Hh Ha.
  destruct (Q.min_spec 100 (h + a)) as [[H1 H2] | [H1 H2]];
    rewrite H2; lra.
Qed.

Lemma health_loss (h a : Q) :
  0 <= h <= 100 -> 0 <= a -> 0 <= Qmax 0 (h - a) <= 100.
Proof.
  intros Hh Ha.
  destruct (Q.max_spec 0 (h - a)) as [[H1 H2] | [H1 H2]];
    rewrite H2; lra.
Qed.

Lemma hitQuality_values (w : hitWindows) (d : Q) :
  hitQuality w d = 300%Z \/ hitQuality w d = 100%Z \/ hitQuality w d = 50%Z.
Proof.
  unfold hitQuality. destruct (Qle_bool d (hit300 w)); [auto |].
  destruct (Qle_bool d (hit100 w)); auto.
Qed.

Lemma sliderHitValue_values (slider : Obj.t) :
  sliderHitValue slider = 300%Z \/ sliderHitValue slider = 100%Z
  \/ sliderHitValue slider = 50%Z \/ sliderHitValue slider = 0%Z.
Proof.
  unfold sliderHitValue. destruct (_ && _); [auto |].
  destruct (JS.Qgeb _ _); [auto |]. destruct (JS.Qgtb _ _); auto.
Qed.

Lemma completeSlider_eq (i : nat) (g : game) (slider : Obj.t) :
  hitObjects g !! i = Some slider ->
  completeSlider i g
  = let bonus := Obj.tracking slider && negb (Obj.trackingBroken slider) in
    let g := updateObject
               (fun o => if bonus then Obj.setEndHit true (Obj.setState HIT_300 o)
                         else Obj.setState HIT_300 o) i g in
    let s := stats g in
    let score := if bonus then (Stats.score s + 30)%Z else Stats.score s in
    let hitValue := sliderHitValue slider in
    let health :=
      if (0 <? hitValue)%Z then Qmin 100 (Stats.health s + inject_Z hitValue / 50)
      else Qmax 0 (Stats.health s - 5) in
    removeActiveObject i
      (setStats
         (Stats.mk score
            (if (hitValue =? 0)%Z then 0%Z else Stats.combo s)
            (Stats.maxCombo s)
            (if (hitValue =? 300)%Z then (Stats.hit300 s + 1)%Z else Stats.hit300 s)
            (if (hitValue =? 100)%Z then (Stats.hit100 s + 1)%Z else Stats.hit100 s)
            (if (hitValue =? 50)%Z then (Stats.hit50 s + 1)%Z else Stats.hit50 s)
            (if (hitValue =? 0)%Z then (Stats.misses s + 1)%Z else Stats.misses s)
            health (Stats.failed s)) g).
Proof. intros H. unfold completeSlider. rewrite H. reflexivity. Qed.

Lemma newSliderTicks_bound (obj : Obj.t) (currentTime : Q) :
  (0 < newSliderTicks obj currentTime)%Z ->
  (Obj.ticksHit obj + newSliderTicks obj currentTime <= Obj.totalTicks obj)%Z.
Proof. unfold newSliderTicks. lia. Qed.

Lemma step_healthy (currentTime : Q) (g g' : game) :
  step currentTime g g' -> healthy g -> healthy g'.
Proof.
  unfold healthy. intros Hstep Hh. step_cases Hstep; try exact Hh.
  - step_simpl. cbn [Stats.health].
    apply health_gain; [exact Hh |].
    destruct (hitQuality_values (getHitWindows (overallDifficulty (difficulty g)))
                (Qabs (currentTime - inject_Z (Obj.time obj)))) as [-> | [-> | ->]];
      vm_compute; discriminate.
  - cbn. apply health_loss; [exact Hh | lra].
  - cbn. apply health_loss; [exact Hh | lra].
  - step_simpl. cbn [Stats.health]. apply health_gain; [exact Hh |].
    change 0 with (inject_Z 0). rewrite <- Zle_Qle. lia.
  - rewrite (completeSlider_eq _ _ _ Hobj). step_simpl. cbn [Stats.health].
    destruct (sliderHitValue_values obj) as [-> | [-> | [-> | ->]]]; cbn [Z.ltb Z.compare];
      first [apply health_gain; [exact Hh | vm_compute; discriminate]
            | apply health_loss; [exact Hh | lra]].
Qed.

Lemma startCountdown_healthy (g : game) : healthy (startCountdown g).
Proof. unfold healthy. cbn. lra. Qed.

(** *** Judgements *)

Lemma resolvedCount_alter (f : Obj.t -> Obj.t) (i : nat) (l : list Obj.t) (o : Obj.t) :
  l !! i = Some o ->
  (resolvedCount (alter f i l) + isResolved o
   = resolvedCount l + isResolved (f o))%nat.
Proof.
  revert i. induction l as [| a l IH]; intros [| i]; cbn; try discriminate.
  - intros H; injection H as ->. lia.
  - intros H. specialize (IH i H). cbn in IH. lia.
Qed.

Lemma resolvedCount_le (l : list Obj.t) : (resolvedCount l <= List.length l)%nat.
Proof.
  induction l as [| a l IH]; cbn; [lia |].
  unfold isResolved. destruct (resolved _); lia.
Qed.

Lemma resolvedCount_all (l : list Obj.t) :
  Forall (fun o => resolved (Obj.state o) = true) l ->
  resolvedCount l = List.length l.
Proof.
  induction 1 as [| a l Ha _ IH]; cbn; [reflexivity |].
  unfold isResolved. rewrite Ha, IH. reflexivity.
Qed.

Lemma qualifies_active (g : game) osuPos currentTime (i : nat) (obj : Obj.t) :
  hitObjects g !! i = Some obj ->
  InputSpec.qualifies g osuPos currentTime i = true ->
  Obj.state obj = ACTIVE.
Proof.
  unfold InputSpec.qualifies. intros ->.
  destruct (HitState_eqb (Obj.state obj) ACTIVE) eqn:H; [| discriminate].
  intros _. apply HitState_eqb_eq. exact H.
Qed.

Lemma step_counted (currentTime : Q) (g g' : game) :
  step currentTime g g' -> counted g -> counted g'.
Proof.
  unfold counted, judged. intros Hstep Hc.
  step_cases Hstep;
    try exact Hc;
    try (apply (qualifies_active _ _ _ _ _ Hobj) in Hq; rename Hq into Hstate);
    try rewrite (completeSlider_eq _ _ _ Hobj);
    step_simpl; cbn [Stats.hit300 Stats.hit100 Stats.hit50 Stats.misses];
    match goal with
    | |- context [resolvedCount (alter ?f ?i _)] =>
        pose proof (resolvedCount_alter f i _ _ Hobj) as Hcount
    end;
    unfold isResolved in Hcount; cbn [Obj.setState Obj.setTracking Obj.setStartHitValue
      Obj.setTicksHit Obj.setCurrentBall Obj.state] in Hcount;
    rewrite Hstate in Hcount; cbn [resolved] in Hcount.
  - lia.
  - destruct (hitQuality_values (getHitWindows (overallDifficulty (difficulty g)))
                (Qabs (currentTime - inject_Z (Obj.time obj)))) as [Hv | [Hv | Hv]];
      rewrite Hv in Hcount |- *; cbn in Hcount |- *; lia.
  - lia.
  - lia.
  - lia.
  - lia.
  - lia.
  - lia.
  - assert (Hstate' : forall b : bool,
              Obj.state (if b then Obj.setEndHit true (Obj.setState HIT_300 obj)
                         else Obj.setState HIT_300 obj) = HIT_300)
      by (intros []; reflexivity).
    rewrite Hstate' in Hcount. cbn [resolved] in Hcount.
    destruct (sliderHitValue_values obj) as [-> | [-> | [-> | ->]]];
      cbn [Z.eqb Pos.eqb]; lia.
Qed.

Lemma resolvedCount_pending (l : list Obj.t) :
  resolvedCount (map (Obj.setState PENDING) l) = 0%nat.
Proof. induction l as [| a l IH]; cbn; [reflexivity | exact IH]. Qed.

Lemma startCountdown_counted (g : game) : counted (startCountdown g).
Proof.
  unfold counted, judged. cbn [startCountdown stats hitObjects].
  rewrite resolvedCount_pending. reflexivity.
Qed.

(** *** The life of an object *)

Lemma advances_refl (o : Obj.t) : advances o o.
Proof. unfold advances. repeat split; auto; lia. Qed.

Lemma advances_trans (o1 o2 o3 : Obj.t) :
  advances o1 o2 -> advances o2 o3 -> advances o1 o3.
Proof.
  intros (Hg1 & Hr1 & Hf1 & Ht1 & Hb1) (Hg2 & Hr2 & Hf2 & Ht2 & Hb2).
  unfold advances. split; [congruence |]. split; [lia |].
  split; [| split; [lia | auto]].
  intros H. specialize (Hf1 H). subst o2. auto.
Qed.

Lemma alter_advances (f : Obj.t -> Obj.t) (i : nat) (l : list Obj.t) :
  (forall o, l !! i = Some o -> advances o (f o)) ->
  Forall2 advances l (alter f i l).
Proof.
  revert i. induction l as [| a l IH]; intros [| i] H; cbn.
  - constructor.
  - constructor.
  - constructor; [apply H; reflexivity |].
    apply Forall2_same_length_lookup_2; [reflexivity |].
    intros j x y Hx Hy. assert (x = y) by congruence. subst y. apply advances_refl.
  - constructor; [apply advances_refl |]. apply IH. intros o Ho. apply H. exact Ho.
Qed.

Lemma Forall2_advances_refl (l : list Obj.t) : Forall2 advances l l.
Proof. induction l; constructor; [apply advances_refl | assumption]. Qed.

Lemma Forall2_advances_trans (l1 l2 l3 : list Obj.t) :
  Forall2 advances l1 l2 -> Forall2 advances l2 l3 -> Forall2 advances l1 l3.
Proof.
  intros H. revert l3. induction H as [| a b l1 l2 Hab _ IH]; intros l3 H3.
  - inversion H3. constructor.
  - inversion H3 as [| b' c l2' l3' Hbc Hrest]; subst.
    constructor; [exact (advances_trans _ _ _ Hab Hbc) | apply IH; exact Hrest].
Qed.

Lemma step_advances (currentTime : Q) (g g' : game) :
  step currentTime g g' -> Forall2 advances (hitObjects g) (hitObjects g').
Proof.
  intros Hstep.
  step_cases Hstep;
    try apply Forall2_advances_refl;
    try (apply (qualifies_active _ _ _ _ _ Hobj) in Hq; rename Hq into Hstate);
    try rewrite (completeSlider_eq _ _ _ Hobj);
    try pose proof (newSliderTicks_bound _ _ Hnew);
    step_simpl;
    apply alter_advances; intros o Ho;
    assert (o = obj) by congruence; subst o;
    unfold advances;
    try match goal with
        | |- context [if ?b then Obj.setEndHit _ _ else _] => destruct b
        end;
    try match goal with
        | |- context [InputSpec.hitState ?v] =>
            unfold InputSpec.hitState; destruct (v =? 300)%Z; [| destruct (v =? 100)%Z]
        end;
    cbn [geometry Obj.setState Obj.setTracking Obj.setStartHitValue Obj.setEndHit
         Obj.setTicksHit Obj.setCurrentBall Obj.state Obj.ticksHit Obj.totalTicks
         Obj.x Obj.y Obj.time Obj.type Obj.slides Obj.length Obj.curvePoints
         Obj.slideDuration Obj.totalDuration Obj.endX Obj.endY Obj.ticksPerSlide
         Obj.tickSpacing];
    rewrite Hstate; cbn [rank resolved];
    (split; [reflexivity |]); (split; [lia |]); (split; [discriminate |]);
    split; lia.
Qed.

Lemma steps_advances (g g' : game) :
  rtc moves g g' -> Forall2 advances (hitObjects g) (hitObjects g').
Proof.
  induction 1 as [| g g1 g' [currentTime Hstep] _ IH]; [apply Forall2_advances_refl |].
  eapply Forall2_advances_trans; [exact (step_advances _ _ _ Hstep) | exact IH].
Qed.

(** *** The active objects *)

Lemma spliceFirst_elem_of (i j : nat) (l : list nat) :
  StronglySorted lt l -> j ∈ spliceFirst i l <-> j ∈ l /\ j <> i.
Proof.
  induction l as [| a l IH]; intros Hs; cbn [spliceFirst].
  - split; [intros H; inversion H | intros [H _]; inversion H].
  - apply StronglySorted_inv in Hs as [Hs Ha].
    destruct (Nat.eqb a i) eqn:E.
    + apply Nat.eqb_eq in E. subst a. rewrite elem_of_cons.
      split.
      * intros Hj. split; [right; exact Hj |].
        rewrite Forall_forall in Ha. specialize (Ha j Hj). lia.
      * intros [[-> | Hj] Hne]; [contradiction | exact Hj].
    + apply Nat.eqb_neq in E. rewrite !elem_of_cons, (IH Hs).
      split.
      * intros [-> | [Hj Hne]]; [split; [left; reflexivity | exact E] |].
        split; [right; exact Hj | exact Hne].
      * intros [[-> | Hj] Hne]; [left; reflexivity | right; split; assumption].
Qed.

Lemma spliceFirst_sorted (i : nat) (l : list nat) :
  StronglySorted lt l -> StronglySorted lt (spliceFirst i l).
Proof.
  induction l as [| a l IH]; intros Hs; cbn [spliceFirst]; [constructor |].
  pose proof Hs as Hs'. apply StronglySorted_inv in Hs as [Hs Ha].
  destruct (Nat.eqb a i); [exact Hs |].
  constructor; [apply IH; exact Hs |].
  rewrite Forall_forall in Ha |- *. intros j Hj.
  apply Ha. apply (spliceFirst_elem_of i j l Hs) in Hj. tauto.
Qed.

(** The three kinds of writes: one that leaves the object active or
    sliding, one that judges it and takes it out of [activeObjects], and
    the activation. *)
Lemma wellFormed_keep (g : game) (f : Obj.t -> Obj.t) (i : nat) (s : Stats.t) :
  wellFormed g ->
  i ∈ activeObjects g ->
  (forall o, hitObjects g !! i = Some o ->
             Obj.state (f o) = ACTIVE \/ Obj.state (f o) = SLIDING) ->
  wellFormed (setStats s (updateObject f i g)).
Proof.
  intros (Hs & Hlt & Hlen & Hplaced) Hi Hf. unfold wellFormed.
  cbn [setStats updateObject setHitObjects activeObjects nextObjectIndex hitObjects].
  split; [exact Hs |]. split; [exact Hlt |].
  split; [rewrite length_alter; exact Hlen |].
  intros j o. rewrite list_lookup_alter. destruct (decide (i = j)) as [<- | Hne].
  - destruct (hitObjects g !! i) as [o0 |] eqn:Ho0; [| discriminate].
    cbn. intros H; injection H as <-. unfold placed.
    destruct (Hf o0 eq_refl) as [-> | ->]; exact Hi.
  - apply Hplaced.
Qed.

Lemma wellFormed_remove (g : game) (f : Obj.t -> Obj.t) (i : nat) (s : Stats.t) :
  wellFormed g ->
  i ∈ activeObjects g ->
  (forall o, hitObjects g !! i = Some o -> resolved (Obj.state (f o)) = true) ->
  wellFormed (removeActiveObject i (setStats s (updateObject f i g))).
Proof.
  intros (Hs & Hlt & Hlen & Hplaced) Hi Hf. unfold wellFormed.
  cbn [removeActiveObject setActiveObjects setStats updateObject setHitObjects
       activeObjects nextObjectIndex hitObjects].
  split; [apply spliceFirst_sorted; exact Hs |].
  split; [intros j Hj; apply Hlt; apply (spliceFirst_elem_of i j _ Hs) in Hj; tauto |].
  split; [rewrite length_alter; exact Hlen |].
  intros j o. rewrite list_lookup_alter. destruct (decide (i = j)) as [<- | Hne].
  - destruct (hitObjects g !! i) as [o0 |] eqn:Ho0; [| discriminate].
    cbn. intros H; injection H as <-. unfold placed.
    specialize (Hf o0 eq_refl).
    assert (Hout : (i < nextObjectIndex g)%nat /\ i ∉ spliceFirst i (activeObjects g)).
    { split; [apply Hlt; exact Hi |].
      intros Hin. apply (spliceFirst_elem_of i i _ Hs) in Hin. tauto. }
    destruct (Obj.state (f o0)); try discriminate Hf; exact Hout.
  - intros Ho. specialize (Hplaced j o Ho). unfold placed in *.
    destruct (Obj.state o); try exact Hplaced;
      first [ apply (spliceFirst_elem_of i j _ Hs); split; [exact Hplaced | congruence]
            | destruct Hplaced as [H1 H2]; split; [exact H1 |];
              intros Hin; apply (spliceFirst_elem_of i j _ Hs) in Hin; tauto ].
Qed.

Lemma wellFormed_activate (g : game) (o : Obj.t) :
  wellFormed g ->
  hitObjects g !! nextObjectIndex g = Some o ->
  wellFormed (setNextObjectIndex (S (nextObjectIndex g))
                (setActiveObjects (activeObjects g ++ [nextObjectIndex g])
                   (updateObject (Obj.setState ACTIVE) (nextObjectIndex g) g))).
Proof.
  intros (Hs & Hlt & Hlen & Hplaced) Ho. unfold wellFormed.
  cbn [setNextObjectIndex setActiveObjects updateObject setHitObjects
       activeObjects nextObjectIndex hitObjects].
  split.
  { apply StronglySorted_app_2; [| exact Hs | repeat constructor].
    intros a b Ha Hb. apply list_elem_of_singleton in Hb. subst b. apply Hlt. exact Ha. }
  split.
  { intros j Hj. apply elem_of_app in Hj as [Hj | Hj].
    - specialize (Hlt j Hj). lia.
    - apply list_elem_of_singleton in Hj. lia. }
  split.
  { rewrite length_alter. apply lookup_lt_Some in Ho. lia. }
  intros j oj. rewrite list_lookup_alter.
  destruct (decide (nextObjectIndex g = j)) as [<- | Hne].
  - rewrite Ho. cbn. intros H; injection H as <-. unfold placed. cbn.
    apply elem_of_app. right. apply list_elem_of_singleton. reflexivity.
  - intros Hoj. specialize (Hplaced j oj Hoj). unfold placed in *.
    destruct (Obj.state oj);
      first [ lia
            | apply elem_of_app; left; exact Hplaced
            | destruct Hplaced as [H1 H2]; split; [lia |];
              rewrite elem_of_app, list_elem_of_singleton;
              intros [H | H]; [tauto | lia] ].
Qed.

Lemma step_wellFormed (currentTime : Q) (g g' : game) :
  step currentTime g g' -> wellFormed g -> wellFormed g'.
Proof.
  intros Hstep Hwf. step_cases Hstep.
  - (* an object at the cursor that does not wait: there is none *)
    exfalso. destruct Hwf as (_ & Hlt & _ & Hplaced).
    specialize (Hplaced _ _ Hobj). unfold placed in Hplaced.
    destruct (Obj.state obj); try contradiction;
      first [specialize (Hlt _ Hplaced); lia | destruct Hplaced; lia].
  - apply wellFormed_activate with (o := obj); assumption.
  - cbv zeta. apply wellFormed_remove; [exact Hwf | exact Hi |].
    intros o _. unfold InputSpec.hitState.
    destruct (_ =? 300)%Z; [reflexivity |]. destruct (_ =? 100)%Z; reflexivity.
  - apply wellFormed_keep; [exact Hwf | exact Hi |]. intros o _. right. reflexivity.
  - apply wellFormed_remove; [exact Hwf | exact Hi |]. intros o _. reflexivity.
  - apply wellFormed_remove; [exact Hwf | exact Hi |]. intros o _. reflexivity.
  - apply (wellFormed_keep g (Obj.setCurrentBall ballPos) i (stats g));
      [exact Hwf | exact Hi |].
    intros o Ho. right. assert (o = obj) by congruence. subst o. exact Hstate.
  - apply wellFormed_keep; [exact Hwf | exact Hi |].
    intros o Ho. right. assert (o = obj) by congruence. subst o. exact Hstate.
  - apply wellFormed_keep; [exact Hwf | exact Hi |].
    intros o Ho. right. assert (o = obj) by congruence. subst o. exact Hstate.
  - rewrite (completeSlider_eq _ _ _ Hobj). cbv zeta.
    apply wellFormed_remove; [exact Hwf | exact Hi |].
    intros o _. destruct (_ && _); reflexivity.
  - exact Hwf.
Qed.

Lemma startCountdown_wellFormed (g : game) : wellFormed (startCountdown g).
Proof.
  unfold wellFormed. cbn [startCountdown activeObjects nextObjectIndex hitObjects].
  split; [constructor |]. split; [intros i Hi; inversion Hi |].
  split; [lia |].
  intros i o Ho. rewrite list_lookup_fmap in Ho.
  destruct (hitObjects g !! i); [| discriminate]. cbn in Ho. injection Ho as <-.
  unfold placed. cbn. lia.
Qed.

(** *** Failure *)

Lemma step_running (currentTime : Q) (g g' : game) :
  step currentTime g g' -> running g -> running g'.
Proof.
  intros Hstep Hrun.
  assert (Hfrom : currentState g = PLAYING) by (destruct Hstep; assumption).
  destruct Hrun as [[_ Hf] | [Hres _]]; [| congruence].
  step_cases Hstep;
    try rewrite (completeSlider_eq _ _ _ Hobj);
    first [ left; split; [exact Hplay | exact Hf]
          | right; split; [reflexivity |]; split; [reflexivity | exact Hhealth] ].
Qed.

Lemma handleEvents_stopped (events : list event) (g : game) :
  currentState g <> PLAYING -> handleEvents events g = Some g.
Proof.
  intros Hstop. induction events as [| e rest IH]; [reflexivity |].
  cbn [handleEvents]. unfold handleEvent.
  destruct (currentState g); try exact IH. contradiction.
Qed.

Lemma processHitAtPosition_health osuPos currentTime (g : game) :
  healthy g ->
  currentState (processHitAtPosition osuPos currentTime g) = currentState g
  /\ Stats.failed (stats (processHitAtPosition osuPos currentTime g))
     = Stats.failed (stats g)
  /\ Stats.misses (stats (processHitAtPosition osuPos currentTime g))
     = Stats.misses (stats g)
  /\ (Stats.combo (stats g)
      <= Stats.combo (stats (processHitAtPosition osuPos currentTime g)))%Z
  /\ Stats.health (stats g)
     <= Stats.health (stats (processHitAtPosition osuPos currentTime g)).
Proof.
  intros Hh. unfold processHitAtPosition.
  destruct (processHitLoop_cases osuPos currentTime g (activeObjects g))
    as [[_ ->] | (i & obj & Hi & Hobj & Hq & ->)].
  - repeat split; first [reflexivity | lia | lra].
  - cbv zeta. destruct (Obj.type obj); step_simpl;
      cbn [Stats.failed Stats.misses Stats.combo Stats.health].
    + repeat (split; [first [reflexivity | lia] |]).
      apply health_gain; [exact Hh |].
      destruct (hitQuality_values (getHitWindows (overallDifficulty (difficulty g)))
                  (Qabs (currentTime - inject_Z (Obj.time obj)))) as [-> | [-> | ->]];
        vm_compute; discriminate.
    + repeat (split; [first [reflexivity | lia] |]). lra.
Qed.

Lemma handleEvent_alive (e : event) (g g' : game) :
  healthy g -> alive g \/ lost g ->
  handleEvent e g = Some g' ->
  healthy g' /\ (alive g' \/ lost g').
Proof.
  intros Hh Hal He.
  pose proof (handleEvent_steps _ _ _ He) as Hsteps.
  assert (Hh' : healthy g').
  { revert Hh. apply (moves_invariant healthy step_healthy).
    exact (step_moves _ _ _ Hsteps). }
  split; [exact Hh' |].
  destruct Hal as [(Hplay & Hfailed & Hpos) | (Hres & Hfailed & Hzero)].
  - unfold handleEvent in He. rewrite Hplay in He.
    destruct e as [currentTime osuPos holding | currentTime osuPos].
    + destruct (update_steps _ _ _ _ _ Hplay He) as [Hupd Hcheck].
      assert (Hrun : running g').
      { apply (moves_invariant running step_running g g' (step_moves _ _ _ Hupd)).
        left. split; assumption. }
      destruct Hrun as [[Hplay' Hfailed'] | (Hres' & Hfailed' & Hzero')].
      * left. split; [exact Hplay' |]. split; [exact Hfailed' |].
        destruct Hcheck as [Hcheck | Hcheck]; [congruence | exact Hcheck].
      * right. split; [exact Hres' |]. split; [exact Hfailed' |].
        destruct Hh' as [Hge _]. apply Qle_antisym; assumption.
    + injection He as <-.
      destruct (processHitAtPosition_health osuPos currentTime g Hh)
        as (Hs & Hf & _ & _ & Hhealth).
      left. split; [congruence |]. split; [congruence | lra].
  - assert (g' = g); [| subst g'; right; split; [| split]; assumption].
    unfold handleEvent in He. rewrite Hres in He. congruence.
Qed.

Lemma handleEvents_alive (events : list event) (g g' : game) :
  healthy g -> alive g \/ lost g ->
  handleEvents events g = Some g' ->
  healthy g' /\ (alive g' \/ lost g').
Proof.
  revert g. induction events as [| e rest IH]; intros g Hh Hal; cbn [handleEvents].
  - intros H; injection H as <-. split; assumption.
  - destruct (handleEvent e g) as [g1 |] eqn:H1; [| discriminate].
    cbn [mbind option_bind]. intros H.
    destruct (handleEvent_alive _ _ _ Hh Hal H1) as [Hh1 Hal1].
    exact (IH g1 Hh1 Hal1 H).
Qed.

Lemma startCountdown_alive (g : game) : alive (startCountdown g).
Proof. unfold alive. cbn. repeat split. Qed.

(** *** The timing of a judgement *)

Lemma step_difficulty (currentTime : Q) (g g' : game) :
  step currentTime g g' -> difficulty g' = difficulty g.
Proof.
  intros Hstep. step_cases Hstep;
    try rewrite (completeSlider_eq _ _ _ Hobj); reflexivity.
Qed.

Lemma qualifies_window (g : game) osuPos currentTime (i : nat) (obj : Obj.t) :
  hitObjects g !! i = Some obj ->
  InputSpec.qualifies g osuPos currentTime i = true ->
  Qabs (currentTime - inject_Z (Obj.time obj))
  <= hit50 (getHitWindows (overallDifficulty (difficulty g))).
Proof.
  unfold InputSpec.qualifies. intros ->.
  destruct (HitState_eqb _ _); [| discriminate].
  destruct (Qle_bool _ _) eqn:H; [| discriminate].
  intros _. apply Qle_bool_iff. exact H.
Qed.

Lemma step_sound (windows : hitWindows) (currentTime : Q) (k : nat) (o : Obj.t)
  (g g' : game) :
  step currentTime g g' ->
  sound windows currentTime k o g -> sound windows currentTime k o g'.
Proof.
  intros Hstep (Hw & o1 & Ho1 & Hgeo & Hcircle & Hverdict).
  pose proof (step_difficulty _ _ _ Hstep) as Hd.
  split; [rewrite Hd; exact Hw |].
  assert (Hsame : forall l : list Obj.t, l !! k = Some o1 ->
                  exists o2, l !! k = Some o2 /\ geometry o2 = geometry o
                    /\ (Obj.type o = circle -> Obj.state o2 <> SLIDING)
                    /\ (resolved (Obj.state o2) = true -> verdict windows currentTime o o2))
    by (intros l H; exists o1; auto).
  assert (Eqtime : Obj.time o1 = Obj.time o) by (unfold geometry in Hgeo; congruence).
  assert (Eqtype : Obj.type o1 = Obj.type o) by (unfold geometry in Hgeo; congruence).
  assert (Eqtotal : Obj.totalDuration o1 = Obj.totalDuration o)
    by (unfold geometry in Hgeo; congruence).
  step_cases Hstep;
    try (apply Hsame; exact Ho1);
    try pose proof (qualifies_window _ _ _ _ _ Hobj Hq) as Hwin;
    try (apply (qualifies_active _ _ _ _ _ Hobj) in Hq; rename Hq into Hstate);
    try rewrite (completeSlider_eq _ _ _ Hobj);
    step_simpl;
    match goal with
    | |- context [alter ?f ?j _] =>
        rewrite (list_lookup_alter f _ j k);
        destruct (decide (j = k)) as [Ejk | Hne];
        [rewrite Hobj | apply Hsame; exact Ho1];
        rewrite Ejk in Hobj
    end;
    cbn [fmap option_fmap option_map];
    assert (obj = o1) by congruence; subst obj;
    eexists; (split; [reflexivity |]);
    try match goal with
        | |- context [if ?b then Obj.setEndHit _ _ else _] => destruct b
        end;
    (split; [exact Hgeo |]);
    cbn [Obj.setState Obj.setTracking Obj.setStartHitValue Obj.setEndHit
         Obj.setTicksHit Obj.setCurrentBall Obj.state].
  - (* activation *)
    split; [discriminate | discriminate].
  - (* a circle is hit *)
    split.
    { intros _. unfold InputSpec.hitState.
      destruct (_ =? 300)%Z; [discriminate |]. destruct (_ =? 100)%Z; discriminate. }
    intros _. right. left. rewrite <- Eqtime, <- Eqtype, <- Hw.
    split; [exact Htype |]. split; [exact Hwin | reflexivity].
  - (* the head of a slider is hit *)
    split; [congruence | discriminate].
  - (* a circle is missed *)
    split; [discriminate |]. intros _. left. split; [reflexivity |].
    rewrite <- Eqtime, <- Hw. exact Htime.
  - split; [discriminate |]. intros _. left. split; [reflexivity |].
    rewrite <- Eqtime, <- Hw. exact Htime.
  - split; [exact Hcircle | rewrite Hstate; discriminate].
  - split; [exact Hcircle | rewrite Hstate; discriminate].
  - split; [exact Hcircle | rewrite Hstate; discriminate].
  - split; [discriminate |]. intros _. right. right.
    split; [| split; [reflexivity | rewrite <- Eqtime, <- Eqtotal; exact Hend]].
    destruct (Obj.type o) eqn:E; [| reflexivity].
    exfalso. apply Hcircle; [reflexivity | exact Hstate].
  - split; [discriminate |]. intros _. right. right.
    split; [| split; [reflexivity | rewrite <- Eqtime, <- Eqtotal; exact Hend]].
    destruct (Obj.type o) eqn:E; [| reflexivity].
    exfalso. apply Hcircle; [reflexivity | exact Hstate].
Qed.

Lemma steps_sound (windows : hitWindows) (currentTime : Q) (k : nat) (o : Obj.t)
  (g g' : game) :
  rtc (step currentTime) g g' ->
  sound windows currentTime k o g -> sound windows currentTime k o g'.
Proof.
  induction 1 as [| g g1 g' Hstep _ IH]; [auto |].
  intros H. apply IH. exact (step_sound _ _ _ _ _ _ Hstep H).
Qed.

(** *** What holds in every session *)

(** X1.  From the start of a session on, whatever the frames and the
    presses, the health stays between 0 and 100. *)
Theorem health_in_range (events : list event) (g0 g : game) :
  handleEvents events (startCountdown g0) = Some g ->
  0 <= Stats.health (stats g) <= 100.
Proof.
  intros H.
  apply (moves_invariant healthy step_healthy (startCountdown g0) g).
  - exact (handleEvents_steps _ _ _ H).
  - apply startCountdown_healthy.
Qed.

Lemma health_in_range_witness :
  0 <= Stats.health (stats SessionSamples.missedSession) <= 100.
Proof.
  apply (health_in_range (Samples.noInput 5000) SessionSamples.thirteenCircles).
  vm_compute. reflexivity.
Defined.

(** X2.  In a session the statistics record one judgement for each object
    of the store whose state is a result, and none else: no object is
    counted twice, and the judgements are at most as many as the objects
    of the chart. *)
Theorem judged_once (events : list event) (g0 g : game) :
  handleEvents events (startCountdown g0) = Some g ->
  judged (stats g) = Z.of_nat (resolvedCount (hitObjects g))
  /\ (judged (stats g) <= Z.of_nat (List.length (hitObjects g0)))%Z.
Proof.
  intros H. pose proof (handleEvents_steps _ _ _ H) as Hsteps.
  pose proof (moves_invariant counted step_counted _ _ Hsteps
                (startCountdown_counted g0)) as Hc.
  split; [exact Hc |]. rewrite Hc.
  pose proof (Forall2_length _ _ _ (steps_advances _ _ Hsteps)) as Hlen.
  cbn [startCountdown hitObjects] in Hlen. rewrite length_map in Hlen.
  pose proof (resolvedCount_le (hitObjects g)). lia.
Qed.

Lemma judged_once_witness :
  judged (stats SessionSamples.heldSession)
  = Z.of_nat (resolvedCount (hitObjects SessionSamples.heldSession))
  /\ (judged (stats SessionSamples.heldSession)
      <= Z.of_nat (List.length (hitObjects Samples.sliderGame)))%Z.
Proof.
  apply (judged_once Samples.heldSlide Samples.sliderGame).
  vm_compute. reflexivity.
Defined.

(** X3.  Whatever the events, an object of the store keeps its position
    and what [loadBeatmap] computed for it; its state never goes back in
    the order PENDING, ACTIVE, SLIDING, result; once it has a result it is
    not written again; and its ticks never decrease, nor go beyond the
    total when they started within it. *)
Theorem objects_advance (events : list event) (g g' : game) (i : nat) (o : Obj.t) :
  handleEvents events g = Some g' ->
  hitObjects g !! i = Some o ->
  exists o' : Obj.t,
    hitObjects g' !! i = Some o'
    /\ geometry o' = geometry o
    /\ (rank (Obj.state o) <= rank (Obj.state o'))%nat
    /\ (resolved (Obj.state o) = true -> o' = o)
    /\ (Obj.ticksHit o <= Obj.ticksHit o')%Z
    /\ ((Obj.ticksHit o <= Obj.totalTicks o)%Z ->
        (Obj.ticksHit o' <= Obj.totalTicks o)%Z).
Proof.
  intros H Ho. pose proof (steps_advances _ _ (handleEvents_steps _ _ _ H)) as Hadv.
  destruct (Forall2_lookup_l _ _ _ _ _ Hadv Ho) as (o' & Ho' & Hg & Hr & Hf & Ht & Hb).
  exists o'. repeat (split; [assumption |]).
  intros Hle. specialize (Hb Hle).
  assert (Obj.totalTicks o' = Obj.totalTicks o) by (unfold geometry in Hg; congruence).
  lia.
Qed.

Lemma objects_advance_witness :
  exists o' : Obj.t,
    hitObjects SessionSamples.heldSession !! 0%nat = Some o'
    /\ geometry o' = geometry SessionSamples.sliderObject
    /\ (rank (Obj.state SessionSamples.sliderObject) <= rank (Obj.state o'))%nat.
Proof.
  destruct (objects_advance Samples.heldSlide (startCountdown Samples.sliderGame)
              SessionSamples.heldSession 0 SessionSamples.sliderObject)
    as (o' & Ho' & Hg & Hr & _).
  - vm_compute. reflexivity.
  - vm_compute. reflexivity.
  - exists o'. split; [exact Ho' |]. split; [exact Hg | exact Hr].
Defined.

(** X4.  In a session [activeObjects] holds exactly the objects whose state
    is ACTIVE or SLIDING, each once and in the order of the store, all of
    them behind the cursor [nextObjectIndex], which stays within the
    store. *)
Theorem active_objects_exact (events : list event) (g0 g : game) :
  handleEvents events (startCountdown g0) = Some g ->
  StronglySorted lt (activeObjects g)
  /\ (nextObjectIndex g <= List.length (hitObjects g))%nat
  /\ (forall i : nat, i ∈ activeObjects g -> (i < nextObjectIndex g)%nat)
  /\ (forall i : nat,
         i ∈ activeObjects g
         <-> exists o : Obj.t,
               hitObjects g !! i = Some o
               /\ (Obj.state o = ACTIVE \/ Obj.state o = SLIDING)).
Proof.
  intros H.
  destruct (moves_invariant wellFormed step_wellFormed _ _
              (handleEvents_steps _ _ _ H) (startCountdown_wellFormed g0))
    as (Hs & Hlt & Hlen & Hplaced).
  split; [exact Hs |]. split; [exact Hlen |]. split; [exact Hlt |].
  intros i. split.
  - intros Hi. pose proof (Hlt i Hi) as Hcur.
    destruct (hitObjects g !! i) as [o |] eqn:Ho;
      [| apply lookup_ge_None in Ho; lia].
    exists o. split; [reflexivity |].
    specialize (Hplaced i o Ho). unfold placed in Hplaced.
    destruct (Obj.state o); auto; first [lia | tauto].
  - intros (o & Ho & Hstate). specialize (Hplaced i o Ho). unfold placed in Hplaced.
    destruct Hstate as [E | E]; rewrite E in Hplaced; exact Hplaced.
Qed.

Lemma active_objects_exact_witness :
  StronglySorted lt (activeObjects SessionSamples.activeSession)
  /\ (nextObjectIndex SessionSamples.activeSession
      <= List.length (hitObjects SessionSamples.activeSession))%nat.
Proof.
  destruct (active_objects_exact [Frame 0 (Point.mk 0 0) false]
              SessionSamples.thirteenCircles SessionSamples.activeSession)
    as (Hs & Hlen & _).
  - vm_compute. reflexivity.
  - split; assumption.
Defined.

(** X5.  When [update] finds that all objects were processed, the cursor
    at the end of the store and [activeObjects] empty, every object has a
    result and the statistics record as many judgements as the chart has
    objects. *)
Theorem all_processed_all_judged (events : list event) (g0 g : game) :
  handleEvents events (startCountdown g0) = Some g ->
  (List.length (hitObjects g) <= nextObjectIndex g)%nat ->
  activeObjects g = [] ->
  Forall (fun o => resolved (Obj.state o) = true) (hitObjects g)
  /\ judged (stats g) = Z.of_nat (List.length (hitObjects g0)).
Proof.
  intros H Hcursor Hactive.
  pose proof (handleEvents_steps _ _ _ H) as Hsteps.
  destruct (moves_invariant wellFormed step_wellFormed _ _ Hsteps
              (startCountdown_wellFormed g0)) as (_ & _ & _ & Hplaced).
  assert (Hall : Forall (fun o => resolved (Obj.state o) = true) (hitObjects g)).
  { apply Forall_lookup. intros i o Ho. specialize (Hplaced i o Ho).
    unfold placed in Hplaced. rewrite Hactive in Hplaced.
    apply lookup_lt_Some in Ho.
    destruct (Obj.state o); try reflexivity;
      first [lia | inversion Hplaced]. }
  split; [exact Hall |].
  pose proof (moves_invariant counted step_counted _ _ Hsteps
                (startCountdown_counted g0)) as Hc.
  rewrite Hc, (resolvedCount_all _ Hall).
  pose proof (Forall2_length _ _ _ (steps_advances _ _ Hsteps)) as Hlen.
  cbn [startCountdown hitObjects] in Hlen. rewrite length_map in Hlen.
  rewrite Hlen. reflexivity.
Qed.

Lemma all_processed_all_judged_witness :
  Forall (fun o => resolved (Obj.state o) = true)
    (hitObjects SessionSamples.heldSession)
  /\ judged (stats SessionSamples.heldSession)
     = Z.of_nat (List.length (hitObjects Samples.sliderGame)).
Proof.
  apply (all_processed_all_judged Samples.heldSlide Samples.sliderGame).
  - vm_compute. reflexivity.
  - vm_compute. lia.
  - vm_compute. reflexivity.
Defined.

(** X6.  At the end of every event of a session the game is either being
    played, not failed and with a positive health, or it failed: then it
    shows the results, its health is 0, and no later frame or press
    changes it. *)
Theorem failure_at_zero_health (events : list event) (g0 g : game) :
  handleEvents events (startCountdown g0) = Some g ->
  alive g
  \/ (lost g /\ forall more : list event, handleEvents more g = Some g).
Proof.
  intros H.
  destruct (handleEvents_alive events (startCountdown g0) g
              (startCountdown_healthy g0) (or_introl (startCountdown_alive g0)) H)
    as [_ [Halive | Hlost]]; [left; exact Halive |].
  right. split; [exact Hlost |].
  intros more. apply handleEvents_stopped. destruct Hlost as [-> _]. discriminate.
Qed.

Lemma failure_at_zero_health_witness :
  lost SessionSamples.missedSession
  /\ handleEvents [SessionSamples.latePress] SessionSamples.missedSession
     = Some SessionSamples.missedSession.
Proof.
  destruct (failure_at_zero_health (Samples.noInput 5000)
              SessionSamples.thirteenCircles SessionSamples.missedSession)
    as [(Hplay & _) | [Hlost Hfrozen]].
  - vm_compute. reflexivity.
  - exfalso. vm_compute in Hplay. discriminate Hplay.
  - split; [exact Hlost | apply Hfrozen].
Defined.

(** X7.  A press never costs anything: it adds no miss, does not lower the
    combo and, the health being within its range, does not lower the
    health; when no active object qualifies for it, it changes nothing. *)
Theorem press_never_penalises (osuPos : Point.t) (currentTime : Q) (g : game) :
  0 <= Stats.health (stats g) <= 100 ->
  Stats.misses (stats (processHitAtPosition osuPos currentTime g))
  = Stats.misses (stats g)
  /\ (Stats.combo (stats g)
      <= Stats.combo (stats (processHitAtPosition osuPos currentTime g)))%Z
  /\ Stats.health (stats g)
     <= Stats.health (stats (processHitAtPosition osuPos currentTime g))
  /\ (Forall (fun j => InputSpec.qualifies g osuPos currentTime j = false)
        (activeObjects g) ->
      processHitAtPosition osuPos currentTime g = g).
Proof.
  intros Hh.
  destruct (processHitAtPosition_health osuPos currentTime g Hh)
    as (_ & _ & Hm & Hc & Hhealth).
  repeat (split; [assumption |]).
  intros Hnone. unfold processHitAtPosition.
  destruct (processHitLoop_cases osuPos currentTime g (activeObjects g))
    as [[_ Heq] | (i & obj & Hi & _ & Hq & _)]; [exact Heq |].
  rewrite Forall_forall in Hnone. specialize (Hnone i Hi). congruence.
Qed.

Lemma press_never_penalises_witness :
  Stats.misses (stats (processHitAtPosition (Point.mk 0 0) 1000 Samples.activeCircleGame))
  = 0%Z
  /\ processHitAtPosition (Point.mk 0 0) 1000 Samples.activeCircleGame
     = Samples.activeCircleGame.
Proof.
  assert (Hh : 0 <= Stats.health (stats Samples.activeCircleGame) <= 100)
    by (vm_compute; split; discriminate).
  destruct (press_never_penalises (Point.mk 0 0) 1000 Samples.activeCircleGame Hh)
    as (Hm & _ & _ & Hnone).
  split; [rewrite Hm; vm_compute; reflexivity |].
  apply Hnone.
  replace (activeObjects Samples.activeCircleGame) with [0%nat]
    by (vm_compute; reflexivity).
  constructor; [vm_compute; reflexivity | constructor].
Defined.

(** X8.  The judgement agrees with the timing.  An object that has no
    result before an event and has one after it was judged at the time of
    the event: as a miss, the time being after its widest window; or, a
    circle, within the window and with the quality of its offset; or, a
    slider, HIT_300 and at or after its end. *)
Theorem judgement_timing (e : event) (g g' : game) (i : nat) (o : Obj.t) :
  handleEvent e g = Some g' ->
  hitObjects g !! i = Some o ->
  (Obj.type o = circle -> Obj.state o <> SLIDING) ->
  resolved (Obj.state o) = false ->
  exists o' : Obj.t,
    hitObjects g' !! i = Some o'
    /\ (resolved (Obj.state o') = true ->
        verdict (getHitWindows (overallDifficulty (difficulty g))) (eventTime e) o o').
Proof.
  intros He Ho Hcircle Hpending.
  destruct (steps_sound (getHitWindows (overallDifficulty (difficulty g)))
              (eventTime e) i o g g' (handleEvent_steps _ _ _ He))
    as (_ & o' & Ho' & _ & _ & Hv).
  - split; [reflexivity |]. exists o. repeat (split; [auto |]). congruence.
  - exists o'. split; assumption.
Qed.

Lemma judgement_timing_witness :
  exists o' : Obj.t,
    hitObjects SessionSamples.pressedCircleGame !! 0%nat = Some o'
    /\ (resolved (Obj.state o') = true ->
        verdict (getHitWindows 5) 1050 SessionSamples.activeCircle o').
Proof.
  apply (judgement_timing SessionSamples.latePress Samples.activeCircleGame
           SessionSamples.pressedCircleGame 0 SessionSamples.activeCircle).
  - vm_compute. reflexivity.
  - vm_compute. reflexivity.
  - vm_compute. discriminate.
  - vm_compute. reflexivity.
Defined.

(** *** Nothing is left behind by a frame *)

Lemma spliceFirst_at (l : list nat) (n j : nat) :
  StronglySorted lt l -> l !! n = Some j ->
  spliceFirst j l = take n l ++ drop (S n) l.
Proof.
  revert n. induction l as [| a l IH]; intros [| n] Hs; cbn; try discriminate.
  - intros H; injection H as ->. rewrite Nat.eqb_refl. rewrite drop_0. reflexivity.
  - intros Hj. apply StronglySorted_inv in Hs as [Hs Ha].
    rewrite Forall_forall in Ha.
    pose proof (Ha j (list_elem_of_lookup_2 _ _ _ Hj)) as Hlt.
    destruct (Nat.eqb a j) eqn:E; [apply Nat.eqb_eq in E; lia |].
    rewrite (IH n Hs Hj). reflexivity.
Qed.

Lemma wellFormed_active (g : game) (i : nat) :
  wellFormed g -> i ∈ activeObjects g ->
  exists o, hitObjects g !! i = Some o
            /\ (Obj.state o = ACTIVE \/ Obj.state o = SLIDING).
Proof.
  intros (_ & Hlt & Hlen & Hplaced) Hi. pose proof (Hlt i Hi) as Hcur.
  destruct (hitObjects g !! i) as [o |] eqn:Ho;
    [| apply lookup_ge_None in Ho; lia].
  exists o. split; [reflexivity |].
  specialize (Hplaced i o Ho). unfold placed in Hplaced.
  destruct (Obj.state o); auto; first [lia | tauto].
Qed.

Lemma steps_wellFormed (currentTime : Q) (g g' : game) :
  rtc (step currentTime) g g' -> wellFormed g -> wellFormed g'.
Proof.
  intros H. apply (moves_invariant wellFormed step_wellFormed).
  exact (step_moves _ _ _ H).
Qed.

(** After the loop of the misses has gone through the positions below
    [n], an object that is still active after its window is at one of the
    positions from [n] on. *)
Lemma checkMisses_no_late (n : nat) (currentTime : Q) (g : game) :
  currentState g = PLAYING ->
  wellFormed g ->
  (n <= List.length (activeObjects g))%nat ->
  forall (k : nat) (o' : Obj.t),
    hitObjects
      (checkMisses n currentTime (getHitWindows (overallDifficulty (difficulty g))) g)
    !! k = Some o' ->
    Obj.state o' = ACTIVE ->
    inject_Z (Obj.time o')
    + hit50 (getHitWindows (overallDifficulty (difficulty g))) < currentTime ->
    k ∈ drop n (activeObjects g).
Proof.
  revert g. induction n as [| n IH]; intros g Hplay Hwf Hn k o' Ho' Hstate Hlate.
  - cbn [checkMisses] in Ho'. rewrite drop_0.
    destruct Hwf as (_ & _ & _ & Hplaced). specialize (Hplaced k o' Ho').
    unfold placed in Hplaced. rewrite Hstate in Hplaced. exact Hplaced.
  - destruct (activeObjects g !! n) as [j |] eqn:Hj;
      [| apply lookup_ge_None in Hj; lia].
    pose proof (list_elem_of_lookup_2 _ _ _ Hj) as Hjin.
    destruct (wellFormed_active g j Hwf Hjin) as (obj & Hobj & Hobjstate).
    assert (Hdrop : drop n (activeObjects g) = j :: drop (S n) (activeObjects g))
      by (apply drop_S; exact Hj).
    (* the body of the loop, as one condition *)
    set (late := HitState_eqb (Obj.state obj) ACTIVE
                 && JS.Qgtb currentTime
                      (inject_Z (Obj.time obj)
                       + hit50 (getHitWindows (overallDifficulty (difficulty g))))).
    assert (Hbody :
      checkMisses (S n) currentTime (getHitWindows (overallDifficulty (difficulty g))) g
      = checkMisses n currentTime (getHitWindows (overallDifficulty (difficulty g)))
          (if late then processMiss j g else g)).
    { cbn [checkMisses]. cbv zeta. rewrite Hj, Hobj. unfold late.
      destruct (HitState_eqb (Obj.state obj) ACTIVE); cbn [andb]; [| reflexivity].
      destruct (Obj.type obj); destruct (JS.Qgtb _ _); reflexivity. }
    rewrite Hbody in Ho'. clear Hbody.
    destruct late eqn:Hlatej.
    + (* the object is missed and leaves [activeObjects] *)
      apply andb_true_iff in Hlatej as [Hact Hgt].
      apply HitState_eqb_eq in Hact. apply Qgtb_gt in Hgt.
      assert (Hwf1 : wellFormed (processMiss j g))
        by (apply wellFormed_remove; [exact Hwf | exact Hjin | reflexivity]).
      assert (Hactive1 : activeObjects (processMiss j g)
                         = take n (activeObjects g) ++ drop (S n) (activeObjects g)).
      { cbn [processMiss removeActiveObject setActiveObjects activeObjects setStats
             updateObject setHitObjects].
        apply spliceFirst_at; [destruct Hwf as [Hs _]; exact Hs | exact Hj]. }
      assert (Hlen : List.length (take n (activeObjects g)) = n)
        by (rewrite length_take; lia).
      specialize (IH (processMiss j g) Hplay Hwf1).
      rewrite Hactive1 in IH.
      rewrite drop_app_length' in IH by (symmetry; exact Hlen).
      apply (IH ltac:(rewrite length_app, Hlen; lia) k o' Ho' Hstate Hlate).
    + (* the object stays: it is not active, or its window is open *)
      specialize (IH g Hplay Hwf ltac:(lia) k o' Ho' Hstate Hlate).
      rewrite Hdrop in IH. apply elem_of_cons in IH as [-> | Hin]; [| exact Hin].
      exfalso.
      destruct (checkMisses_steps n currentTime g Hplay) as [Hsteps _].
      pose proof (steps_advances _ _ (step_moves _ _ _ Hsteps)) as Hadv.
      destruct (Forall2_lookup_l _ _ _ _ _ Hadv Hobj) as (o2 & Ho2 & Hg & Hr & _).
      assert (o2 = o') by congruence. subst o2.
      rewrite Hstate in Hr. cbn [rank] in Hr.
      assert (Hact : Obj.state obj = ACTIVE)
        by (destruct Hobjstate as [E | E]; [exact E | rewrite E in Hr; cbn in Hr; lia]).
      assert (Htime : Obj.time o' = Obj.time obj) by (unfold geometry in Hg; congruence).
      unfold late in Hlatej. rewrite Hact in Hlatej. cbn [HitState_eqb andb] in Hlatej.
      apply Qgtb_le in Hlatej. rewrite Htime in Hlate. lra.
Qed.

(** The loop of the sliders does not move the cursor. *)
Lemma updateSlider_cursor currentTime osuPos holding followRadius (i : nat)
  (g g' : game) :
  updateSlider currentTime osuPos holding followRadius i g = Some g' ->
  nextObjectIndex g' = nextObjectIndex g.
Proof.
  unfold updateSlider.
  destruct (hitObjects g !! i) as [obj |];
    [| intros H; injection H as <-; reflexivity].
  destruct (negb _); [intros H; injection H as <-; reflexivity |].
  destruct (getSliderBallPosition obj _) as [ballPos |]; [| discriminate].
  cbn [mbind option_bind]. cbv zeta. intros H; injection H as <-.
  repeat match goal with
         | |- nextObjectIndex (completeSlider ?i ?g) = _ =>
             transitivity (nextObjectIndex g);
             [unfold completeSlider; destruct (hitObjects g !! i); reflexivity |]
         | |- context [if ?c then _ else _] => destruct c
         end;
    reflexivity.
Qed.

Lemma updateSlidersFrom_cursor (n : nat) currentTime osuPos holding followRadius
  (g g' : game) :
  updateSlidersFrom n currentTime osuPos holding followRadius g = Some g' ->
  nextObjectIndex g' = nextObjectIndex g.
Proof.
  revert g. induction n as [| n IH]; intros g; cbn [updateSlidersFrom].
  - intros H; injection H as <-. reflexivity.
  - destruct (activeObjects g !! n) as [i |].
    + destruct (updateSlider _ _ _ _ i g) as [g1 |] eqn:H1; [| discriminate].
      cbn [mbind option_bind]. intros H.
      rewrite (IH _ H). exact (updateSlider_cursor _ _ _ _ _ _ _ H1).
    + cbn [mbind option_bind]. apply IH.
Qed.

(** The parts of [update]: the game after the activation, after the
    misses and after the sliders, and the game that [update] returns. *)
Lemma update_parts currentTime osuPos holding (g g' : game) :
  currentState g = PLAYING ->
  update currentTime osuPos holding g = Some g' ->
  exists g1 g2 g3 : game,
    g1 = activateObjects (List.length (hitObjects g)) currentTime
           (getApproachTime (approachRate (difficulty g))) g
    /\ g2 = checkMisses (List.length (activeObjects g1)) currentTime
              (getHitWindows (overallDifficulty (difficulty g1))) g1
    /\ rtc (step currentTime) g g1
    /\ rtc (step currentTime) g1 g2
    /\ rtc (step currentTime) g2 g3
    /\ currentState g1 = PLAYING
    /\ difficulty g1 = difficulty g
    /\ difficulty g2 = difficulty g
    /\ nextObjectIndex g3 = nextObjectIndex g2
    /\ hitObjects g' = hitObjects g3
    /\ difficulty g' = difficulty g.
Proof.
  intros Hplay. unfold update. cbv zeta.
  set (g1 := activateObjects _ _ _ g).
  pose proof (activateObjects_steps (List.length (hitObjects g)) currentTime g Hplay)
    as H1. fold g1 in H1.
  destruct (activateObjects_setting (List.length (hitObjects g)) currentTime
              (getApproachTime (approachRate (difficulty g))) g) as [Hs1 Hd1].
  fold g1 in Hs1, Hd1.
  rewrite <- Hd1.
  assert (Hplay1 : currentState g1 = PLAYING) by congruence.
  destruct (checkMisses_steps (List.length (activeObjects g1)) currentTime g1 Hplay1)
    as [H2 Hplay2].
  destruct (checkMisses_setting (List.length (activeObjects g1)) currentTime
              (getHitWindows (overallDifficulty (difficulty g1))) g1) as [_ Hd2].
  set (g2 := checkMisses _ _ _ g1) in *.
  unfold updateSliders.
  destruct (updateSlidersFrom _ _ _ _ _ g2) as [g3 |] eqn:H3; [| discriminate].
  cbn [mbind option_bind].
  destruct (updateSlidersFrom_steps _ _ _ _ _ _ _ Hplay2 H3) as [Hsteps3 [_ Hd3]].
  pose proof (updateSlidersFrom_cursor _ _ _ _ _ _ _ H3) as Hc3.
  intros H. exists g1, g2, g3.
  repeat (split; [first [reflexivity | assumption | congruence] |]).
  destruct (_ && _); injection H as <-; split; first [reflexivity | cbn; congruence].
Qed.

Lemma activateObjects_stops (n : nat) currentTime approachTime (g : game) :
  (List.length (hitObjects g) - nextObjectIndex g <= n)%nat ->
  (List.length (hitObjects (activateObjects n currentTime approachTime g))
   <= nextObjectIndex (activateObjects n currentTime approachTime g))%nat
  \/ exists obj : Obj.t,
       hitObjects (activateObjects n currentTime approachTime g)
       !! nextObjectIndex (activateObjects n currentTime approachTime g) = Some obj
       /\ Obj.state obj = PENDING
       /\ approachTime < inject_Z (Obj.time obj) - currentTime.
Proof.
  revert g. induction n as [| n IH]; intros g Hn; cbn [activateObjects].
  - left. lia.
  - destruct (hitObjects g !! nextObjectIndex g) as [obj |] eqn:Hobj;
      [| left; apply lookup_ge_None in Hobj; exact Hobj].
    destruct (HitState_eqb (Obj.state obj) PENDING) eqn:Hstate; cbn [negb].
    + destruct (Qle_bool _ _) eqn:Hdue.
      * apply IH. cbn [setNextObjectIndex setActiveObjects updateObject setHitObjects
                       hitObjects nextObjectIndex].
        rewrite length_alter. lia.
      * right. exists obj. split; [exact Hobj |].
        split; [apply HitState_eqb_eq; exact Hstate |].
        apply Qle_bool_gt. exact Hdue.
    + apply IH. cbn [setNextObjectIndex hitObjects nextObjectIndex]. lia.
Qed.

Lemma advances_inTimeOrder (l l' : list Obj.t) :
  Forall2 advances l l' -> inTimeOrder l -> inTimeOrder l'.
Proof.
  intros Hadv Hord i j a' b' Hij Ha' Hb'.
  destruct (Forall2_lookup_r _ _ _ _ _ Hadv Ha') as (a & Ha & Hga & _).
  destruct (Forall2_lookup_r _ _ _ _ _ Hadv Hb') as (b & Hb & Hgb & _).
  specialize (Hord i j a b Hij Ha Hb).
  unfold geometry in Hga, Hgb.
  assert (Obj.time a' = Obj.time a) by congruence.
  assert (Obj.time b' = Obj.time b) by congruence. lia.
Qed.

Lemma startCountdown_inTimeOrder (g : game) :
  inTimeOrder (hitObjects g) -> inTimeOrder (hitObjects (startCountdown g)).
Proof.
  intros Hord i j a b Hij Ha Hb. cbn [startCountdown hitObjects] in Ha, Hb.
  rewrite list_lookup_fmap in Ha, Hb.
  destruct (hitObjects g !! i) as [a0 |] eqn:Ha0; [| discriminate].
  destruct (hitObjects g !! j) as [b0 |] eqn:Hb0; [| discriminate].
  cbn in Ha, Hb. injection Ha as <-. injection Hb as <-.
  exact (Hord i j a0 b0 Hij Ha0 Hb0).
Qed.

(** X9.  A frame leaves no object behind its window: after [update] at
    [currentTime] in a session that is being played, every object that is
    still ACTIVE can still be hit, the time being at most its time plus the
    widest window.  The loop of the misses goes through [activeObjects]
    from its end and removes objects on its way; it skips none. *)
Theorem frame_misses_every_late_object (events : list event) (g0 g g' : game)
  (currentTime : Q) (osuPos : Point.t) (holding : bool) (k : nat) (o : Obj.t) :
  handleEvents events (startCountdown g0) = Some g ->
  currentState g = PLAYING ->
  update currentTime osuPos holding g = Some g' ->
  hitObjects g' !! k = Some o ->
  Obj.state o = ACTIVE ->
  currentTime
  <= inject_Z (Obj.time o) + hit50 (getHitWindows (overallDifficulty (difficulty g))).
Proof.
  intros Hev Hplay Hupd Ho Hstate.
  pose proof (moves_invariant wellFormed step_wellFormed _ _
                (handleEvents_steps _ _ _ Hev) (startCountdown_wellFormed g0)) as Hwf.
  destruct (update_parts _ _ _ _ _ Hplay Hupd)
    as (g1 & g2 & g3 & E1 & E2 & H1 & H2 & H3 & Hplay1 & Hd1 & Hd2 & Hc3 & Hobjs & _).
  pose proof (steps_wellFormed _ _ _ H1 Hwf) as Hwf1.
  pose proof (steps_wellFormed _ _ _ H2 Hwf1) as Hwf2.
  pose proof (steps_wellFormed _ _ _ H3 Hwf2) as Hwf3.
  rewrite Hobjs in Ho.
  destruct (Qlt_le_dec
              (inject_Z (Obj.time o)
               + hit50 (getHitWindows (overallDifficulty (difficulty g))))
              currentTime) as [Hlate | Hok]; [exfalso | exact Hok].
  (* the object was active after the misses already *)
  pose proof (steps_advances _ _ (step_moves _ _ _ H3)) as Hadv.
  destruct (Forall2_lookup_r _ _ _ _ _ Hadv Ho) as (o2 & Ho2 & Hg & Hr & _).
  rewrite Hstate in Hr. cbn [rank] in Hr.
  assert (Hstate2 : Obj.state o2 = ACTIVE).
  { destruct Hwf3 as (_ & Hlt3 & _ & Hplaced3).
    specialize (Hplaced3 k o Ho). unfold placed in Hplaced3.
    rewrite Hstate in Hplaced3. specialize (Hlt3 k Hplaced3).
    destruct Hwf2 as (_ & _ & _ & Hplaced2).
    specialize (Hplaced2 k o2 Ho2). unfold placed in Hplaced2.
    destruct (Obj.state o2); cbn in Hr; try lia; reflexivity. }
  assert (Htime : Obj.time o = Obj.time o2) by (unfold geometry in Hg; congruence).
  rewrite E2 in Ho2.
  pose proof (checkMisses_no_late (List.length (activeObjects g1)) currentTime g1
                Hplay1 Hwf1 ltac:(lia) k o2 Ho2 Hstate2) as Hin.
  rewrite Hd1, <- Htime in Hin. specialize (Hin Hlate).
  rewrite drop_all in Hin. inversion Hin.
Qed.

Lemma frame_misses_every_late_object_witness :
  900 <= inject_Z (Obj.time (SessionSamples.circleAt 900))
         + hit50 (getHitWindows
                    (overallDifficulty (difficulty (startCountdown Samples.circleGame)))).
Proof.
  apply (frame_misses_every_late_object [] Samples.circleGame
           (startCountdown Samples.circleGame) (SessionSamples.circleFrame 900)
           900 (Point.mk 0 0) false 0 (SessionSamples.circleAt 900)).
  - reflexivity.
  - reflexivity.
  - vm_compute. reflexivity.
  - vm_compute. reflexivity.
  - vm_compute. reflexivity.
Defined.

(** X10.  A frame activates every object that is due: in a session of a
    store in the order of the times, as [loadBeatmap] leaves it, every
    object that still waits after [update] at [currentTime] is further
    away than the approach time. *)
Theorem frame_activates_every_due_object (events : list event) (g0 g g' : game)
  (currentTime : Q) (osuPos : Point.t) (holding : bool) (k : nat) (o : Obj.t) :
  inTimeOrder (hitObjects g0) ->
  handleEvents events (startCountdown g0) = Some g ->
  currentState g = PLAYING ->
  update currentTime osuPos holding g = Some g' ->
  hitObjects g' !! k = Some o ->
  Obj.state o = PENDING ->
  getApproachTime (approachRate (difficulty g)) < inject_Z (Obj.time o) - currentTime.
Proof.
  intros Hord Hev Hplay Hupd Ho Hstate.
  pose proof (handleEvents_steps _ _ _ Hev) as Hsteps.
  pose proof (moves_invariant wellFormed step_wellFormed _ _ Hsteps
                (startCountdown_wellFormed g0)) as Hwf.
  pose proof (advances_inTimeOrder _ _ (steps_advances _ _ Hsteps)
                (startCountdown_inTimeOrder g0 Hord)) as Hordg.
  destruct (update_parts _ _ _ _ _ Hplay Hupd)
    as (g1 & g2 & g3 & E1 & E2 & H1 & H2 & H3 & Hplay1 & Hd1 & Hd2 & Hc3 & Hobjs & _).
  pose proof (steps_wellFormed _ _ _ H1 Hwf) as Hwf1.
  pose proof (advances_inTimeOrder _ _ (steps_advances _ _ (step_moves _ _ _ H1)) Hordg)
    as Hord1.
  rewrite Hobjs in Ho.
  pose proof (steps_advances _ _ (step_moves _ _ _ (rtc_trans _ _ _ H2 H3))) as Hadv.
  destruct (Forall2_lookup_r _ _ _ _ _ Hadv Ho) as (o1 & Ho1 & Hg & Hr & _).
  rewrite Hstate in Hr. cbn [rank] in Hr.
  assert (Hstate1 : Obj.state o1 = PENDING)
    by (destruct (Obj.state o1); cbn in Hr; try lia; reflexivity).
  assert (Htime : Obj.time o = Obj.time o1) by (unfold geometry in Hg; congruence).
  destruct Hwf1 as (_ & _ & _ & Hplaced1).
  pose proof (Hplaced1 k o1 Ho1) as Hk. unfold placed in Hk. rewrite Hstate1 in Hk.
  pose proof (lookup_lt_Some _ _ _ Ho1) as Hklen.
  destruct (activateObjects_stops (List.length (hitObjects g)) currentTime
              (getApproachTime (approachRate (difficulty g))) g ltac:(lia))
    as [Hend | (obj & Hobj & _ & Hfar)]; rewrite <- E1 in *; [lia |].
  pose proof (Hord1 _ _ _ _ Hk Hobj Ho1) as Hle.
  rewrite Htime. rewrite Zle_Qle in Hle. lra.
Qed.

Lemma frame_activates_every_due_object_witness :
  getApproachTime (approachRate (difficulty (startCountdown Samples.circleGame)))
  < inject_Z (Obj.time (SessionSamples.circleAt (-500))) - (-500).
Proof.
  apply (frame_activates_every_due_object [] Samples.circleGame
           (startCountdown Samples.circleGame) (SessionSamples.circleFrame (-500))
           (-500) (Point.mk 0 0) false 0 (SessionSamples.circleAt (-500))).
  - intros i j a b Hij Ha Hb.
    destruct i as [| i]; [| vm_compute in Ha; discriminate Ha].
    destruct j as [| j]; [| vm_compute in Hb; discriminate Hb].
    assert (a = b) by congruence. subst b. lia.
  - reflexivity.
  - reflexivity.
  - vm_compute. reflexivity.
  - vm_compute. reflexivity.
  - vm_compute. reflexivity.
Defined.

(** *** The score *)

Lemma Qfloor_nonneg (q : Q) : 0 <= q -> (0 <= Qfloor q)%Z.
Proof.
  intros H. change 0%Z with (Qfloor 0). apply Qfloor_resp_le. exact H.
Qed.

Lemma hit_score_nonneg (hitValue combo multiplier : Z) :
  (0 <= hitValue)%Z -> (0 <= combo)%Z -> (0 <= multiplier)%Z ->
  (0 <= Qfloor (inject_Z hitValue * inject_Z combo * inject_Z multiplier * 0.01))%Z.
Proof.
  intros Hv Hc Hm. apply Qfloor_nonneg.
  rewrite Zle_Qle in Hv, Hc, Hm.
  repeat apply Qmult_le_0_compat; first [assumption | discriminate].
Qed.

Lemma step_scoring (low : Z) (currentTime : Q) (g g' : game) :
  step currentTime g g' -> scoring low g -> scoring low g'.
Proof.
  unfold scoring. intros Hstep (Hcombo & Hmult & Hscore).
  step_cases Hstep;
    try rewrite (completeSlider_eq _ _ _ Hobj);
    step_simpl; unfold getDifficultyMultiplier in *;
    cbn [difficulty stats Stats.combo Stats.score setStats setActiveObjects
         setHitObjects updateObject removeActiveObject] in *;
    (split; [| split; [exact Hmult |]]);
    try lia; try assumption.
  - pose proof (hit_score_nonneg
                  (hitQuality (getHitWindows (overallDifficulty (difficulty g)))
                     (Qabs (currentTime - inject_Z (Obj.time obj))))
                  (Stats.combo (stats g) + 1) _ ltac:(
                    destruct (hitQuality_values
                                (getHitWindows (overallDifficulty (difficulty g)))
                                (Qabs (currentTime - inject_Z (Obj.time obj))))
                      as [-> | [-> | ->]]; lia) ltac:(lia) Hmult) as Hgain.
    destruct (hitQuality_values (getHitWindows (overallDifficulty (difficulty g)))
                (Qabs (currentTime - inject_Z (Obj.time obj)))) as [Hv | [Hv | Hv]];
      rewrite Hv in Hgain |- *; lia.
  - assert (0 <= Qfloor (inject_Z
              (hitQuality (getHitWindows (overallDifficulty (difficulty g)))
                 (Qabs (currentTime - inject_Z (Obj.time obj)))) / 3))%Z; [| lia].
    apply Qfloor_nonneg. apply Qle_shift_div_l; [reflexivity |].
    rewrite Qmult_0_l. change 0 with (inject_Z 0). rewrite <- Zle_Qle.
    destruct (hitQuality_values (getHitWindows (overallDifficulty (difficulty g)))
                (Qabs (currentTime - inject_Z (Obj.time obj)))) as [-> | [-> | ->]]; lia.
  - destruct (_ =? 0)%Z; lia.
  - destruct (_ && _); lia.
Qed.

(** X11.  With a difficulty whose multiplier is not negative, the score
    never decreases in a session, whatever the frames and the presses. *)
Theorem score_never_decreases (events more : list event) (g0 g g' : game) :
  (0 <= getDifficultyMultiplier g0)%Z ->
  handleEvents events (startCountdown g0) = Some g ->
  handleEvents more g = Some g' ->
  (0 <= Stats.score (stats g) <= Stats.score (stats g'))%Z.
Proof.
  intros Hmult Hev Hmore.
  assert (Hg : scoring 0 g).
  { apply (moves_invariant (scoring 0) (step_scoring 0) _ _
             (handleEvents_steps _ _ _ Hev)).
    repeat split; [reflexivity | exact Hmult | reflexivity]. }
  destruct Hg as (Hc & Hm & Hs). split; [exact Hs |].
  apply (moves_invariant (scoring (Stats.score (stats g)))
           (step_scoring (Stats.score (stats g))) _ _
           (handleEvents_steps _ _ _ Hmore)).
  repeat split; [exact Hc | exact Hm | lia].
Qed.

Lemma score_never_decreases_witness :
  (0 <= Stats.score (stats (startCountdown Samples.sliderGame))
   <= Stats.score (stats SessionSamples.heldSession))%Z.
Proof.
  apply (score_never_decreases [] Samples.heldSlide Samples.sliderGame).
  - vm_compute. discriminate.
  - reflexivity.
  - vm_compute. reflexivity.
Defined.

(** *** A slider that was let go *)

Lemma step_dropped (k : nat) (ticks : Z) (currentTime : Q) (g g' : game) :
  step currentTime g g' -> dropped k ticks g -> dropped k ticks g'.
Proof.
  intros Hstep (o & Ho & Hbroken & Hticks & Hstate0).
  assert (Hsame : forall l : list Obj.t, l !! k = Some o ->
            exists o', l !! k = Some o' /\ Obj.trackingBroken o' = true
                       /\ Obj.ticksHit o' = ticks
                       /\ (Obj.state o' = SLIDING \/ resolved (Obj.state o') = true))
    by (intros l H; exists o; auto).
  unfold dropped.
  step_cases Hstep;
    try (apply Hsame; exact Ho);
    try (apply (qualifies_active _ _ _ _ _ Hobj) in Hq; rename Hq into Hstate);
    try rewrite (completeSlider_eq _ _ _ Hobj);
    step_simpl;
    match goal with
    | |- context [alter ?f ?j _] =>
        rewrite (list_lookup_alter f _ j k);
        destruct (decide (j = k)) as [Ejk | Hne];
        [rewrite Hobj | apply Hsame; exact Ho];
        rewrite Ejk in Hobj
    end;
    cbn [fmap option_fmap option_map];
    assert (obj = o) by congruence; subst obj;
    try (exfalso; destruct Hstate0 as [E | E]; rewrite Hstate in E; discriminate E);
    try congruence.
  - eexists. split; [reflexivity |]. cbn. auto.
  - eexists. split; [reflexivity |].
    destruct (_ && _); cbn; auto.
Qed.

Lemma sliderHitValue_dropped (slider : Obj.t) :
  Obj.trackingBroken slider = true -> sliderHitValue slider <> 300%Z.
Proof.
  intros H. unfold sliderHitValue. rewrite H, andb_false_r.
  destruct (JS.Qgeb _ _); [discriminate |]. destruct (JS.Qgtb _ _); discriminate.
Qed.

(** X22.  A slider that was let go stays so: once its tracking broke while
    it slides, no later frame or press gives it another tick or restores
    the tracking, and the value that its completion computes is never
    300. *)
Theorem dropped_slider_stays_dropped (events : list event) (g g' : game) (k : nat)
  (o : Obj.t) :
  handleEvents events g = Some g' ->
  hitObjects g !! k = Some o ->
  Obj.state o = SLIDING ->
  Obj.trackingBroken o = true ->
  exists o' : Obj.t,
    hitObjects g' !! k = Some o'
    /\ Obj.trackingBroken o' = true
    /\ Obj.ticksHit o' = Obj.ticksHit o
    /\ sliderHitValue o' <> 300%Z.
Proof.
  intros Hev Ho Hstate Hbroken.
  destruct (moves_invariant (dropped k (Obj.ticksHit o))
              (step_dropped k (Obj.ticksHit o)) _ _ (handleEvents_steps _ _ _ Hev))
    as (o' & Ho' & Hbroken' & Hticks' & _).
  - exists o. auto.
  - exists o'. repeat (split; [assumption |]).
    apply sliderHitValue_dropped. exact Hbroken'.
Qed.

Lemma dropped_slider_stays_dropped_witness :
  exists o' : Obj.t,
    hitObjects SessionSamples.releasedThenHeld !! 0%nat = Some o'
    /\ Obj.trackingBroken o' = true
    /\ Obj.ticksHit o' = Obj.ticksHit SessionSamples.releasedSlider
    /\ sliderHitValue o' <> 300%Z.
Proof.
  apply (dropped_slider_stays_dropped [Frame 2000 (Point.mk 0 0) true]
           Samples.releasedSliderGame).
  - vm_compute. reflexivity.
  - vm_compute. reflexivity.
  - vm_compute. reflexivity.
  - vm_compute. reflexivity.
Defined.

End Session.

(** ** The arc through three points *)

Section CircleCentre.

Import OsuParser Distance.

Local Open Scope Q_scope.

Variable hypot : Q -> Q -> Q.
Variable atan2 : Q -> Q -> Q.
Variable cos : Q -> Q.
Variable sin : Q -> Q.

Lemma getCircleCenter_collinear (p1 p2 p3 : Point.t) :
  cross p1 p2 p3 == 0 -> getCircleCenter p1 p2 p3 = None.
Proof.
  intros Hcross. unfold getCircleCenter. cbv zeta.
  match goal with
  | |- (if JS.Qltb (Qabs ?d) _ then _ else _) = _ =>
      assert (Hd : d == 0)
  end.
  { unfold cross in Hcross. lra. }
  match goal with
  | |- (if ?c then _ else _) = _ => assert (Hc : c = true); [| rewrite Hc; reflexivity]
  end.
  apply Qltb_lt. rewrite Hd. reflexivity.
Qed.

(** X12.  The centre that [getCircleCenter] returns is at the same distance
    from the three points; for three points on a line it returns null, and
    the curve of the slider is the polyline of [generateLinearCurve]. *)
Theorem circle_centre_equidistant (p1 p2 p3 : Point.t) :
  (forall c : Point.t,
      getCircleCenter p1 p2 p3 = Some c ->
      squared p1 c == squared p2 c /\ squared p2 c == squared p3 c)
  /\ (cross p1 p2 p3 == 0 ->
      forall (rest : list Point.t) (resolution : positive),
        generatePerfectCircleCurve hypot atan2 cos sin (p1 :: p2 :: p3 :: rest) resolution
        = generateLinearCurve (p1 :: p2 :: p3 :: rest) resolution).
Proof.
  split.
  - intros c. unfold getCircleCenter. cbv zeta.
    destruct (JS.Qltb _ _) eqn:Hd; [discriminate |].
    apply Qltb_ge in Hd.
    intros H; injection H as <-. unfold squared. cbn [Point.x Point.y].
    assert (Hnz : ~ 2 * (Point.x p1 * (Point.y p2 - Point.y p3)
                         + Point.x p2 * (Point.y p3 - Point.y p1)
                         + Point.x p3 * (Point.y p1 - Point.y p2)) == 0).
    { intros H0. rewrite H0 in Hd. vm_compute in Hd. apply Hd. reflexivity. }
    split; field; intros H0; apply Hnz; rewrite H0; reflexivity.
  - intros Hcross rest resolution. unfold generatePerfectCircleCurve.
    rewrite (getCircleCenter_collinear _ _ _ Hcross). reflexivity.
Qed.

End CircleCentre.

Lemma circle_centre_equidistant_witness :
  (Distance.squared (Point.mk 0 0) GeometrySamples.centre
   == Distance.squared (Point.mk 1 1) GeometrySamples.centre
   /\ Distance.squared (Point.mk 1 1) GeometrySamples.centre
      == Distance.squared (Point.mk 2 0) GeometrySamples.centre)
  /\ OsuParser.generatePerfectCircleCurve Samples.axisHypot Samples.noAngle
       Samples.noValue Samples.noValue [Point.mk 0 0; Point.mk 1 0; Point.mk 2 0] 4
     = OsuParser.generateLinearCurve [Point.mk 0 0; Point.mk 1 0; Point.mk 2 0] 4.
Proof.
  split.
  - apply (circle_centre_equidistant Samples.axisHypot Samples.noAngle
             Samples.noValue Samples.noValue (Point.mk 0 0) (Point.mk 1 1) (Point.mk 2 0)).
    vm_compute. reflexivity.
  - apply (circle_centre_equidistant Samples.axisHypot Samples.noAngle
             Samples.noValue Samples.noValue (Point.mk 0 0) (Point.mk 1 0) (Point.mk 2 0)).
    vm_compute. reflexivity.
Defined.

(** ** The length of the trimmed curve *)

Section TrimmedLength.

Import OsuParser CurveSpec.

Local Open Scope Q_scope.

Lemma trimCurveLoop_length (hypot : Q -> Q -> Q) (rest : list Point.t) :
  forall (prev : Point.t) (currentLength targetLength : Q),
    (List.length (trimCurveLoop hypot prev rest currentLength targetLength)
     <= List.length rest)%nat.
Proof.
  induction rest as [| curr rest IH]; intros prev currentLength targetLength;
    cbn [trimCurveLoop]; [reflexivity |]. cbv zeta.
  destruct (JS.Qgeb _ _); cbn [List.length]; [lia |].
  specialize (IH curr (currentLength
                       + hypot (Point.x curr - Point.x prev) (Point.y curr - Point.y prev))
                targetLength). lia.
Qed.

(** X13.  [trimCurveToLength] keeps the first point of the curve and never
    returns more points than it got.  In exact arithmetic, with a [hypot]
    that is not negative and scales as the Euclidean length does, the
    trimmed curve has exactly the target length when the target is positive
    and the curve at least that long, and is the whole curve when the curve
    is shorter than the target. *)
Theorem trimmed_curve_length (hypot : Q -> Q -> Q) (points : list Point.t)
  (targetLength : Q) :
  (forall a a' b b' : Q, a == a' -> b == b' -> hypot a b == hypot a' b') ->
  (forall dx dy : Q, 0 <= hypot dx dy) ->
  (forall dx dy t : Q, 0 <= t -> hypot (dx * t) (dy * t) == t * hypot dx dy) ->
  head (trimCurveToLength hypot points targetLength) = head points
  /\ (List.length (trimCurveToLength hypot points targetLength)
      <= List.length points)%nat
  /\ (0 < targetLength ->
      targetLength <= polylineLength hypot points ->
      polylineLength hypot (trimCurveToLength hypot points targetLength)
      == targetLength)
  /\ (polylineLength hypot points < targetLength ->
      trimCurveToLength hypot points targetLength = points).
Proof.
  intros Hcompat Hnonneg Hscale.
  split; [destruct points as [| p0 [| p1 rest]]; reflexivity |].
  split.
  { destruct points as [| p0 [| p1 rest]]; try reflexivity.
    unfold trimCurveToLength. cbn [List.length].
    pose proof (trimCurveLoop_length hypot (p1 :: rest) p0 0 targetLength) as H.
    cbn [List.length] in H. lia. }
  split.
  - apply trimCurveToLength_exact; assumption.
  - apply trimCurveToLength_whole; assumption.
Qed.

Lemma trimmed_curve_length_witness :
  polylineLength Samples.axisHypot
    (trimCurveToLength Samples.axisHypot GeometrySamples.corner 14) == 14
  /\ trimCurveToLength Samples.axisHypot GeometrySamples.corner 25
     = GeometrySamples.corner.
Proof.
  destruct (trimmed_curve_length Samples.axisHypot GeometrySamples.corner 14)
    as (_ & _ & Hexact & _).
  - intros a a' b b' Ha Hb. unfold Samples.axisHypot. rewrite Ha, Hb. reflexivity.
  - intros dx dy. unfold Samples.axisHypot.
    pose proof (Qabs_nonneg dx). pose proof (Qabs_nonneg dy). lra.
  - intros dx dy t Ht. unfold Samples.axisHypot.
    rewrite !Qabs_Qmult, (Qabs_pos t Ht). ring.
  - destruct (trimmed_curve_length Samples.axisHypot GeometrySamples.corner 25)
      as (_ & _ & _ & Hwhole).
    + intros a a' b b' Ha Hb. unfold Samples.axisHypot. rewrite Ha, Hb. reflexivity.
    + intros dx dy. unfold Samples.axisHypot.
      pose proof (Qabs_nonneg dx). pose proof (Qabs_nonneg dy). lra.
    + intros dx dy t Ht. unfold Samples.axisHypot.
      rewrite !Qabs_Qmult, (Qabs_pos t Ht). ring.
    + split.
      * apply Hexact; [reflexivity | vm_compute; discriminate].
      * apply Hwhole. vm_compute. reflexivity.
Defined.

End TrimmedLength.

(** ** The store that [loadBeatmap] builds *)

Section LoadedStore.

Import OsuParser OsuGame Lifecycle Numbers.

Variable hypot : Q -> Q -> Q.
Variable atan2 : Q -> Q -> Q.
Variable cos : Q -> Q.
Variable sin : Q -> Q.

Lemma insertByTime_perm (o : Obj.t) (sorted : list Obj.t) :
  insertByTime o sorted ≡ₚ o :: sorted.
Proof.
  induction sorted as [| o' rest IH]; cbn [insertByTime]; [reflexivity |].
  destruct (Obj.time o <=? Obj.time o')%Z; [reflexivity |].
  rewrite IH. apply Permutation_swap.
Qed.

Lemma sortByTime_perm (objects : list Obj.t) : sortByTime objects ≡ₚ objects.
Proof.
  unfold sortByTime. induction objects as [| o rest IH]; cbn [foldr]; [reflexivity |].
  rewrite insertByTime_perm, IH. reflexivity.
Qed.

Lemma insertByTime_sorted (o : Obj.t) (sorted : list Obj.t) :
  StronglySorted (fun a b => (Obj.time a <= Obj.time b)%Z) sorted ->
  StronglySorted (fun a b => (Obj.time a <= Obj.time b)%Z) (insertByTime o sorted).
Proof.
  induction 1 as [| o' rest Hrest IH Hall]; cbn [insertByTime];
    [repeat constructor |].
  destruct (Obj.time o <=? Obj.time o')%Z eqn:E.
  - apply Z.leb_le in E. constructor; [constructor; assumption |].
    constructor; [exact E |].
    eapply Forall_impl; [exact Hall |]. cbn. intros b Hb. lia.
  - apply Z.leb_gt in E. constructor; [exact IH |].
    rewrite (insertByTime_perm o rest). constructor; [lia | exact Hall].
Qed.

Lemma sortByTime_sorted (objects : list Obj.t) :
  StronglySorted (fun a b => (Obj.time a <= Obj.time b)%Z) (sortByTime objects).
Proof.
  unfold sortByTime. induction objects as [| o rest IH]; cbn [foldr];
    [constructor | apply insertByTime_sorted; exact IH].
Qed.

Lemma sorted_inTimeOrder (objects : list Obj.t) :
  StronglySorted (fun a b => (Obj.time a <= Obj.time b)%Z) objects ->
  inTimeOrder objects.
Proof.
  induction 1 as [| o rest Hrest IH Hall]; intros i j a b Hij Ha Hb;
    [rewrite lookup_nil in Ha; discriminate |].
  destruct i as [| i], j as [| j]; cbn in Ha, Hb; try lia.
  - assert (a = b) by congruence. subst b. lia.
  - injection Ha as <-. rewrite Forall_forall in Hall.
    apply Hall. exact (list_elem_of_lookup_2 _ _ _ Hb).
  - apply (IH i j a b); [lia | assumption | assumption].
Qed.

Lemma loadHitObject_pending (fuel : nat) (d : OsuParser.difficulty)
  (tps : list timingPoint) (obj : HitObject.t) (o : Obj.t) :
  loadHitObject hypot atan2 cos sin fuel d tps obj = Some o ->
  Obj.state o = PENDING /\ Obj.ticksHit o = 0%Z
  /\ Some (Obj.time o) = HitObject.time obj
  /\ Obj.type o = HitObject.type obj.
Proof.
  unfold loadHitObject.
  destruct (HitObject.x obj) as [x |]; [| discriminate].
  destruct (HitObject.y obj) as [y |]; [| discriminate].
  destruct (HitObject.time obj) as [time |]; [| discriminate].
  cbn [mbind option_bind].
  destruct (HitObject.type obj).
  - intros H; injection H as <-. repeat split.
  - destruct (generateCurve _ _ _ _ _ _ _ _ _ _ _) as [curvePoints |];
      [| discriminate].
    cbn [mbind option_bind]. intros H; injection H as <-. repeat split.
Qed.

Lemma loadHitObject_returns (fuel : nat) (d : OsuParser.difficulty)
  (tps : list timingPoint) (obj : HitObject.t) :
  numbered obj -> (102 <= fuel)%nat ->
  is_Some (loadHitObject hypot atan2 cos sin fuel d tps obj).
Proof.
  intros ([x Hx] & [y Hy] & [time Htime]) Hfuel. unfold loadHitObject.
  rewrite Hx, Hy, Htime. cbn [mbind option_bind].
  destruct (HitObject.type obj); [eexists; reflexivity |].
  assert (Hcurve : is_Some (generateCurve hypot atan2 cos sin fuel
                              (HitObject.curveType obj) (inject_Z x) (inject_Z y)
                              (HitObject.controlPoints obj) (HitObject.length obj) 100)).
  { destruct (HitObject.controlPoints obj) as [| c controlPoints].
    - rewrite generateCurve_head_only. eexists. reflexivity.
    - destruct (generateCurve_returns hypot atan2 cos sin (HitObject.curveType obj)
                  (inject_Z x) (inject_Z y) (c :: controlPoints) (HitObject.length obj)
                  100 fuel) as (samples & H & _);
        [discriminate | change (Pos.to_nat 100) with 100%nat; lia |].
      rewrite H. eexists. reflexivity. }
  destruct Hcurve as [curvePoints Hcurve]. rewrite Hcurve.
  cbn [mbind option_bind]. eexists. reflexivity.
Qed.

Lemma loadHitObject_place (fuel : nat) (d : OsuParser.difficulty)
  (tps : list timingPoint) (obj : HitObject.t) (o : Obj.t) :
  loadHitObject hypot atan2 cos sin fuel d tps obj = Some o ->
  storePlace o = chartPlace obj.
Proof.
  unfold loadHitObject, storePlace, chartPlace.
  destruct (HitObject.x obj) as [x |]; [| discriminate].
  destruct (HitObject.y obj) as [y |]; [| discriminate].
  destruct (HitObject.time obj) as [time |]; [| discriminate].
  cbn [mbind option_bind].
  destruct (HitObject.type obj).
  - intros H; injection H as <-. reflexivity.
  - destruct (generateCurve _ _ _ _ _ _ _ _ _ _ _) as [curvePoints |];
      [| discriminate].
    cbn [mbind option_bind]. intros H; injection H as <-. reflexivity.
Qed.

(** X14.  A chart whose objects all have numbers as [x], [y] and [time]
    loads, and its store holds the objects of the chart, each once with
    its place, its time and its type, in the order of their times, all of
    them waiting and with no tick; no object is active and the cursor is at
    the first object.  An object with NaN there, which the code loads too,
    is outside the model of the game. *)
Theorem loadBeatmap_store (fuel : nat) (d : OsuParser.difficulty)
  (tps : list timingPoint) (parsed : list HitObject.t) :
  Forall numbered parsed ->
  (102 <= fuel)%nat ->
  exists g : game,
    loadBeatmap hypot atan2 cos sin fuel d tps parsed = Some g
    /\ inTimeOrder (hitObjects g)
    /\ storePlace <$> hitObjects g ≡ₚ chartPlace <$> parsed
    /\ (exists objects : list Obj.t,
           mapM (loadHitObject hypot atan2 cos sin fuel d tps) parsed = Some objects
           /\ hitObjects g ≡ₚ objects)
    /\ List.length (hitObjects g) = List.length parsed
    /\ Forall (fun o => Obj.state o = PENDING /\ Obj.ticksHit o = 0%Z) (hitObjects g)
    /\ activeObjects g = []
    /\ nextObjectIndex g = 0%nat.
Proof.
  intros Hnumbers Hfuel. unfold loadBeatmap.
  assert (Hsome : is_Some (mapM (loadHitObject hypot atan2 cos sin fuel d tps) parsed)).
  { apply mapM_is_Some. eapply Forall_impl; [exact Hnumbers |].
    intros obj Hobj. apply loadHitObject_returns; assumption. }
  destruct Hsome as [objects Hobjects]. rewrite Hobjects.
  cbn [mbind option_bind]. eexists. split; [reflexivity |].
  cbn [hitObjects activeObjects nextObjectIndex].
  apply mapM_Some_1 in Hobjects as Hall.
  split; [apply sorted_inTimeOrder, sortByTime_sorted |].
  split.
  { rewrite (sortByTime_perm objects).
    assert (Heq : storePlace <$> objects = chartPlace <$> parsed).
    { clear Hobjects Hnumbers.
      induction Hall as [| obj o parsed objects Ho _ IH]; [reflexivity |].
      cbn [fmap list_fmap]. rewrite (loadHitObject_place _ _ _ _ _ Ho).
      f_equal. exact IH. }
    rewrite Heq. reflexivity. }
  split; [exists objects; split; [reflexivity | apply sortByTime_perm] |].
  split.
  { rewrite (Permutation_length (sortByTime_perm objects)).
    symmetry. exact (length_mapM _ _ _ Hobjects). }
  split; [| split; reflexivity].
  rewrite (sortByTime_perm objects).
  clear Hobjects Hnumbers.
  induction Hall as [| obj o parsed objects Ho _ IH]; constructor; [| exact IH].
  destruct (loadHitObject_pending _ _ _ _ _ Ho) as (H1 & H2 & _). split; assumption.
Qed.

End LoadedStore.

Lemma loadBeatmap_store_witness :
  exists g : OsuGame.game,
    OsuGame.loadBeatmap Samples.axisHypot Samples.noAngle Samples.noValue Samples.noValue
      102 Samples.defaultDifficulty [] StoreSamples.parsed = Some g
    /\ Lifecycle.inTimeOrder (OsuGame.hitObjects g)
    /\ List.length (OsuGame.hitObjects g) = List.length StoreSamples.parsed.
Proof.
  destruct (loadBeatmap_store Samples.axisHypot Samples.noAngle Samples.noValue
              Samples.noValue 102 Samples.defaultDifficulty [] StoreSamples.parsed)
    as (g & Hload & Hord & _ & _ & Hlen & _).
  - apply (Forall_forall Numbers.numbered StoreSamples.parsed).
    intros obj Hobj.
    assert (Hall : forallb (fun o => match OsuParser.HitObject.x o,
                                           OsuParser.HitObject.y o,
                                           OsuParser.HitObject.time o with
                                     | Some _, Some _, Some _ => true
                                     | _, _, _ => false
                                     end) StoreSamples.parsed = true)
      by (vm_compute; reflexivity).
    rewrite forallb_forall in Hall. apply list_elem_of_In, Hall in Hobj.
    unfold Numbers.numbered.
    destruct (OsuParser.HitObject.x obj), (OsuParser.HitObject.y obj),
      (OsuParser.HitObject.time obj); try discriminate Hobj; eauto.
  - lia.
  - exists g. auto.
Defined.

(** ** A session of a loaded chart returns *)

Section NeverThrows.

Import OsuParser OsuGame Invariants Numbers.

Local Open Scope Q_scope.

Variable hypot : Q -> Q -> Q.
Variable atan2 : Q -> Q -> Q.
Variable cos : Q -> Q.
Variable sin : Q -> Q.
Variable parseFloat : string -> option Q.
Variable Number : string -> option Q.

Lemma orQ_nonzero (n : option Q) (d : Q) : ~ d == 0 -> ~ JS.orQ n d == 0.
Proof.
  intros Hd. unfold JS.orQ. destruct n as [v |]; [| exact Hd].
  destruct (Qeq_bool v 0) eqn:E; [exact Hd |].
  apply Qeq_bool_neq. exact E.
Qed.

Lemma Qdiv_nonzero (a b : Q) : ~ a == 0 -> ~ b == 0 -> ~ a / b == 0.
Proof.
  intros Ha Hb H. apply Ha.
  assert (E : a == a / b * b) by (field; exact Hb).
  rewrite E, H. ring.
Qed.

Lemma Qmult_nonzero (a b : Q) : ~ a == 0 -> ~ b == 0 -> ~ a * b == 0.
Proof.
  intros Ha Hb H. apply Qmult_integral in H. tauto.
Qed.

Lemma beatLengthLoop_nonzero (tps : list timingPoint) (time beatLength multiplier : Q) :
  Forall (fun tp => ~ msPerBeat tp == 0) tps ->
  ~ beatLength == 0 -> ~ multiplier == 0 ->
  ~ fst (beatLengthLoop tps time beatLength multiplier) == 0
  /\ ~ snd (beatLengthLoop tps time beatLength multiplier) == 0.
Proof.
  intros Hall. revert beatLength multiplier.
  induction Hall as [| tp tps Htp _ IH]; intros beatLength multiplier Hb Hm;
    cbn [beatLengthLoop]; [split; assumption |].
  destruct (JS.Qgtb _ _); [split; assumption |].
  destruct (negb (inherited tp)); apply IH; try assumption.
  apply Qdiv_nonzero; [discriminate | exact Htp].
Qed.

Lemma getBeatLengthAtTime_nonzero (tps : list timingPoint) (time : Q) :
  Forall (fun tp => ~ msPerBeat tp == 0) tps ->
  ~ getBeatLengthAtTime tps time == 0.
Proof.
  intros Hall. unfold getBeatLengthAtTime.
  destruct (beatLengthLoop_nonzero tps time 500 1 Hall) as [H1 H2];
    [discriminate | discriminate |].
  destruct (beatLengthLoop tps time 500 1) as [beatLength multiplier].
  apply Qdiv_nonzero; assumption.
Qed.

Lemma parseHitObjectsFrom_length (safe : Z) (lines : list string) :
  forall comboNumber comboColorIndex : Z,
    Forall (fun o => HitObject.type o = slider -> ~ HitObject.length o == 0)
      (parseHitObjectsFrom parseFloat Number safe lines comboNumber comboColorIndex).
Proof.
  induction lines as [| line rest IH]; intros comboNumber comboColorIndex;
    cbn [parseHitObjectsFrom]; [constructor |]. cbv zeta.
  destruct (_ <? 4)%nat; [apply IH |].
  destruct (negb (Z.land _ 8 =? 0)%Z); [apply IH |].
  apply Forall_app. split; [| apply Forall_app; split; [| apply IH]].
  - destruct (_ && _); constructor; [discriminate | constructor].
  - destruct (negb (Z.land _ 2 =? 0)%Z); constructor; [| constructor].
    intros _. cbn [HitObject.length]. apply orQ_nonzero. discriminate.
Qed.

Lemma loadHitObject_playable (fuel : nat) (d : OsuParser.difficulty)
  (tps : list timingPoint) (obj : HitObject.t) (o : Obj.t) :
  Forall (fun tp => ~ msPerBeat tp == 0) tps ->
  ~ sliderMultiplier d == 0 ->
  (HitObject.type obj = slider -> ~ HitObject.length obj == 0) ->
  loadHitObject hypot atan2 cos sin fuel d tps obj = Some o ->
  playable o.
Proof.
  intros Htps Hmult Hlength. unfold loadHitObject.
  destruct (HitObject.x obj) as [x |]; [| discriminate].
  destruct (HitObject.y obj) as [y |]; [| discriminate].
  destruct (HitObject.time obj) as [time |]; [| discriminate].
  cbn [mbind option_bind].
  destruct (HitObject.type obj).
  - intros H; injection H as <-. left. cbn. lia.
  - destruct (generateCurve _ _ _ _ _ _ _ _ _ _ _) as [curvePoints |];
      [| discriminate].
    cbn [mbind option_bind]. intros H; injection H as <-. right.
    cbn [Obj.slideDuration]. unfold getSliderDuration.
    apply Qmult_nonzero; [| apply getBeatLengthAtTime_nonzero; exact Htps].
    apply Qdiv_nonzero; [apply Hlength; reflexivity |].
    apply Qmult_nonzero; [exact Hmult | discriminate].
Qed.

(** X15.  The game does not throw on a chart whose timing points have
    numbers as their offsets and beat lengths, no beat length being 0, and
    whose objects have numbers as [x], [y] and [time]: such a chart loads,
    and every sequence of frames and presses of a session of it is handled
    to its end.  A timing point whose beat length is NaN or 0 and an
    object with NaN there are outside this property. *)
Theorem loaded_chart_never_throws (fuel : nat)
  (difficultyLines timingLines lines : list string) (comboColorCount : Z)
  (tps : list timingPoint) (events : list event) :
  mapM TimingLines.numeric (TimingLines.parseTimingPoints parseFloat timingLines)
  = Some tps ->
  Forall (fun tp => ~ msPerBeat tp == 0) tps ->
  Forall numbered (parseHitObjects parseFloat Number lines comboColorCount) ->
  (102 <= fuel)%nat ->
  exists g0 : game,
    loadBeatmap hypot atan2 cos sin fuel (parseDifficulty parseFloat difficultyLines) tps
      (parseHitObjects parseFloat Number lines comboColorCount) = Some g0
    /\ is_Some (handleEvents events (startCountdown g0)).
Proof.
  intros _ Htps Hnumbers Hfuel. unfold loadBeatmap.
  assert (Hsome : is_Some (mapM (loadHitObject hypot atan2 cos sin fuel
                                   (parseDifficulty parseFloat difficultyLines) tps)
                             (parseHitObjects parseFloat Number lines comboColorCount))).
  { apply mapM_is_Some. eapply Forall_impl; [exact Hnumbers |].
    intros obj Hobj. apply loadHitObject_returns; assumption. }
  destruct Hsome as [objects Hobjects]. rewrite Hobjects.
  cbn [mbind option_bind]. eexists. split; [reflexivity |].
  apply handleEvents_returns.
  cbn [startCountdown hitObjects].
  apply Forall_fmap.
  rewrite (sortByTime_perm objects).
  apply mapM_Some_1 in Hobjects.
  pose proof (parseHitObjectsFrom_length (Z.max 1 comboColorCount) lines 0 0) as Hparsed.
  fold (parseHitObjects parseFloat Number lines comboColorCount) in Hparsed.
  clear Hnumbers.
  induction Hobjects as [| obj o parsed objects Ho _ IH]; [constructor |].
  apply Forall_cons in Hparsed as [Hobj Hparsed].
  constructor; [| apply IH; exact Hparsed].
  assert (Hplay : playable o).
  { apply (loadHitObject_playable _ _ _ _ _ Htps) with (3 := Ho); [| exact Hobj].
    cbn [parseDifficulty sliderMultiplier]. apply orQ_nonzero. discriminate. }
  destruct Hplay as [H | H]; [left | right]; exact H.
Qed.

End NeverThrows.

Lemma loaded_chart_never_throws_witness :
  exists g0 : OsuGame.game,
    OsuGame.loadBeatmap Samples.axisHypot Samples.noAngle Samples.noValue Samples.noValue
      102 (OsuParser.parseDifficulty Samples.integer []) StoreSamples.timingPoints
      (OsuParser.parseHitObjects Samples.integer Samples.integer StoreSamples.objectLines 4)
    = Some g0
    /\ is_Some (OsuGame.handleEvents Samples.heldSlide (OsuGame.startCountdown g0)).
Proof.
  apply (loaded_chart_never_throws Samples.axisHypot Samples.noAngle Samples.noValue
           Samples.noValue Samples.integer Samples.integer 102 []
           StoreSamples.timingLines StoreSamples.objectLines 4
           StoreSamples.timingPoints Samples.heldSlide).
  - vm_compute. reflexivity.
  - repeat constructor; discriminate.
  - apply (Forall_forall Numbers.numbered).
    intros obj Hobj.
    assert (Hall : forallb (fun o => match OsuParser.HitObject.x o,
                                           OsuParser.HitObject.y o,
                                           OsuParser.HitObject.time o with
                                     | Some _, Some _, Some _ => true
                                     | _, _, _ => false
                                     end)
                     (OsuParser.parseHitObjects Samples.integer Samples.integer
                        StoreSamples.objectLines 4) = true)
      by (vm_compute; reflexivity).
    rewrite forallb_forall in Hall. apply list_elem_of_In, Hall in Hobj.
    unfold Numbers.numbered.
    destruct (OsuParser.HitObject.x obj), (OsuParser.HitObject.y obj),
      (OsuParser.HitObject.time obj); try discriminate Hobj; eauto.
  - lia.
Defined.

(** ** Accuracy and grade *)

Section AccuracyRange.

Import OsuGame.

Local Open Scope Q_scope.

Lemma accuracy_quotient (weighted total : Z) :
  (0 < total)%Z -> (0 <= weighted <= total * 300)%Z ->
  0 <= inject_Z weighted / inject_Z (total * 300) * 100 <= 100
  /\ (inject_Z weighted / inject_Z (total * 300) * 100 == 100
      <-> weighted = (total * 300)%Z).
Proof.
  intros Htotal [Hlow Hup].
  assert (Hden : 0 < inject_Z (total * 300))
    by (change 0 with (inject_Z 0); rewrite <- Zlt_Qlt; lia).
  assert (Hw : 0 <= inject_Z weighted)
    by (change 0 with (inject_Z 0); rewrite <- Zle_Qle; lia).
  assert (Hle : inject_Z weighted <= inject_Z (total * 300))
    by (rewrite <- Zle_Qle; lia).
  assert (Hq : 0 <= inject_Z weighted / inject_Z (total * 300) <= 1).
  { split.
    - apply Qle_shift_div_l; [exact Hden | lra].
    - apply Qle_shift_div_r; [exact Hden | lra]. }
  split; [lra |].
  split.
  - intros H.
    assert (H1 : inject_Z weighted / inject_Z (total * 300) == 1) by lra.
    assert (H2 : inject_Z weighted == inject_Z (total * 300)).
    { rewrite <- (Qmult_1_l (inject_Z (total * 300))), <- H1. field. lra. }
    apply inject_Z_injective. exact H2.
  - intros ->. field. lra.
Qed.

(** X16.  With counters that are not negative the accuracy is between 0 and
    100; when something was judged it is 100 exactly when every judgement
    is a 300; and the grade S is given to no play with a miss. *)
Theorem accuracy_within_range (s : Stats.t) :
  (0 <= Stats.hit300 s)%Z -> (0 <= Stats.hit100 s)%Z ->
  (0 <= Stats.hit50 s)%Z -> (0 <= Stats.misses s)%Z ->
  0 <= calculateAccuracy s <= 100
  /\ ((0 < Stats.hit300 s + Stats.hit100 s + Stats.hit50 s + Stats.misses s)%Z ->
      (calculateAccuracy s == 100
       <-> Stats.hit100 s = 0%Z /\ Stats.hit50 s = 0%Z /\ Stats.misses s = 0%Z))
  /\ (calculateGrade s = "S"%string -> Stats.misses s = 0%Z).
Proof.
  intros H300 H100 H50 Hmiss.
  set (total := (Stats.hit300 s + Stats.hit100 s + Stats.hit50 s + Stats.misses s)%Z).
  set (weighted := (Stats.hit300 s * 300 + Stats.hit100 s * 100 + Stats.hit50 s * 50)%Z).
  assert (Hcases : (total = 0%Z /\ calculateAccuracy s = 100)
                   \/ ((0 < total)%Z
                       /\ calculateAccuracy s
                          = inject_Z weighted / inject_Z (total * 300) * 100)).
  { unfold calculateAccuracy. fold total. fold weighted.
    destruct (total =? 0)%Z eqn:E.
    - left. apply Z.eqb_eq in E. split; [exact E | reflexivity].
    - right. apply Z.eqb_neq in E. split; [lia | reflexivity]. }
  assert (Hbound : (0 <= weighted <= total * 300)%Z) by lia.
  split; [| split].
  - destruct Hcases as [[_ ->] | [Hpos ->]]; [split; discriminate |].
    apply accuracy_quotient; assumption.
  - intros Hpos. destruct Hcases as [[Hzero _] | [_ ->]]; [lia |].
    destruct (accuracy_quotient weighted total Hpos Hbound) as [_ ->].
    unfold weighted, total. lia.
  - unfold calculateGrade. fold total.
    destruct (total =? 0)%Z eqn:E; [discriminate |].
    apply Z.eqb_neq in E.
    destruct (Qeq_bool (calculateAccuracy s) 100) eqn:Hacc.
    + intros _. apply Qeq_bool_iff in Hacc.
      destruct Hcases as [[Hzero _] | [Hpos Heq]]; [lia |].
      rewrite Heq in Hacc.
      apply (accuracy_quotient weighted total Hpos Hbound) in Hacc.
      unfold weighted, total in Hacc. lia.
    + destruct (_ && _ && (Stats.misses s =? 0)%Z) eqn:HS.
      * intros _. apply andb_true_iff in HS as [_ HS]. apply Z.eqb_eq in HS. exact HS.
      * repeat match goal with
               | |- (if ?c then _ else _) = _ -> _ => destruct c
               end; discriminate.
Qed.

Lemma accuracy_within_range_witness :
  0 <= calculateAccuracy (Stats.mk 0 0 17 17 2 1 1 50 false) <= 100
  /\ (calculateGrade (Stats.mk 0 0 17 17 2 1 1 50 false) = "S"%string -> 1 = 0)%Z.
Proof.
  destruct (accuracy_within_range (Stats.mk 0 0 17 17 2 1 1 50 false))
    as (Hrange & _ & Hgrade); cbn; try lia.
  split; [exact Hrange | exact Hgrade].
Defined.

End AccuracyRange.

(** ** The ball and the ticks of a slider *)

Section SliderEnds.

Import OsuParser OsuGame Distance.

Local Open Scope Q_scope.

Lemma Qfloor_eq (q : Q) (z : Z) : q == inject_Z z -> Qfloor q = z.
Proof. intros H. rewrite (Qfloor_comp _ _ H). apply Qfloor_Z. Qed.

(** The ball at a time that is a whole number [k] of slides after the
    start of the slider. *)
Lemma ball_at_turn (slider : Obj.t) (elapsed : Q) (k : Z) :
  ~ Obj.slideDuration slider == 0 ->
  (2 <= List.length (Obj.curvePoints slider))%nat ->
  (0 <= k)%Z ->
  elapsed == inject_Z k * Obj.slideDuration slider ->
  exists p : Point.t,
    getSliderBallPosition slider elapsed = Some p
    /\ (Z.odd k = true -> Some p = last (Obj.curvePoints slider))
    /\ (Z.even k = true ->
        exists p0, head (Obj.curvePoints slider) = Some p0 /\ same p p0).
Proof.
  intros Hsd Hlen Hk Helapsed.
  set (sd := Obj.slideDuration slider) in *.
  set (points := Obj.curvePoints slider) in *.
  assert (Hq : elapsed / sd == inject_Z k) by (rewrite Helapsed; field; exact Hsd).
  assert (Hfloor : Qfloor (elapsed / sd) = k) by (apply Qfloor_eq; exact Hq).
  assert (Hrem : remainder elapsed sd / sd == 0).
  { unfold remainder. cbv zeta.
    assert (Hsign : JS.Qltb (elapsed / sd) 0 = false).
    { apply Qltb_ge. rewrite Hq. change 0 with (inject_Z 0). rewrite <- Zle_Qle. exact Hk. }
    rewrite Hsign, Hfloor, Helapsed. field. exact Hsd. }
  set (total := (Z.of_nat (List.length points) - 1)%Z).
  assert (Htotal : (1 <= total)%Z) by (unfold total; lia).
  unfold getSliderBallPosition. cbv zeta. fold points. fold sd. fold total.
  destruct (List.length points <? 2)%nat eqn:E; [apply Nat.ltb_lt in E; lia |].
  destruct (Qeq_bool sd 0) eqn:E0; [apply Qeq_bool_iff in E0; contradiction |].
  rewrite Hfloor.
  set (sp := remainder elapsed sd / sd) in *.
  destruct (Z.rem k 2 =? 1)%Z eqn:Hrev.
  - (* an odd number of slides: the ball is at the end of the curve *)
    assert (Hcp : Qmax 0 (Qmin 1 (1 - sp)) == 1).
    { destruct (Q.min_spec 1 (1 - sp)) as [[H1 H2] | [H1 H2]];
        destruct (Q.max_spec 0 (Qmin 1 (1 - sp))) as [[H3 H4] | [H3 H4]]; lra. }
    assert (Hindex : Qfloor (Qmax 0 (Qmin 1 (1 - sp)) * inject_Z total) = total)
      by (apply Qfloor_eq; rewrite Hcp; ring).
    rewrite Hindex, Z.leb_refl.
    assert (Hlast : is_Some (points !! (List.length points - 1)%nat))
      by (apply lookup_lt_is_Some; lia).
    destruct Hlast as [p Hp]. exists p. split; [exact Hp |]. split.
    + intros _. rewrite last_lookup. rewrite <- Hp. f_equal. lia.
    + intros Heven. apply Z.eqb_eq in Hrev. rewrite Z.rem_mod_nonneg in Hrev by lia.
      rewrite Zeven_mod in Heven. apply Z.eqb_eq in Heven. lia.
  - (* an even number of slides: the ball is at the start of the curve *)
    assert (Hcp : Qmax 0 (Qmin 1 sp) == 0).
    { destruct (Q.min_spec 1 sp) as [[H1 H2] | [H1 H2]];
        destruct (Q.max_spec 0 (Qmin 1 sp)) as [[H3 H4] | [H3 H4]]; lra. }
    assert (Hindex : Qfloor (Qmax 0 (Qmin 1 sp) * inject_Z total) = 0%Z)
      by (apply Qfloor_eq; rewrite Hcp; ring).
    rewrite Hindex.
    destruct (total <=? 0)%Z eqn:Ele; [apply Z.leb_le in Ele; lia |].
    destruct points as [| p0 [| p1 rest]] eqn:Epoints; cbn in Hlen; try lia.
    cbn. eexists. split; [reflexivity |]. split.
    + intros Hodd. apply Z.eqb_neq in Hrev. rewrite Z.rem_mod_nonneg in Hrev by lia.
      rewrite Zodd_mod in Hodd. apply Z.eqb_eq in Hodd. lia.
    + intros _. exists p0. split; [reflexivity |].
      unfold same, interpolate. cbn [Point.x Point.y].
      assert (Ht : Qmax 0 (Qmin 1 sp) * inject_Z total - inject_Z 0 == 0)
        by (rewrite Hcp; ring).
      split; rewrite Ht; ring.
Qed.

(** X17.  The ball of a slider turns at the ends of its curve: after an odd
    number of slides it is at the last point of the curve, after an even
    number at its first point, so that at the end of the slider it is at
    the tail when the slides are odd and back at the head when they are
    even. *)
Theorem slider_ball_turns (slider : Obj.t) (k : Z) :
  ~ Obj.slideDuration slider == 0 ->
  (2 <= List.length (Obj.curvePoints slider))%nat ->
  (0 <= k)%Z ->
  exists p : Point.t,
    getSliderBallPosition slider (inject_Z k * Obj.slideDuration slider) = Some p
    /\ (Z.odd k = true -> Some p = last (Obj.curvePoints slider))
    /\ (Z.even k = true ->
        exists p0, head (Obj.curvePoints slider) = Some p0 /\ same p p0).
Proof.
  intros Hsd Hlen Hk. apply (ball_at_turn slider _ k Hsd Hlen Hk). reflexivity.
Qed.

(** X18.  At its end a slider has passed all its ticks: for a slider as
    [loadBeatmap] builds it, whose slide lasts some time, the ticks passed
    at and after the total duration are the total of its ticks. *)
Theorem all_ticks_at_end (hypot atan2 : Q -> Q -> Q) (cos sin : Q -> Q) (fuel : nat)
  (d : OsuParser.difficulty) (tps : list timingPoint) (obj : HitObject.t)
  (o : Obj.t) (elapsed : Q) :
  loadHitObject hypot atan2 cos sin fuel d tps obj = Some o ->
  HitObject.type obj = slider ->
  0 < Obj.slideDuration o ->
  Obj.totalDuration o <= elapsed ->
  getPassedSliderTicks o elapsed = Obj.totalTicks o.
Proof.
  unfold loadHitObject.
  destruct (HitObject.x obj) as [x |]; [| discriminate].
  destruct (HitObject.y obj) as [y |]; [| discriminate].
  destruct (HitObject.time obj) as [time |]; [| discriminate].
  cbn [mbind option_bind]. intros Hload Htype. rewrite Htype in Hload.
  destruct (generateCurve _ _ _ _ _ _ _ _ _ _ _) as [curvePoints |];
    [| discriminate].
  cbn [mbind option_bind] in Hload. cbv zeta in Hload. injection Hload as <-.
  cbn [Obj.slideDuration Obj.totalDuration Obj.totalTicks].
  set (sd := getSliderDuration _ _ _).
  set (ticks := Z.max 0 _).
  set (slides := HitObject.slides obj).
  intros Hsd Hend.
  unfold getPassedSliderTicks.
  cbn [Obj.ticksPerSlide Obj.tickSpacing Obj.totalDuration Obj.slides
       Obj.slideDuration Obj.totalTicks].
  destruct (ticks <=? 0)%Z eqn:Eticks; cbn [orb].
  { apply Z.leb_le in Eticks. assert (ticks = 0%Z) by (unfold ticks in *; lia). lia. }
  apply Z.leb_gt in Eticks.
  assert (Hticks : (0 <? ticks)%Z = true) by (apply Z.ltb_lt; exact Eticks).
  rewrite Hticks.
  assert (Hden : 0 < inject_Z (ticks + 1))
    by (change 0 with (inject_Z 0); rewrite <- Zlt_Qlt; lia).
  assert (Hspacing : 0 < sd / inject_Z (ticks + 1))
    by (apply Qlt_shift_div_l; [exact Hden | lra]).
  apply Qle_bool_gt in Hspacing. rewrite Hspacing.
  cbv zeta.
  set (clamped := Qmax 0 (Qmin elapsed (sd * inject_Z slides))).
  assert (Hcompleted : Z.min slides (Qfloor (clamped / sd)) = slides).
  { destruct (Z_lt_le_dec slides 0) as [Hneg | Hpos].
    - assert (Hc : clamped == 0).
      { assert (sd * inject_Z slides < 0).
        { assert (inject_Z slides < 0)
            by (change 0 with (inject_Z 0); rewrite <- Zlt_Qlt; exact Hneg).
          nra. }
        unfold clamped.
        destruct (Q.min_spec elapsed (sd * inject_Z slides)) as [[H1 H2] | [H1 H2]];
          destruct (Q.max_spec 0 (Qmin elapsed (sd * inject_Z slides)))
            as [[H3 H4] | [H3 H4]]; lra. }
      rewrite (Qfloor_eq (clamped / sd) 0); [lia |].
      rewrite Hc. field. lra.
    - assert (Hc : clamped == sd * inject_Z slides).
      { assert (0 <= sd * inject_Z slides).
        { assert (0 <= inject_Z slides)
            by (change 0 with (inject_Z 0); rewrite <- Zle_Qle; exact Hpos).
          nra. }
        unfold clamped.
        destruct (Q.min_spec elapsed (sd * inject_Z slides)) as [[H1 H2] | [H1 H2]];
          destruct (Q.max_spec 0 (Qmin elapsed (sd * inject_Z slides)))
            as [[H3 H4] | [H3 H4]]; lra. }
      rewrite (Qfloor_eq (clamped / sd) slides); [lia |].
      rewrite Hc. field. lra. }
  rewrite Hcompleted, Z.ltb_irrefl. lia.
Qed.

End SliderEnds.

Lemma slider_ball_turns_witness :
  exists p : Point.t,
    OsuGame.getSliderBallPosition SessionSamples.sliderObject
      (inject_Z 1 * OsuGame.Obj.slideDuration SessionSamples.sliderObject) = Some p
    /\ Some p = last (OsuGame.Obj.curvePoints SessionSamples.sliderObject).
Proof.
  destruct (slider_ball_turns SessionSamples.sliderObject 1) as (p & Hp & Hodd & _).
  - vm_compute. discriminate.
  - vm_compute. lia.
  - lia.
  - exists p. split; [exact Hp | apply Hodd; reflexivity].
Defined.

Lemma all_ticks_at_end_witness :
  OsuGame.getPassedSliderTicks SessionSamples.sliderObject 2000
  = OsuGame.Obj.totalTicks SessionSamples.sliderObject.
Proof.
  apply (all_ticks_at_end Samples.axisHypot Samples.noAngle Samples.noValue
           Samples.noValue 102 Samples.defaultDifficulty [] StoreSamples.sliderLine).
  - vm_compute. reflexivity.
  - reflexivity.
  - vm_compute. reflexivity.
  - vm_compute. discriminate.
Defined.

Section ComboColours.

Import OsuParser Colours.

Variable parseFloat : string -> option Q.
Variable Number : string -> option Q.

Lemma parseHitObjectsFrom_colours (safe : Z) (lines : list string) :
  (0 < safe)%Z ->
  forall comboNumber comboColorIndex : Z,
    (0 <= comboNumber)%Z -> (0 <= comboColorIndex < safe)%Z ->
    Forall (fun o => (1 <= HitObject.comboNumber o)%Z
                     /\ (0 <= HitObject.comboColorIndex o < safe)%Z)
      (parseHitObjectsFrom parseFloat Number safe lines comboNumber comboColorIndex).
Proof.
  intros Hsafe. induction lines as [| line rest IH];
    intros comboNumber comboColorIndex Hnumber Hcolor;
    cbn [parseHitObjectsFrom]; [constructor |]. cbv zeta.
  destruct (_ <? 4)%nat; [apply IH; assumption |].
  destruct (negb (Z.land _ 8 =? 0)%Z); [apply IH; assumption |].
  set (type := JS.toInt32 _).
  set (number' := if negb (Z.land type 4 =? 0)%Z then 1%Z else (comboNumber + 1)%Z).
  set (color' := if negb (Z.land type 4 =? 0)%Z
                 then ((comboColorIndex + 1 + Z.land (Z.shiftr type 4) 7) mod safe)%Z
                 else comboColorIndex).
  assert (Hnumber' : (1 <= number')%Z)
    by (unfold number'; destruct (negb _); lia).
  assert (Hcolor' : (0 <= color' < safe)%Z).
  { unfold color'. destruct (negb _); [| exact Hcolor].
    apply Z.mod_pos_bound. exact Hsafe. }
  apply Forall_app. split; [| apply Forall_app; split].
  - destruct (_ && _); constructor; [split; assumption | constructor].
  - destruct (negb (Z.land type 2 =? 0)%Z); constructor; [split; assumption | constructor].
  - apply IH; [lia | exact Hcolor'].
Qed.

Lemma parseColours_nonempty (lines : list string) :
  (0 < List.length (parseColours lines))%nat.
Proof.
  unfold parseColours. cbv zeta.
  destruct (List.length _ =? 0)%nat eqn:E; [cbn; lia |].
  apply Nat.eqb_neq in E. lia.
Qed.

(** X19.  Every object of a chart has a colour: [parseColours] returns at
    least one colour, every object that [parseHitObjects] returns for that
    many colours has a combo number of at least 1 and a colour index
    within the colours, and [getComboColor] returns the colour at that
    index. *)
Theorem combo_colour_defined (colourLines lines : list string) (o : HitObject.t) :
  o ∈ parseHitObjects parseFloat Number lines
        (Z.of_nat (List.length (parseColours colourLines))) ->
  (1 <= HitObject.comboNumber o)%Z
  /\ (0 <= HitObject.comboColorIndex o
      < Z.of_nat (List.length (parseColours colourLines)))%Z
  /\ getComboColor (parseColours colourLines) o
     = parseColours colourLines !! Z.to_nat (HitObject.comboColorIndex o)
  /\ is_Some (getComboColor (parseColours colourLines) o).
Proof.
  intros Ho.
  pose proof (parseColours_nonempty colourLines) as Hlen.
  set (colours := parseColours colourLines) in *.
  unfold parseHitObjects in Ho. cbv zeta in Ho.
  replace (Z.max 1 (Z.of_nat (List.length colours)))
    with (Z.of_nat (List.length colours)) in Ho by lia.
  pose proof (parseHitObjectsFrom_colours (Z.of_nat (List.length colours)) lines
                ltac:(lia) 0 0 ltac:(lia) ltac:(lia)) as Hall.
  rewrite Forall_forall in Hall. destruct (Hall o Ho) as [Hnumber Hcolor].
  split; [exact Hnumber |]. split; [exact Hcolor |].
  assert (Hget : getComboColor colours o
                 = colours !! Z.to_nat (HitObject.comboColorIndex o)).
  { unfold getComboColor. cbv zeta.
    destruct (0 <? List.length colours)%nat eqn:E; [| apply Nat.ltb_ge in E; lia].
    rewrite Z.rem_small by exact Hcolor.
    destruct (HitObject.comboColorIndex o <? 0)%Z eqn:E'; [| reflexivity].
    apply Z.ltb_lt in E'. lia. }
  split; [exact Hget |]. rewrite Hget. apply lookup_lt_is_Some. lia.
Qed.

End ComboColours.

Lemma combo_colour_defined_witness :
  (1 <= OsuParser.HitObject.comboNumber ChartSamples.lastObject)%Z
  /\ Colours.getComboColor (Colours.parseColours ChartSamples.colourLines)
       ChartSamples.lastObject
     = Some (Colours.mkColour 0 255 0).
Proof.
  destruct (combo_colour_defined Samples.integer Samples.integer
              ChartSamples.colourLines Samples.circleLines ChartSamples.lastObject)
    as (Hnumber & _ & Hget & _).
  - apply list_elem_of_lookup_2 with 2%nat. vm_compute. reflexivity.
  - split; [exact Hnumber |]. rewrite Hget. vm_compute. reflexivity.
Defined.

(** ** The sections of a chart *)

Section SectionLines.

Import Sections.

Local Open Scope string_scope.

Lemma endsWith_append (c : ascii) (s : string) :
  endsWith c (s ++ String c EmptyString) = true.
Proof.
  induction s as [| d s IH]; [cbn; apply Ascii.eqb_refl |].
  change (String.append (String d s) (String c EmptyString))
    with (String d (String.append s (String c EmptyString))).
  cbn [endsWith].
  destruct (String.append s (String c EmptyString)) eqn:E; [| exact IH].
  destruct s; discriminate E.
Qed.

Lemma substring_prefix (key rest : string) :
  substring 0 (String.length key) (key ++ rest) = key.
Proof.
  induction key as [| d key IH]; [cbn; destruct rest; reflexivity |].
  change (String.append (String d key) rest) with (String d (String.append key rest)).
  cbn [String.length substring]. rewrite IH. reflexivity.
Qed.

Lemma length_append (s t : string) :
  String.length (s ++ t) = (String.length s + String.length t)%nat.
Proof.
  induction s as [| d s IH]; [reflexivity |].
  change (String.append (String d s) t) with (String d (String.append s t)).
  cbn [String.length]. rewrite IH. reflexivity.
Qed.

(** The line [[name]] is a header, of the section [name]. *)
Lemma header_line (name : string) :
  isHeader (String "[" (name ++ "]")) = true
  /\ sliceInner (String "[" (name ++ "]")) = name.
Proof.
  split.
  - unfold isHeader. cbn [startsWith]. rewrite Ascii.eqb_refl. cbn [andb].
    change (String "[" (name ++ "]")) with (String "[" name ++ "]").
    apply endsWith_append.
  - unfold sliceInner. cbn [String.length]. rewrite length_append. cbn [String.length].
    replace (Datatypes.S (String.length name + 1) - 2)%nat with (String.length name)
      by lia.
    cbn [substring]. apply substring_prefix.
Qed.

Lemma splitLoop_app (pre : list string) :
  forall (sections : gmap string (list string)) (current : option string),
  exists (sections' : gmap string (list string)) (current' : option string),
    forall rest : list string,
      splitLoop (pre ++ rest) sections current = splitLoop rest sections' current'.
Proof.
  induction pre as [| line pre IH]; intros sections current.
  - exists sections, current. reflexivity.
  - cbn [app splitLoop]. cbv zeta.
    destruct (isHeader line); [apply IH |].
    destruct current as [name |]; [| apply IH].
    destruct (_ && _); apply IH.
Qed.

Lemma splitLoop_body (name : string) (body : list string) :
  name <> "" ->
  Forall (fun line => isHeader line = false) body ->
  forall sections : gmap string (list string),
    splitLoop body sections (Some name)
    = alter (fun l => (l ++ List.filter isContent body)%list) name sections.
Proof.
  intros Hname Hbody. induction Hbody as [| line body Hline _ IH]; intros sections.
  - cbn. symmetry. apply map_eq. intros key.
    destruct (decide (name = key)) as [<- | Hne];
      [rewrite lookup_alter_eq | rewrite lookup_alter_ne by exact Hne; reflexivity].
    destruct (sections !! name); cbn; [rewrite app_nil_r |]; reflexivity.
  - cbn [splitLoop List.filter]. rewrite Hline.
    destruct (String.eqb name "") eqn:E; [apply String.eqb_eq in E; contradiction |].
    cbn [negb andb].
    destruct (isContent line); [| apply IH].
    rewrite IH. apply map_eq. intros key.
    destruct (decide (name = key)) as [<- | Hne];
      [rewrite !lookup_alter_eq | rewrite !lookup_alter_ne by exact Hne; reflexivity].
    destruct (sections !! name); cbn; [| reflexivity].
    rewrite <- app_assoc. reflexivity.
Qed.

(** X20.  A section of a chart holds the lines that follow its last header:
    after a header [[name]] and lines that are no headers, the section
    [name] is those lines without the empty ones and the comments,
    whatever came before the header, also an earlier section of the same
    name; and the other sections are as they were before the header. *)
Theorem section_follows_last_header (pre body : list string) (name : string) :
  name <> "" ->
  Forall (fun line => isHeader line = false) body ->
  section (splitIntoSections (pre ++ String "[" (name ++ "]") :: body)) name
  = List.filter isContent body
  /\ forall other : string,
       other <> name ->
       section (splitIntoSections (pre ++ String "[" (name ++ "]") :: body)) other
       = section (splitIntoSections pre) other.
Proof.
  intros Hname Hbody. unfold splitIntoSections.
  destruct (splitLoop_app pre ∅ None) as (sections & current & Hpre).
  rewrite Hpre. pose proof (Hpre []) as Hend. rewrite app_nil_r in Hend.
  rewrite Hend. cbn [splitLoop].
  destruct (header_line name) as [-> ->]. cbv zeta.
  rewrite (splitLoop_body name body Hname Hbody).
  unfold section. split.
  - rewrite lookup_alter_eq, lookup_insert_eq. reflexivity.
  - intros other Hother.
    rewrite lookup_alter_ne by congruence. rewrite lookup_insert_ne by congruence.
    reflexivity.
Qed.

End SectionLines.

Lemma section_follows_last_header_witness :
  Sections.section
    (Sections.splitIntoSections
       (ChartSamples.chart ++ ChartSamples.objectLines)) "HitObjects"
  = ["256,192,1000,1,0"; "0,0,2000,1,0"]%string.
Proof.
  change (ChartSamples.chart ++ ChartSamples.objectLines)
    with ((["osu file format v14"; "[HitObjects]"; "1,1,1,1,0"; "";
           "[Metadata]"; "Title:a"; "// note"]%string
           ++ String "[" ("HitObjects" ++ "]") :: ChartSamples.objectLines)).
  destruct (section_follows_last_header
              ["osu file format v14"; "[HitObjects]"; "1,1,1,1,0"; "";
               "[Metadata]"; "Title:a"; "// note"]%string
              ChartSamples.objectLines "HitObjects") as [Hsection _].
  - discriminate.
  - repeat constructor.
  - rewrite Hsection. reflexivity.
Defined.

(** ** The playfield on the canvas *)

Section PlayfieldFits.

Import Playfield Distance.

Local Open Scope Q_scope.

(** X21.  The playfield is centred on the canvas with a margin of 50 on
    every side: the offsets are at least 50; on a canvas wider and higher
    than 100 the scale is positive, every point of the playfield of 512 by
    384 is drawn within the margins, and [canvasToOsu] takes the place on
    the canvas of a point back to the point. *)
Theorem playfield_within_margins (gameWidth gameHeight : Q) :
  50 <= playfieldOffsetX (calculatePlayfieldScale gameWidth gameHeight)
  /\ 50 <= playfieldOffsetY (calculatePlayfieldScale gameWidth gameHeight)
  /\ (100 < gameWidth -> 100 < gameHeight ->
      0 < playfieldScale (calculatePlayfieldScale gameWidth gameHeight)
      /\ forall osuX osuY : Q,
           same (canvasToOsu (calculatePlayfieldScale gameWidth gameHeight)
                   (Point.x (osuToCanvas (calculatePlayfieldScale gameWidth gameHeight)
                               osuX osuY))
                   (Point.y (osuToCanvas (calculatePlayfieldScale gameWidth gameHeight)
                               osuX osuY)))
                (Point.mk osuX osuY)
           /\ (0 <= osuX <= 512 -> 0 <= osuY <= 384 ->
               50 <= Point.x (osuToCanvas (calculatePlayfieldScale gameWidth gameHeight)
                                osuX osuY) <= gameWidth - 50
               /\ 50 <= Point.y (osuToCanvas (calculatePlayfieldScale gameWidth gameHeight)
                                   osuX osuY) <= gameHeight - 50)).
Proof.
  unfold calculatePlayfieldScale, osuToCanvas, canvasToOsu, same,
    OSU_PLAYFIELD_width, OSU_PLAYFIELD_height.
  cbv zeta. cbn [playfieldScale playfieldOffsetX playfieldOffsetY Point.x Point.y].
  set (scaleX := (gameWidth - 50 * 2) / 512).
  set (scaleY := (gameHeight - 50 * 2) / 384).
  assert (HX : 512 * scaleX == gameWidth - 100) by (unfold scaleX; field).
  assert (HY : 384 * scaleY == gameHeight - 100) by (unfold scaleY; field).
  pose proof (Q.le_min_l scaleX scaleY) as Hl.
  pose proof (Q.le_min_r scaleX scaleY) as Hr.
  assert (Hmin : 100 < gameWidth -> 100 < gameHeight -> 0 < Qmin scaleX scaleY).
  { intros Hw Hh. destruct (Q.min_spec scaleX scaleY) as [[_ ->] | [_ ->]];
      [unfold scaleX | unfold scaleY]; (apply Qlt_shift_div_l; [reflexivity | lra]). }
  set (scale := Qmin scaleX scaleY) in *.
  clearbody scale scaleX scaleY.
  assert (Hhalf : forall q : Q, q / 2 == q * (1 # 2)) by (intros q; field).
  rewrite !Hhalf.
  split; [lra |]. split; [lra |].
  intros Hw Hh. pose proof (Hmin Hw Hh) as Hpos.
  split; [exact Hpos |].
  intros osuX osuY. split.
  - split; field; lra.
  - intros [Hx0 Hx1] [Hy0 Hy1].
    assert (0 <= osuX * scale) by nra.
    assert (osuX * scale <= 512 * scale) by nra.
    assert (0 <= osuY * scale) by nra.
    assert (osuY * scale <= 384 * scale) by nra.
    rewrite !Hhalf. repeat split; lra.
Qed.

Lemma playfield_within_margins_witness :
  0 < playfieldScale (calculatePlayfieldScale 1124 868)
  /\ same (canvasToOsu (calculatePlayfieldScale 1124 868)
             (Point.x (osuToCanvas (calculatePlayfieldScale 1124 868) 256 192))
             (Point.y (osuToCanvas (calculatePlayfieldScale 1124 868) 256 192)))
          (Point.mk 256 192).
Proof.
  destruct (playfield_within_margins 1124 868) as (_ & _ & H).
  destruct H as [Hpos Hmap]; [reflexivity | reflexivity |].
  split; [exact Hpos | apply Hmap].
Defined.

End PlayfieldFits.

(** ** The lines of the section Metadata *)

Section MetadataLines.

Import JS OsuParser MetadataSpec.

Local Open Scope string_scope.

Lemma metadataEntries_app (before after : list string) (metadata : gmap string string) :
  metadataEntries (before ++ after) metadata
  = metadataEntries after (metadataEntries before metadata).
Proof.
  revert metadata. induction before as [| line before IH]; intros metadata;
    [reflexivity |].
  cbn [app metadataEntries]. cbv zeta. destruct (-1 <? indexOf ":" line)%Z; apply IH.
Qed.

Lemma metadataEntries_other (key : string) (lines : list string) :
  Forall (fun line => lineKey line <> Some key) lines ->
  forall metadata : gmap string string,
    metadataEntries lines metadata !! key = metadata !! key.
Proof.
  induction 1 as [| line lines Hline _ IH]; intros metadata; [reflexivity |].
  cbn [metadataEntries]. cbv zeta. unfold lineKey in Hline. cbv zeta in Hline.
  destruct (-1 <? indexOf ":" line)%Z; [| apply IH].
  rewrite IH. apply lookup_insert_ne. congruence.
Qed.

(** X23.  In the section Metadata the last line of a key counts: after a
    line [key:value], whose key holds no colon, and lines of other keys,
    [parseMetadata] has the trimmed value for the trimmed key, whatever the
    lines before; a title is read so, and a chart without a line of the key
    Title has the title Unknown. *)
Theorem metadata_last_line_wins (before after : list string) (key value : string) :
  indexOf ":" key = -1 ->
  Forall (fun line => lineKey line <> Some (trim key)) after ->
  metadataEntries (before ++ (key ++ String ":" value) :: after) ∅ !! trim key
  = Some (trim value)
  /\ (trim key = "Title" ->
      title (parseMetadata (before ++ (key ++ String ":" value) :: after))
      = orString (Some (trim value)) "Unknown")
  /\ (forall lines : list string,
         Forall (fun line => lineKey line <> Some "Title") lines ->
         title (parseMetadata lines) = "Unknown").
Proof.
  intros Hkey Hafter.
  assert (Hentry : metadataEntries (before ++ (key ++ String ":" value) :: after) ∅
                   !! trim key = Some (trim value)).
  { rewrite metadataEntries_app, (metadataEntries_first_colon _ _ _ _ Hkey).
    rewrite (metadataEntries_other _ _ Hafter). apply lookup_insert_eq. }
  split; [exact Hentry |]. split.
  - intros Htitle. unfold parseMetadata. cbv zeta. cbn [title].
    rewrite <- Htitle, Hentry. reflexivity.
  - intros lines Hlines. unfold parseMetadata. cbv zeta. cbn [title].
    rewrite (metadataEntries_other _ _ Hlines). reflexivity.
Qed.

Lemma metadata_last_line_wins_witness :
  title (parseMetadata ["Title:first"; "Artist: somebody"; "Title: second "; "Tags:a b"])
  = "second".
Proof.
  destruct (metadata_last_line_wins ["Title:first"; "Artist: somebody"] ["Tags:a b"]
              "Title" " second ") as (_ & Htitle & _).
  - reflexivity.
  - constructor; [vm_compute; discriminate | constructor].
  - apply Htitle. reflexivity.
Defined.

End MetadataLines.

(** ** The settings of the difficulty *)

Section DifficultyScale.

Import OsuParser OsuGame.

Local Open Scope Q_scope.

(** X24.  A harder setting never makes the game easier, and a closer input
    is never judged worse: the approach time does not grow with the
    approach rate, across the two formulas that meet at the rate 5; the
    three hit windows do not grow with the overall difficulty and, up to
    the difficulty 30, lie within one another; the radius does not grow
    with the circle size; and the quality of an input does not grow with
    its offset. *)
Theorem harder_is_never_easier :
  (forall ar ar' : Q, ar <= ar' -> getApproachTime ar' <= getApproachTime ar)
  /\ (forall od od' : Q,
         od <= od' ->
         hit300 (getHitWindows od') <= hit300 (getHitWindows od)
         /\ hit100 (getHitWindows od') <= hit100 (getHitWindows od)
         /\ hit50 (getHitWindows od') <= hit50 (getHitWindows od))
  /\ (forall od : Q,
         od <= 30 ->
         hit300 (getHitWindows od) <= hit100 (getHitWindows od)
         /\ hit100 (getHitWindows od) <= hit50 (getHitWindows od))
  /\ (forall cs cs' : Q, cs <= cs' -> getCircleRadius cs' <= getCircleRadius cs)
  /\ (forall (w : hitWindows) (d d' : Q),
         d <= d' -> (hitQuality w d' <= hitQuality w d)%Z).
Proof.
  split; [| split; [| split; [| split]]].
  - intros ar ar' H. unfold getApproachTime.
    destruct (JS.Qltb ar 5) eqn:E; destruct (JS.Qltb ar' 5) eqn:E';
      try apply Qltb_lt in E; try apply Qltb_ge in E;
      try apply Qltb_lt in E'; try apply Qltb_ge in E'; lra.
  - intros od od' H. cbn. repeat split; lra.
  - intros od H. cbn. split; lra.
  - intros cs cs' H. unfold getCircleRadius. lra.
  - intros w d d' H. unfold hitQuality.
    destruct (Qle_bool d' (hit300 w)) eqn:E1.
    + apply Qle_bool_iff in E1.
      assert (E : Qle_bool d (hit300 w) = true) by (apply Qle_bool_iff; lra).
      rewrite E. lia.
    + destruct (Qle_bool d (hit300 w)); [destruct (Qle_bool d' (hit100 w)); lia |].
      destruct (Qle_bool d' (hit100 w)) eqn:E2.
      * apply Qle_bool_iff in E2.
        assert (E : Qle_bool d (hit100 w) = true) by (apply Qle_bool_iff; lra).
        rewrite E. lia.
      * destruct (Qle_bool d (hit100 w)); lia.
Qed.

Lemma harder_is_never_easier_witness :
  getApproachTime 9 <= getApproachTime 4
  /\ (hitQuality (getHitWindows 5) 60 <= hitQuality (getHitWindows 5) 20)%Z.
Proof.
  destruct harder_is_never_easier as (Har & _ & _ & _ & Hq).
  split; [apply Har | apply Hq]; vm_compute; discriminate.
Defined.

End DifficultyScale.

(** ** The start of a curve *)

Section CurveHead.

Import OsuParser Distance CurveStart.

Local Open Scope Q_scope.

Variable hypot : Q -> Q -> Q.
Variable atan2 : Q -> Q -> Q.
Variable cos : Q -> Q.
Variable sin : Q -> Q.

Lemma same_refl (p : Point.t) : same p p.
Proof. split; reflexivity. Qed.

Lemma same_trans (p q r : Point.t) : same p q -> same q r -> same p r.
Proof. intros [H1 H2] [H3 H4]. split; [rewrite H1 | rewrite H2]; assumption. Qed.

Lemma samePoint_same (p q : Point.t) : samePoint p q = true -> same p q.
Proof.
  unfold samePoint. intros H. apply andb_true_iff in H as [H1 H2].
  split; apply Qeq_bool_iff; assumption.
Qed.

Lemma interpolate_start (p1 p2 : Point.t) (t : Q) :
  t == 0 -> same (interpolate p1 p2 t) p1.
Proof. intros H. split; cbn; rewrite H; ring. Qed.

Lemma bezierPointRec_start (n : nat) :
  forall (q : Point.t) (rest : list Point.t) (t : Q),
    t == 0 ->
    (List.length (q :: rest) <= Datatypes.S n)%nat ->
    exists p : Point.t, bezierPointRec n (q :: rest) t = Some p /\ same p q.
Proof.
  induction n as [| n IH]; intros q rest t Ht Hlen.
  - destruct rest as [| q1 rest]; [| cbn in Hlen; lia].
    exists q. split; [reflexivity | apply same_refl].
  - destruct rest as [| q1 rest]; [exists q; split; [reflexivity | apply same_refl] |].
    cbn [bezierPointRec].
    change (bezierNewPoints (q :: q1 :: rest) t)
      with (interpolate q q1 t :: bezierNewPoints (q1 :: rest) t).
    destruct (IH (interpolate q q1 t) (bezierNewPoints (q1 :: rest) t) t Ht)
      as (p & Hp & Hsame).
    { cbn [List.length] in *. rewrite bezierNewPoints_length. cbn [List.length]. lia. }
    exists p. split; [exact Hp |].
    exact (same_trans _ _ _ Hsame (interpolate_start q q1 t Ht)).
Qed.

Lemma bezierSamples_head (fuel : nat) (q : Point.t) (rest samples : list Point.t)
  (step : Q) :
  bezierSamples fuel (q :: rest) 0 step = Some samples ->
  exists p : Point.t, head samples = Some p /\ same p q.
Proof.
  destruct fuel as [| fuel]; [discriminate |]. cbn [bezierSamples].
  change (Qle_bool 0 1) with true. cbv iota.
  destruct (bezierPointRec_start (List.length (q :: rest)) q rest 0)
    as (p & Hp & Hsame); [reflexivity | lia |].
  unfold bezierPoint. rewrite Hp. cbn [mbind option_bind].
  destruct (bezierSamples fuel _ _ _) as [ps |]; [| discriminate].
  cbn [mbind option_bind]. intros H; injection H as <-.
  exists p. split; [reflexivity | exact Hsame].
Qed.

Lemma splitBezierLoop_head (p0 : Point.t) (rest : list Point.t) :
  forall (prev : Point.t) (currentSegment : list Point.t)
         (segments : list (list Point.t)),
    last currentSegment = Some prev ->
    startsAt p0 (default currentSegment (head segments)) ->
    match splitBezierLoop prev rest currentSegment segments with
    | [] => True
    | segment :: _ => startsAt p0 segment
    end.
Proof.
  induction rest as [| curr rest IH]; intros prev currentSegment segments Hlast Hstart;
    cbn [splitBezierLoop].
  - destruct (1 <? List.length currentSegment)%nat;
      destruct segments as [| segment segments]; cbn in *; auto.
  - assert (Hpush : startsAt p0
                      (default currentSegment
                         (head (if (1 <? List.length currentSegment)%nat
                                then segments ++ [currentSegment] else segments)))).
    { destruct (1 <? List.length currentSegment)%nat;
        destruct segments as [| segment segments]; cbn in *; auto. }
    destruct (samePoint prev curr) eqn:Esame.
    + apply IH; [reflexivity |].
      destruct segments as [| segment segments];
        [| destruct (1 <? List.length currentSegment)%nat; exact Hstart].
      destruct (1 <? List.length currentSegment)%nat eqn:Elen; [exact Hstart |].
      (* the segment of one point, which is left out *)
      apply Nat.ltb_ge in Elen.
      destruct Hstart as (c & Hc & Hsame).
      destruct currentSegment as [| c0 [| c1 more]];
        [discriminate | | cbn [List.length] in Elen; lia].
      cbn in Hc, Hlast. injection Hc as <-. injection Hlast as <-.
      exists curr. split; [reflexivity |].
      apply samePoint_same in Esame. destruct Esame as [E1 E2].
      destruct Hsame as [H1 H2]. split; [rewrite <- E1 | rewrite <- E2]; assumption.
    + apply IH; [apply last_snoc |].
      destruct segments as [| segment segments]; cbn in *; [| exact Hstart].
      destruct Hstart as (c & Hc & Hsame).
      destruct currentSegment as [| c0 more]; [discriminate |].
      exists c. split; [exact Hc | exact Hsame].
Qed.

Lemma splitBezierSegments_head (p0 : Point.t) (rest : list Point.t) :
  match splitBezierSegments (p0 :: rest) with
  | [] => False
  | segment :: _ => startsAt p0 segment
  end.
Proof.
  unfold splitBezierSegments. cbv zeta.
  pose proof (splitBezierLoop_head p0 rest p0 [p0] [] eq_refl) as H.
  destruct (splitBezierLoop p0 rest [p0] []) as [| segment segments]; cbn.
  - exists p0. split; [reflexivity | apply same_refl].
  - apply H. exists p0. split; [reflexivity | apply same_refl].
Qed.

Lemma generateBezierCurve_head (fuel : nat) (p0 : Point.t) (rest curve : list Point.t)
  (resolution : positive) :
  generateBezierCurve fuel (p0 :: rest) resolution = Some curve ->
  startsAt p0 curve.
Proof.
  unfold generateBezierCurve.
  destruct (List.length (p0 :: rest) <? 2)%nat eqn:Elen.
  - intros H; injection H as <-. exists p0. split; [reflexivity | apply same_refl].
  - apply Nat.ltb_ge in Elen.
    destruct (splitBezierSegments_segments (p0 :: rest) Elen) as [_ Hall].
    pose proof (splitBezierSegments_head p0 rest) as Hhead.
    destruct (splitBezierSegments (p0 :: rest)) as [| segment segments];
      [contradiction |].
    apply Forall_cons in Hall as [Hseg _].
    cbn [bezierSegments].
    destruct (List.length segment <? 2)%nat eqn:E; [apply Nat.ltb_lt in E; lia |].
    destruct Hhead as (c & Hc & Hsame).
    destruct segment as [| q more]; [discriminate |]. injection Hc as ->.
    destruct (bezierSamples fuel (c :: more) 0 _) as [ps |] eqn:Hps; [| discriminate].
    cbn [mbind option_bind].
    destruct (bezierSegments fuel segments resolution) as [qs |]; [| discriminate].
    cbn [mbind option_bind]. intros H; injection H as <-.
    destruct (bezierSamples_head _ _ _ _ _ Hps) as (p & Hp & Hpc).
    destruct ps as [| p' ps]; [discriminate |]. injection Hp as ->.
    exists p. split; [reflexivity | exact (same_trans _ _ _ Hpc Hsame)].
Qed.

Lemma generateLinearCurve_head (p0 : Point.t) (rest : list Point.t)
  (resolution : positive) :
  startsAt p0 (generateLinearCurve (p0 :: rest) resolution).
Proof.
  unfold generateLinearCurve.
  destruct rest as [| p1 rest]; [exists p0; split; [reflexivity | apply same_refl] |].
  cbn [List.length Nat.ltb Nat.leb]. cbv zeta.
  set (pointsPerSegment := Qceiling _).
  assert (Hpos : (1 <= pointsPerSegment)%Z).
  { apply Qceiling_positive. apply Qlt_shift_div_l.
    - apply inject_Z_pos. lia.
    - rewrite Qmult_0_l. apply inject_Z_pos. lia. }
  cbn [linearSegments]. unfold linearSamples.
  rewrite (seqZ_cons 0 (pointsPerSegment + 1)) by lia. cbn [map app].
  eexists. split; [reflexivity |].
  apply interpolate_start. unfold Qdiv. apply Qmult_0_l.
Qed.

Lemma trimCurveToLength_head (points : list Point.t) (targetLength : Q) :
  head (trimCurveToLength hypot points targetLength) = head points.
Proof. destruct points as [| p0 [| p1 rest]]; reflexivity. Qed.

(** X25.  The curve of a slider starts at its head: the first point of the
    curve that [generateCurve] returns for a linear or a Bezier slider has
    the coordinates of the start of the slider, whatever its control points
    and its length. *)
Theorem curve_starts_at_head (fuel : nat) (curveType : string) (startX startY : Q)
  (controlPoints : list Point.t) (length : Q) (resolution : positive)
  (curve : list Point.t) :
  curveType <> "P"%string ->
  generateCurve hypot atan2 cos sin fuel curveType startX startY controlPoints length
    resolution = Some curve ->
  exists p : Point.t, head curve = Some p /\ same p (Point.mk startX startY).
Proof.
  intros Htype. unfold generateCurve. cbv zeta.
  destruct (String.eqb curveType "L").
  - cbn [mbind option_bind]. intros H; injection H as <-.
    rewrite trimCurveToLength_head. apply generateLinearCurve_head.
  - destruct (String.eqb curveType "P") eqn:E;
      [apply String.eqb_eq in E; contradiction |].
    destruct (generateBezierCurve fuel _ resolution) as [points |] eqn:Hpoints;
      [| discriminate].
    cbn [mbind option_bind]. intros H; injection H as <-.
    rewrite trimCurveToLength_head.
    exact (generateBezierCurve_head _ _ _ _ _ Hpoints).
Qed.

End CurveHead.

Lemma curve_starts_at_head_witness :
  exists p : Point.t,
    head GeometrySamples.bezier = Some p /\ Distance.same p (Point.mk 0 0).
Proof.
  apply (curve_starts_at_head Samples.axisHypot Samples.noAngle Samples.noValue
           Samples.noValue 12 "B" 0 0 [Point.mk 10 0; Point.mk 10 0; Point.mk 10 10] 15 10).
  - discriminate.
  - vm_compute. reflexivity.
Defined.

Section Identifiers.

Import AddBeatmap.

Local Open Scope string_scope.

Lemma dashRuns_runs (s : string) (inRun : bool) : runs (dashRuns s inRun) inRun = true.
Proof.
  revert inRun. induction s as [| c s IH]; intros inRun; [reflexivity |].
  cbn [dashRuns]. destruct (isIdChar c) eqn:E.
  - cbn [runs]. rewrite E. apply IH.
  - destruct inRun; [apply IH |].
    cbn [runs]. change (isIdChar "-") with false. cbn. apply IH.
Qed.

Lemma runs_weaken (s : string) : runs s true = true -> runs s false = true.
Proof.
  destruct s as [| c s]; [reflexivity |]. cbn [runs].
  destruct (isIdChar c); [auto |]. rewrite andb_false_r. discriminate.
Qed.

Lemma stripLeadingDash_idChar (c : ascii) (s : string) :
  isIdChar c = true -> stripLeadingDash (String c s) = String c s.
Proof.
  intros E.
  destruct c as [[] [] [] [] [] [] [] []]; first [reflexivity | discriminate E].
Qed.

Lemma stripLeadingDash_runs (s : string) :
  runs s false = true -> runs (stripLeadingDash s) true = true.
Proof.
  destruct s as [| c s]; [reflexivity |]. intros H. cbn [runs] in H.
  destruct (isIdChar c) eqn:Eid.
  - rewrite (stripLeadingDash_idChar c s Eid). cbn [runs]. rewrite Eid. exact H.
  - apply andb_true_iff in H as [H Hruns]. apply andb_true_iff in H as [Hdash _].
    apply Ascii.eqb_eq in Hdash. subst c. exact Hruns.
Qed.

Lemma runs_first (s : string) :
  runs s true = true -> s <> "" -> stripTrailingDash s <> "".
Proof.
  destruct s as [| c s]; [contradiction |]. cbn [runs].
  destruct (isIdChar c) eqn:E; [| rewrite andb_false_r; discriminate].
  intros _ _. cbn [stripTrailingDash].
  destruct s; [| discriminate].
  destruct (Ascii.eqb c "-") eqn:Ec; [| discriminate].
  apply Ascii.eqb_eq in Ec. subst c. discriminate E.
Qed.

Lemma stripTrailingDash_id (s : string) (afterDash : bool) :
  runs s afterDash = true -> idBody (stripTrailingDash s) afterDash = true.
Proof.
  revert afterDash. induction s as [| c s IH]; intros afterDash; [reflexivity |].
  cbn [runs]. destruct (isIdChar c) eqn:E.
  - intros H. specialize (IH false H).
    destruct s as [| d s].
    + cbn [stripTrailingDash]. destruct (Ascii.eqb c "-") eqn:Ec.
      * reflexivity.
      * cbn [idBody]. rewrite E. reflexivity.
    + change (stripTrailingDash (String c (String d s)))
        with (String c (stripTrailingDash (String d s))).
      cbn [idBody]. rewrite E. exact IH.
  - intros H. apply andb_true_iff in H as [H Hruns].
    apply andb_true_iff in H as [Hdash Hafter].
    destruct s as [| d s].
    + cbn [stripTrailingDash]. rewrite Hdash. reflexivity.
    + change (stripTrailingDash (String c (String d s)))
        with (String c (stripTrailingDash (String d s))).
      cbn [idBody]. rewrite E, Hdash, Hafter. cbn [andb].
      rewrite (IH true Hruns), andb_true_r.
      apply negb_true_iff. apply String.eqb_neq.
      apply runs_first; [exact Hruns | discriminate].
Qed.

Lemma toLowerChar_id (c : ascii) :
  isIdChar c = true \/ c = "-"%char -> toLowerChar c = c.
Proof.
  intros H.
  destruct c as [[] [] [] [] [] [] [] []];
    first [reflexivity | destruct H as [H | H]; discriminate H].
Qed.

Lemma idBody_fixed (s : string) :
  forall afterDash inRun : bool,
    idBody s afterDash = true ->
    (inRun = true -> afterDash = true) ->
    toLowerCase s = s
    /\ dashRuns s inRun = s
    /\ stripTrailingDash s = s.
Proof.
  induction s as [| c s IH]; intros afterDash inRun Hid Hflags;
    [repeat split |].
  cbn [idBody] in Hid. cbn [toLowerCase dashRuns].
  destruct (isIdChar c) eqn:E.
  - destruct (IH false false Hid ltac:(discriminate)) as (Hlow & Hruns & Hstrip).
    rewrite (toLowerChar_id c) by (left; exact E). rewrite Hlow, Hruns.
    repeat split.
    destruct s as [| d s].
    + cbn. destruct (Ascii.eqb c "-") eqn:Ec; [| reflexivity].
      apply Ascii.eqb_eq in Ec. subst c. discriminate E.
    + change (stripTrailingDash (String c (String d s)))
        with (String c (stripTrailingDash (String d s))).
      rewrite Hstrip. reflexivity.
  - apply andb_true_iff in Hid as [Hid Hbody].
    apply andb_true_iff in Hid as [Hid Hrest].
    apply andb_true_iff in Hid as [Hdash Hafter].
    apply Ascii.eqb_eq in Hdash. subst c.
    apply negb_true_iff in Hafter. subst afterDash.
    destruct inRun; [specialize (Hflags eq_refl); discriminate Hflags |].
    destruct (IH true true Hbody ltac:(reflexivity)) as (Hlow & Hruns & Hstrip).
    rewrite Hlow, Hruns. repeat split.
    destruct s as [| d s]; [discriminate Hrest |].
    change (stripTrailingDash (String "-" (String d s)))
      with (String "-" (stripTrailingDash (String d s))).
    rewrite Hstrip. reflexivity.
Qed.

(** X26.  The identifier that [generateId] makes of a title holds the
    characters a to z and 0 to 9 and single dashes between them only, with
    no dash at its start or at its end; and an identifier is its own
    identifier, so that [generateId] applied twice gives what it gives
    once. *)
Theorem generateId_is_id (str : string) :
  isId (generateId str) = true
  /\ generateId (generateId str) = generateId str
  /\ forall id : string, isId id = true -> generateId id = id.
Proof.
  assert (Hfixed : forall id : string, isId id = true -> generateId id = id).
  { intros id Hid. unfold isId in Hid.
    destruct (idBody_fixed id true false Hid ltac:(discriminate))
      as (Hlow & Hruns & Hstrip).
    unfold generateId. rewrite Hlow, Hruns.
    assert (Hlead : stripLeadingDash id = id).
    { destruct id as [| c id]; [reflexivity |]. cbn [idBody] in Hid.
      destruct (isIdChar c) eqn:E; [apply stripLeadingDash_idChar; exact E |].
      cbn [negb] in Hid. rewrite andb_false_r in Hid. discriminate Hid. }
    rewrite Hlead. exact Hstrip. }
  assert (Hid : isId (generateId str) = true).
  { unfold isId, generateId. apply stripTrailingDash_id.
    apply stripLeadingDash_runs. apply dashRuns_runs. }
  split; [exact Hid |]. split; [apply Hfixed; exact Hid | exact Hfixed].
Qed.

Lemma generateId_is_id_witness :
  generateId "Hello, World! (TV Size)" = "hello-world-tv-size"
  /\ generateId "hello-world-tv-size" = "hello-world-tv-size".
Proof.
  split; [vm_compute; reflexivity |].
  apply (generateId_is_id "Hello, World! (TV Size)"). vm_compute. reflexivity.
Defined.

End Identifiers.

(** ** The list of song identifiers *)

Section SongIdentifiers.

Import JS SongIds.

Local Open Scope string_scope.

Lemma unique_spec (ids : list string) :
  forall seen : list string,
    NoDup (unique ids seen)
    /\ forall id : string, id ∈ unique ids seen <-> id ∈ ids /\ id ∉ seen.
Proof.
  induction ids as [| a ids IH]; intros seen; cbn [unique].
  - split; [constructor |]. intros id. split; [intros H | intros [H _]]; inversion H.
  - destruct (bool_decide (a ∈ seen)) eqn:E.
    + apply bool_decide_eq_true in E. destruct (IH seen) as [Hnodup Hmem].
      split; [exact Hnodup |]. intros id. rewrite Hmem, elem_of_cons.
      split; [intros [H1 H2]; auto |].
      intros [[-> | H1] H2]; [contradiction | auto].
    + apply bool_decide_eq_false in E. destruct (IH (a :: seen)) as [Hnodup Hmem].
      split.
      * constructor; [| exact Hnodup]. rewrite Hmem, elem_of_cons. tauto.
      * intros id. rewrite !elem_of_cons, Hmem, elem_of_cons.
        split.
        -- intros [-> | [H1 H2]]; [auto |]. split; [auto | tauto].
        -- intros [[-> | H1] H2]; [auto |].
           destruct (decide (id = a)) as [-> | Hne]; [auto |]. right. tauto.
Qed.

(** X27.  The song identifiers that [loadSongIds] keeps are the trimmed
    identifiers of the charts that are strings and not empty, each of them
    once. *)
Theorem songIds_unique (beatmaps : list (option string)) :
  NoDup (songIds beatmaps)
  /\ forall id : string,
       id ∈ songIds beatmaps
       <-> id <> "" /\ exists raw : string, Some raw ∈ beatmaps /\ trim raw = id.
Proof.
  unfold songIds. cbv zeta.
  set (trimmed := map _ beatmaps).
  destruct (unique_spec (List.filter (fun id => negb (String.eqb id "")) trimmed) [])
    as [Hnodup Hmem].
  split; [exact Hnodup |]. intros id. rewrite Hmem.
  assert (Hin : id ∈ List.filter (fun id => negb (String.eqb id "")) trimmed
                <-> id <> "" /\ id ∈ trimmed).
  { rewrite !list_elem_of_In, filter_In, negb_true_iff, String.eqb_neq. tauto. }
  rewrite Hin. unfold trimmed. rewrite list_elem_of_fmap.
  split.
  - intros [[Hne ([raw |] & -> & Hraw)] _]; [| contradiction].
    split; [exact Hne | exists raw; auto].
  - intros [Hne (raw & Hraw & <-)]. split; [| apply not_elem_of_nil].
    split; [exact Hne |]. exists (Some raw). auto.
Qed.

Lemma songIds_unique_witness :
  songIds [Some " a "; None; Some "b"; Some "a"; Some "  "] = ["a"; "b"]
  /\ NoDup (songIds [Some " a "; None; Some "b"; Some "a"; Some "  "]).
Proof.
  split; [vm_compute; reflexivity |].
  apply (songIds_unique [Some " a "; None; Some "b"; Some "a"; Some "  "]).
Defined.

End SongIdentifiers.

(** ** The identifiers of the registry *)

Section RegistryIds.

Import AddBeatmap Registry.

Local Open Scope string_scope.

Lemma findIndex_Some {A : Type} (p : A -> bool) (l : list A) (i : nat) :
  findIndex p l = Some i ->
  exists a : A,
    l !! i = Some a /\ p a = true
    /\ forall (j : nat) (b : A), (j < i)%nat -> l !! j = Some b -> p b = false.
Proof.
  revert i. induction l as [| a l IH]; intros i; cbn [findIndex]; [discriminate |].
  destruct (p a) eqn:E.
  - intros H; injection H as <-. exists a. repeat split; [exact E |]. lia.
  - destruct (findIndex p l) as [k |]; [| discriminate].
    cbn. intros H; injection H as <-.
    destruct (IH k eq_refl) as (b & Hb & Hpb & Hbefore).
    exists b. split; [exact Hb |]. split; [exact Hpb |].
    intros [| j] c Hj; cbn.
    + intros H; injection H as <-. exact E.
    + apply Hbefore. lia.
Qed.

Lemma findIndex_None {A : Type} (p : A -> bool) (l : list A) :
  findIndex p l = None <-> forall a : A, a ∈ l -> p a = false.
Proof.
  induction l as [| a l IH]; cbn [findIndex].
  - split; [| reflexivity]. intros _ a Ha. inversion Ha.
  - destruct (p a) eqn:E.
    + split; [discriminate |]. intros H.
      rewrite (H a) in E by apply list_elem_of_here. discriminate E.
    + split.
      * intros H b Hb. apply elem_of_cons in Hb as [-> | Hb]; [exact E |].
        apply IH; [| exact Hb].
        destruct (findIndex p l); [discriminate H | reflexivity].
      * intros H. rewrite (proj2 IH); [reflexivity |].
        intros b Hb. apply H. apply list_elem_of_further. exact Hb.
Qed.

Lemma findIndex_app_last {A : Type} (p : A -> bool) (l : list A) (a : A) :
  (forall b : A, b ∈ l -> p b = false) -> p a = true ->
  findIndex p (l ++ [a])%list = Some (List.length l).
Proof.
  intros Hl Ha. induction l as [| b l IH]; cbn [findIndex app List.length].
  - rewrite Ha. reflexivity.
  - rewrite (Hl b) by apply list_elem_of_here.
    rewrite IH; [reflexivity |].
    intros c Hc. apply Hl. apply list_elem_of_further. exact Hc.
Qed.

Lemma delete_app_last {A : Type} (l : list A) (a : A) :
  delete (List.length l) (l ++ [a])%list = l.
Proof.
  induction l as [| b l IH]; [reflexivity |]. cbn. f_equal. exact IH.
Qed.

Lemma register_cases
    (artist title creator setId folderName audioFile background : string)
    (difficulties : list difficulty) (beatmaps : list beatmap) :
  let entry :=
    mkBeatmap (beatmapIdOf artist title creator setId) title artist creator
              ("Osu/" ++ folderName ++ "/") audioFile background difficulties in
  let registry :=
    register artist title creator setId folderName audioFile background
             difficulties beatmaps in
  (exists (i : nat) (existing : beatmap),
     beatmaps !! i = Some existing
     /\ registry = <[i := withId (id existing) entry]> beatmaps)
  \/ (registry = (beatmaps ++ [entry])%list
      /\ beatmapIdOf artist title creator setId ∉ (id <$> beatmaps)).
Proof.
  cbv zeta. unfold register. cbv zeta.
  set (entry := mkBeatmap _ title artist creator _ audioFile background difficulties).
  set (p := fun b : beatmap => _).
  destruct (findIndex p beatmaps) as [i |] eqn:Efind.
  - destruct (findIndex_Some p beatmaps i Efind) as (existing & Hex & _ & _).
    rewrite Hex. left. exists i, existing. auto.
  - right. split; [reflexivity |].
    intros Hin. apply list_elem_of_fmap in Hin as (b & Hb & Hin).
    apply findIndex_None with (a := b) in Efind; [| exact Hin].
    unfold p in Efind. rewrite <- Hb, String.eqb_refl in Efind. discriminate Efind.
Qed.

(** X28.  Importing a chart leaves the identifier of every entry of the
    registry as it is: the entry of the chart is written over an entry,
    with the identifier of that entry, or added at the end with an
    identifier that no entry has.  So identifiers that are unique stay
    unique, and the registry holds the new entry afterwards. *)
Theorem import_keeps_identifiers
    (artist title creator setId folderName audioFile background : string)
    (difficulties : list difficulty) (beatmaps : list beatmap) :
  let registry :=
    register artist title creator setId folderName audioFile background
             difficulties beatmaps in
  take (List.length beatmaps) (id <$> registry) = id <$> beatmaps
  /\ (List.length registry = List.length beatmaps
      \/ List.length registry = S (List.length beatmaps)
         /\ last (id <$> registry) = Some (beatmapIdOf artist title creator setId)
         /\ beatmapIdOf artist title creator setId ∉ (id <$> beatmaps))
  /\ (NoDup (id <$> beatmaps) -> NoDup (id <$> registry))
  /\ exists entry : beatmap,
       entry ∈ registry
       /\ Registry.title entry = title /\ Registry.artist entry = artist
       /\ Registry.creator entry = creator
       /\ Registry.difficulties entry = difficulties.
Proof.
  cbv zeta.
  destruct (register_cases artist title creator setId folderName audioFile background
              difficulties beatmaps)
    as [(i & existing & Hex & ->) | [-> Hnew]]; cbv zeta.
  - set (entry := mkBeatmap _ title artist creator _ audioFile background difficulties).
    assert (Hids : id <$> <[i := withId (id existing) entry]> beatmaps = id <$> beatmaps).
    { rewrite list_fmap_insert. cbn [withId id].
      apply list_insert_id. rewrite list_lookup_fmap, Hex. reflexivity. }
    rewrite Hids. split.
    { rewrite <- (length_fmap id beatmaps). apply firstn_all. }
    split; [left; apply length_insert |].
    split; [auto |].
    exists (withId (id existing) entry). split; [| repeat split].
    apply list_elem_of_lookup_2 with i. apply list_lookup_insert_eq.
    apply lookup_lt_Some with existing. exact Hex.
  - set (entry := mkBeatmap _ title artist creator _ audioFile background difficulties).
    rewrite fmap_app. split.
    { rewrite <- (length_fmap id beatmaps). apply take_app_length. }
    split.
    { right. split; [rewrite length_app; cbn; lia |].
      split; [apply last_snoc | exact Hnew]. }
    split.
    + intros Hnodup. apply NoDup_app. split; [exact Hnodup |].
      split; [| apply NoDup_singleton].
      intros a Ha Hin. apply list_elem_of_singleton in Hin. subst a. exact (Hnew Ha).
    + exists entry. split; [| repeat split].
      apply elem_of_app. right. apply list_elem_of_here.
Qed.

Lemma import_keeps_identifiers_witness :
  id <$> register "Daniel Ingram" "Winter Wrap Up" "Chag" "43812" "Winter" "a.mp3" ""
                  [] RegistrySamples.registry
  = ["daniel-ingram-winter-wrap-up-set-43812"; "smile"]
  /\ NoDup (id <$> register "Pinkie" "Smile" "Pone" "" "Smile" "s.mp3" "" []
                            RegistrySamples.registry).
Proof.
  split; [vm_compute; reflexivity |].
  apply (import_keeps_identifiers "Pinkie" "Smile" "Pone" "" "Smile" "s.mp3" "" []
           RegistrySamples.registry).
  apply (bool_decide_eq_true_1 (NoDup (id <$> RegistrySamples.registry))).
  vm_compute. reflexivity.
Defined.

(** X29.  Deleting a chart takes the first entry with that identifier out
    of the registry and leaves the others in their order; it fails exactly
    when no entry has the identifier.  With unique identifiers no entry has
    the identifier afterwards, and deleting a chart that an import has added
    gives the registry of before the import. *)
Theorem delete_removes_identifier (target : string) (beatmaps : list beatmap) :
  (deleteBeatmap target beatmaps = None <-> target ∉ (id <$> beatmaps))
  /\ (forall registry : list beatmap,
        deleteBeatmap target beatmaps = Some registry ->
        exists (before after : list beatmap) (entry : beatmap),
          beatmaps = (before ++ entry :: after)%list
          /\ registry = (before ++ after)%list
          /\ id entry = target
          /\ (target ∉ (id <$> before))
          /\ (NoDup (id <$> beatmaps) -> target ∉ (id <$> registry)))
  /\ (forall (artist title creator setId folderName audioFile background : string)
             (difficulties : list difficulty),
        let registry :=
          register artist title creator setId folderName audioFile background
                   difficulties beatmaps in
        target = beatmapIdOf artist title creator setId ->
        List.length registry = S (List.length beatmaps) ->
        deleteBeatmap target registry = Some beatmaps).
Proof.
  set (p := fun b : beatmap => String.eqb (id b) target).
  assert (Hnone : findIndex p beatmaps = None <-> target ∉ (id <$> beatmaps)).
  { rewrite findIndex_None. split.
    - intros H Hin. apply list_elem_of_fmap in Hin as (b & Hb & Hin).
      specialize (H b Hin). unfold p in H. rewrite <- Hb, String.eqb_refl in H.
      discriminate H.
    - intros H b Hb. unfold p. apply String.eqb_neq. intros Heq. apply H.
      apply list_elem_of_fmap. exists b. auto. }
  split; [| split].
  - unfold deleteBeatmap. fold p. rewrite <- Hnone.
    destruct (findIndex p beatmaps); [split; discriminate | tauto].
  - intros registry. unfold deleteBeatmap. fold p.
    destruct (findIndex p beatmaps) as [i |] eqn:Efind; [| discriminate].
    intros H; injection H as <-.
    destruct (findIndex_Some p beatmaps i Efind) as (entry & Hentry & Hp & Hbefore).
    exists (take i beatmaps), (drop (S i) beatmaps), entry.
    assert (Hsplit : beatmaps = (take i beatmaps ++ entry :: drop (S i) beatmaps)%list).
    { symmetry. apply take_drop_middle. exact Hentry. }
    assert (Hid : id entry = target) by (apply String.eqb_eq; exact Hp).
    assert (Hfirst : target ∉ (id <$> take i beatmaps)).
    { intros Hin. apply list_elem_of_fmap in Hin as (b & Hb & Hin).
      apply list_elem_of_lookup_1 in Hin as (j & Hj).
      apply lookup_take_Some in Hj as [Hj Hlt].
      specialize (Hbefore j b Hlt Hj). unfold p in Hbefore.
      rewrite <- Hb, String.eqb_refl in Hbefore. discriminate Hbefore. }
    split; [exact Hsplit |]. split; [apply delete_take_drop |].
    split; [exact Hid |]. split; [exact Hfirst |].
    intros Hnodup. rewrite delete_take_drop, fmap_app.
    assert (Hparts : NoDup (id <$> (take i beatmaps ++ entry :: drop (S i) beatmaps)%list))
      by (rewrite <- Hsplit; exact Hnodup).
    rewrite fmap_app, fmap_cons in Hparts.
    apply NoDup_app in Hparts as (_ & _ & Hparts).
    apply NoDup_cons in Hparts as [Hnot _].
    intros Hin. apply elem_of_app in Hin as [Hin | Hin].
    + exact (Hfirst Hin).
    + rewrite Hid in Hnot. exact (Hnot Hin).
  - intros artist title creator setId folderName audioFile background difficulties
           registry Htarget Hlength. unfold registry in *. clear registry.
    destruct (register_cases artist title creator setId folderName audioFile background
                difficulties beatmaps)
      as [(i & existing & Hex & Hreg) | [Hreg Hnew]]; cbv zeta in *.
    + rewrite Hreg, length_insert in Hlength. lia.
    + rewrite Hreg. unfold deleteBeatmap. fold p.
      rewrite findIndex_app_last.
      * rewrite delete_app_last. reflexivity.
      * apply findIndex_None. apply Hnone. rewrite Htarget. exact Hnew.
      * unfold p. cbn [id]. rewrite Htarget. apply String.eqb_refl.
Qed.

Lemma delete_removes_identifier_witness :
  deleteBeatmap "smile" RegistrySamples.registry = Some [RegistrySamples.winter]
  /\ deleteBeatmap "luna-eclipse-by-pone"
       (register "Luna" "Eclipse" "Pone" "" "Eclipse" "e.mp3" "" []
                 RegistrySamples.registry)
     = Some RegistrySamples.registry.
Proof.
  split; [vm_compute; reflexivity |].
  apply (delete_removes_identifier "luna-eclipse-by-pone" RegistrySamples.registry);
    vm_compute; reflexivity.
Defined.

End RegistryIds.

(** ** The spans of a slider that are left *)

Section RemainingSpans.

Import OsuGame SliderSpans.

(** X30.  The number of spans that [getSliderRemainingSpans] gives is one
    more than the turns that [getSliderRepeatState] has left, and one when
    there is no repeat state; it is never below one.  A repeat state has at
    least one turn left, and its turn, the turns left and one add up to the
    slides of the slider. *)
Theorem remaining_spans_follow_repeat_state (slider : option Obj.t) (currentTime : Q) :
  getSliderRemainingSpans slider currentTime
  = match getSliderRepeatState slider currentTime with
    | Some repeat => turnsRemaining repeat + 1
    | None => 1
    end
  /\ 1 <= getSliderRemainingSpans slider currentTime
  /\ (forall repeat : repeatState,
        getSliderRepeatState slider currentTime = Some repeat ->
        1 <= turnsRemaining repeat
        /\ turnIndex repeat + turnsRemaining repeat + 1
           = from_option Obj.slides 0 slider).
Proof.
  destruct slider as [slider |]; cbn [getSliderRemainingSpans getSliderRepeatState];
    [| split; [reflexivity | split; [lia | discriminate]]].
  destruct (Obj.slides slider <=? 1) eqn:Eslides.
  { rewrite orb_true_r. cbn [orb]. split; [reflexivity | split; [lia | discriminate]]. }
  apply Z.leb_gt in Eslides.
  replace (Obj.slides slider =? 0) with false by (symmetry; apply Z.eqb_neq; lia).
  cbn [orb].
  destruct (Qeq_bool (Obj.slideDuration slider) 0); cbn [orb];
    [split; [reflexivity | split; [lia | discriminate]] |].
  destruct (Qeq_bool (Obj.totalDuration slider) 0);
    [split; [reflexivity | split; [lia | discriminate]] |].
  cbv zeta.
  set (turn := Qfloor (elapsedOf slider currentTime / Obj.slideDuration slider)).
  destruct (Obj.slides slider - 1 <=? turn) eqn:Eturn.
  - apply Z.leb_le in Eturn. split; [lia | split; [lia | discriminate]].
  - apply Z.leb_gt in Eturn. cbn [turnsRemaining].
    split; [lia |]. split; [lia |].
    intros repeat H; injection H as <-.
    cbn [turnIndex turnsRemaining from_option]. split; lia.
Qed.

Lemma remaining_spans_follow_repeat_state_witness :
  getSliderRepeatState (Some SpanSamples.threeSlides) 1600
  = Some (mkRepeatState 1 1)
  /\ getSliderRemainingSpans (Some SpanSamples.threeSlides) 1600 = 2.
Proof.
  split; [vm_compute; reflexivity |].
  rewrite (proj1 (remaining_spans_follow_repeat_state
                    (Some SpanSamples.threeSlides) 1600)).
  vm_compute. reflexivity.
Defined.

End RemainingSpans.
